(** * Late-interest engine of SubCloseProd: a shallow embedding in Rocq

    The Python sources embedded here:
    - backend/app/models/data_models.py        (records and enums)
    - backend/app/calculators/interest_rate_calculator.py
    - backend/app/calculators/late_interest_calculator.py
    - backend/app/calculators/allocation_calculator.py
    - dev/late_interest_engine.py              (LateInterestEngine.run_complete_calculation)

    Python's [decimal.Decimal] is modelled with its default context:
    precision 28 and rounding ROUND_HALF_EVEN; a [datetime.date] is its
    proleptic ordinal ([date.toordinal()]), so [(a - b).days] is [a - b]. *)

From Stdlib Require Import ZArith Lia.
From stdpp Require Import base list gmap strings sorting.

Open Scope Z_scope.

(* ------------------------------------------------------------------ *)
(** ** Exceptions and the error monad *)

(** The exceptions the core can raise.  [InvalidOperation],
    [DivisionByZero] and [Overflow] are [decimal]'s signals trapped by
    the default context (all subclasses of [ArithmeticError]); the
    untrapped ones (Underflow, Subnormal, Inexact, Rounded, Clamped) only
    set flags and are not modelled. *)
Inductive exn :=
| ValueError (msg : string)
| InvalidOperation
| DivisionByZero
| Overflow.

Inductive result (A : Type) :=
| Ok (a : A)
| Err (e : exn).
Arguments Ok {A} a.
Arguments Err {A} e.

Global Instance result_ret : MRet result := fun A a => Ok a.
Global Instance result_bind : MBind result := fun A B f m =>
  match m with Ok a => f a | Err e => Err e end.

Definition raise {A} (e : exn) : result A := Err e.

(** [for x in xs: acc = body(acc, x)] where the body may raise. *)
Fixpoint fold_res {A B} (f : B -> A -> result B) (acc : B) (xs : list A)
  : result B :=
  match xs with
  | [] => Ok acc
  | x :: xs' => acc' ← f acc x; fold_res f acc' xs'
  end.

(** [[f(x) for x in xs]] where [f] may raise. *)
Fixpoint map_res {A B} (f : A -> result B) (xs : list A) : result (list B) :=
  match xs with
  | [] => Ok []
  | x :: xs' => y ← f x; ys ← map_res f xs'; Ok (y :: ys)
  end.

(* ------------------------------------------------------------------ *)
(** ** Python's [decimal.Decimal] (default context) *)

Module Decimal.

(** A finite decimal [coef * 10 ^ exp]; the sign lives in [coef], so a
    negative zero is represented as [0] (infinities and NaNs never arise in
    the core, since [Overflow] is trapped). *)
Record dec := Dec { coef : Z; exp : Z }.

Definition prec : Z := 28.
Definition Emax : Z := 999999.
Definition Etiny : Z := -999999 - prec + 1.

Inductive rounding := ROUND_HALF_EVEN | ROUND_HALF_UP | ROUND_DOWN.

(** The default context rounds half-even. *)
Definition context_rounding : rounding := ROUND_HALF_EVEN.

(** [len(str(abs(n)))]: number of decimal digits, 1 for zero. *)
Fixpoint ndigits_fuel (fuel : nat) (n : Z) : Z :=
  match fuel with
  | O => 1
  | S f => if n <? 10 then 1 else 1 + ndigits_fuel f (n / 10)
  end.
Definition ndigits (n : Z) : Z :=
  ndigits_fuel (Z.to_nat (Z.log2 (Z.abs n) + 1)) (Z.abs n).

(** Drop the last [k >= 0] digits of [n], rounding with [mode]. *)
Definition round_digits (mode : rounding) (n k : Z) : Z :=
  let p := 10 ^ k in
  let q := Z.abs n / p in
  let r := Z.abs n mod p in
  let q' :=
    match mode with
    | ROUND_DOWN => q
    | ROUND_HALF_UP => if 2 * r <? p then q else q + 1
    | ROUND_HALF_EVEN =>
        if 2 * r <? p then q
        else if p <? 2 * r then q + 1
        else if Z.even q then q else q + 1
    end in
  Z.sgn n * q'.

Definition Emin : Z := - Emax.
(** [Context.Etop()]: the largest exponent of a [prec]-digit result. *)
Definition Etop : Z := Emax - prec + 1.

(** [Decimal._fix(context)] with [clamp = 0]: a zero gets its exponent
    clamped to [[Etiny, Emax]]; a nonzero value whose adjusted exponent
    exceeds [Emax] raises [Overflow]; otherwise the coefficient is rounded
    so that it has at most [prec] digits and its exponent is at least
    [Etiny] (a subnormal result may round to zero; [Underflow] is not
    trapped). *)
Definition fix_ (d : dec) : result dec :=
  if coef d =? 0 then Ok (Dec 0 (Z.min (Z.max (exp d) Etiny) Emax))
  else
    let exp_min := ndigits (coef d) + exp d - prec in
    if Etop <? exp_min then Err Overflow
    else
      let exp_min := Z.max exp_min Etiny in
      if exp d <? exp_min then
        let q := round_digits context_rounding (coef d) (exp_min - exp d) in
        if prec <? ndigits q then
          (if Etop <? exp_min + 1 then Err Overflow
           else Ok (Dec (q / 10) (exp_min + 1)))
        else Ok (Dec q exp_min)
      else Ok d.

Definition of_Z (n : Z) : dec := Dec n 0.

(** Numerical value as a fraction over a common exponent. *)
Definition align (a b : dec) : Z * Z :=
  let e := Z.min (exp a) (exp b) in
  (coef a * 10 ^ (exp a - e), coef b * 10 ^ (exp b - e)).

(** [Decimal.__add__]: the exact sum at the smaller exponent, then
    [_fix] (the special cases of a zero operand give the same result). *)
Definition add (a b : dec) : result dec :=
  let e := Z.min (exp a) (exp b) in
  let '(x, y) := align a b in fix_ (Dec (x + y) e).

(** [a - b] is [a + b.copy_negate()]. *)
Definition sub (a b : dec) : result dec := add a (Dec (- coef b) (exp b)).

(** [Decimal.__mul__]: the exact product, then [_fix]. *)
Definition mul (a b : dec) : result dec :=
  fix_ (Dec (coef a * coef b) (exp a + exp b)).

(** [Decimal.__truediv__], following decimal.py line by line. *)
Definition div (a b : dec) : result dec :=
  if coef b =? 0 then
    if coef a =? 0 then Err InvalidOperation else Err DivisionByZero
  else if coef a =? 0 then fix_ (Dec 0 (exp a - exp b))
  else
    let sgn := Z.sgn (coef a) * Z.sgn (coef b) in
    let ca := Z.abs (coef a) in
    let cb := Z.abs (coef b) in
    let shift := ndigits cb - ndigits ca + prec + 1 in
    let e := exp a - exp b - shift in
    let '(q, r) :=
      if 0 <=? shift then Z.div_eucl (ca * 10 ^ shift) cb
      else Z.div_eucl ca (cb * 10 ^ (- shift)) in
    if r =? 0 then
      (* exact: move towards the ideal exponent [exp a - exp b] *)
      let fix strip (fuel : nat) (q e : Z) : dec :=
        match fuel with
        | O => Dec (sgn * q) e
        | S f =>
            if (e <? exp a - exp b) && (q mod 10 =? 0)
            then strip f (q / 10) (e + 1) else Dec (sgn * q) e
        end in
      fix_ (strip (Z.to_nat (exp a - exp b - e)) q e)
    else
      let q' := if q mod 5 =? 0 then q + 1 else q in
      fix_ (Dec (sgn * q') e).

(** [Decimal.adjusted()] *)
Definition adjusted (d : dec) : Z := exp d + ndigits (coef d) - 1.

(** [Decimal._rescale] to exponent [t] *)
Definition rescale (d : dec) (t : Z) (mode : rounding) : dec :=
  if coef d =? 0 then Dec 0 t
  else if t <=? exp d then Dec (coef d * 10 ^ (exp d - t)) t
  else Dec (round_digits mode (coef d) (t - exp d)) t.

(** [self.quantize(q, rounding=mode)]: only the exponent of [q] matters. *)
Definition quantize_with (d q : dec) (mode : rounding) : result dec :=
  let t := exp q in
  if negb ((Etiny <=? t) && (t <=? Emax)) then Err InvalidOperation
  else if coef d =? 0 then fix_ (Dec 0 t)
  else if Emax <? adjusted d then Err InvalidOperation
  else if prec <? adjusted d - t + 1 then Err InvalidOperation
  else
    let r := rescale d t mode in
    if Emax <? adjusted r then Err InvalidOperation
    else if prec <? ndigits (coef r) then Err InvalidOperation
    else fix_ r.

(** [self.quantize(q)]: no rounding argument, so the context's. *)
Definition quantize (d q : dec) : result dec :=
  quantize_with d q context_rounding.

(** Value comparisons ([==], [<], [>] on Decimals and ints). *)
Definition eqb (a b : dec) : bool := let '(x, y) := align a b in x =? y.
Definition ltb (a b : dec) : bool := let '(x, y) := align a b in x <? y.
Definition is_zero (a : dec) : bool := coef a =? 0.

(** [Decimal('0.1') ** n]: Python computes the exact power [1E-n] and
    passes it through [_fix], so it raises [Overflow] for [n <= -1000000]
    and underflows to [0E-1000026] for [n >= 1000027]. *)
Definition pow_tenth (n : Z) : result dec := fix_ (Dec 1 (- n)).

(** [sum(xs)]: Python's [sum] starts from the int [0]. *)
Definition sum (xs : list dec) : result dec := fold_res add (of_Z 0) xs.

End Decimal.

Abbreviation dec := Decimal.dec.
Notation "a +d b" := (Decimal.add a b) (at level 50, left associativity).
Notation "a *d b" := (Decimal.mul a b) (at level 40, left associativity).

(* ------------------------------------------------------------------ *)
(** ** Dates *)

(** [datetime.date] as its ordinal; [ymd y m d] is
    [date(y, m, d).toordinal()] (the algorithm of CPython's datetime.py). *)
Definition date := Z.

Definition is_leap (y : Z) : bool :=
  (Z.modulo y 4 =? 0) && (negb (Z.modulo y 100 =? 0) || (Z.modulo y 400 =? 0)).

Definition days_before_year (y : Z) : Z :=
  let y' := y - 1 in y' * 365 + y' / 4 - y' / 100 + y' / 400.

Definition days_before_month (y m : Z) : Z :=
  let base :=
    nth (Z.to_nat (m - 1))
      [0; 31; 59; 90; 120; 151; 181; 212; 243; 273; 304; 334] 0 in
  base + (if (2 <? m) && is_leap y then 1 else 0).

Definition ymd (y m d : Z) : date := days_before_year y + days_before_month y m + d.

(** Comparison operators on dates, as the source writes them. *)
Definition date_lt (a b : date) : bool := a <? b.
Definition date_le (a b : date) : bool := a <=? b.

(* ------------------------------------------------------------------ *)
(** ** Sorting: Python's stable [list.sort] / [sorted] *)

(** [before x y] holds when [x] may stay in front of [y]; inserting in
    front of the first such [y] keeps equal keys in input order. *)
Fixpoint insert_stable {A} (before : A -> A -> bool) (x : A) (l : list A)
  : list A :=
  match l with
  | [] => [x]
  | y :: l' => if before x y then x :: y :: l' else y :: insert_stable before x l'
  end.

Fixpoint sort_stable {A} (before : A -> A -> bool) (l : list A) : list A :=
  match l with
  | [] => []
  | x :: l' => insert_stable before x (sort_stable before l')
  end.

(** [l.sort(key=key)] *)
Definition sort_by_key {A} (key : A -> Z) (l : list A) : list A :=
  sort_stable (fun x y => key x <=? key y) l.

(** [sorted(l, key=key, reverse=True)]: still stable. *)
Definition sort_by_key_desc {A} (key : A -> Z) (l : list A) : list A :=
  sort_stable (fun x y => key y <=? key x) l.

(* ------------------------------------------------------------------ *)
(** ** data_models.py *)

Inductive InterestCompounding := SIMPLE | COMPOUND.
Inductive InterestBase := PRIME | FLAT.
Inductive EndDateCalculation := ISSUE_DATE | DUE_DATE.

Record PrimeRateChange := mkPrimeRateChange {
  effective_date : date;
  rate : dec
}.

Record FundAssumptions := mkFundAssumptions {
  fund_name : string;
  late_interest_compounding : InterestCompounding;
  late_interest_base : InterestBase;
  late_spread : dec;
  end_date_calculation : EndDateCalculation;
  mgmt_fee_allocated_interest : bool;
  allocated_to_all_existing_lps : bool;
  calc_rounding : Z;
  sum_rounding : Z;
  prime_rate_history : list PrimeRateChange;
  flat_rate : option dec
}.

Record Partner := mkPartner {
  name : string;
  issue_date : date;
  commitment : dec;
  close_number : Z
}.

Record CapitalCall := mkCapitalCall {
  call_number : Z;
  due_date : date;
  call_percentage : dec
}.

(** [CapitalCall.get_call_amount] *)
Definition get_call_amount (call : CapitalCall) (c : dec) : result dec :=
  p ← Decimal.div (call_percentage call) (Decimal.of_Z 100);
  c *d p.

Record LateInterestDetail := mkLateInterestDetail {
  d_call_number : Z;
  d_due_date : date;
  d_call_percentage : dec;
  capital_amount : dec;
  late_interest : dec;
  days_late : Z;
  effective_rate : dec
}.

Record NewLPCalculation := mkNewLPCalculation {
  partner_name : string;
  n_issue_date : date;
  n_commitment : dec;
  n_close_number : Z;
  total_catch_up : dec;
  total_late_interest_due : dec;
  breakdown_by_capital_call : list LateInterestDetail
}.

(** [allocation_by_admitting_close] is a dict; kept as an association
    list in insertion order, as Python iterates it. *)
Record ExistingLPAllocation := mkExistingLPAllocation {
  a_partner_name : string;
  a_commitment : dec;
  a_close_number : Z;
  total_allocation : dec;
  allocation_by_admitting_close : list (Z * dec)
}.

(* ------------------------------------------------------------------ *)
(** ** interest_rate_calculator.py *)

(** The two modes [__init__] can set up: [is_flat_rate] with [flat_rate],
    or a [rate_history] sorted newest first with a [spread]. *)
Inductive RateMode :=
| FlatMode (flat_rate : dec)
| VariableMode (rate_history : list PrimeRateChange) (spread : dec).

Record InterestRateCalculator := mkInterestRateCalculator {
  compounding : InterestCompounding;
  mode : RateMode
}.

(** [InterestRateCalculator.__init__] *)
Definition new_InterestRateCalculator (comp : InterestCompounding)
    (rate_history : option (list PrimeRateChange)) (spread : option dec)
    (flat_rate : option dec) : result InterestRateCalculator :=
  match flat_rate, rate_history with
  | Some fr, _ => Ok (mkInterestRateCalculator comp (FlatMode fr))
  | None, Some rh =>
      let s := match spread with
               | Some s => if Decimal.is_zero s then Decimal.of_Z 0 else s
               | None => Decimal.of_Z 0
               end in
      Ok (mkInterestRateCalculator comp
            (VariableMode (sort_by_key_desc effective_date rh) s))
  | None, None => Err (ValueError "Must provide either rate_history or flat_rate")
  end.

(** The loop of [get_rate_at_date]: the first entry (newest first) with
    [target_date >= effective_date]. *)
Fixpoint first_applicable (target : date) (hist : list PrimeRateChange)
  : option PrimeRateChange :=
  match hist with
  | [] => None
  | rc :: hist' =>
      if date_le (effective_date rc) target then Some rc
      else first_applicable target hist'
  end.

(** [InterestRateCalculator.get_rate_at_date] *)
Definition get_rate_at_date (c : InterestRateCalculator) (target : date)
  : result dec :=
  match mode c with
  | FlatMode fr => Ok fr
  | VariableMode hist spread =>
      match first_applicable target hist with
      | Some rc => rate rc +d spread
      | None =>
          match last hist with
          | Some rc => rate rc +d spread
          | None => Err (ValueError "No rate history available")
          end
      end
  end.

(** [principal * (rate / Decimal('100')) * (Decimal(days) / Decimal('365'))],
    evaluated left to right. *)
Definition segment_interest (principal rate : dec) (days : Z) : result dec :=
  r ← Decimal.div rate (Decimal.of_Z 100);
  m ← principal *d r;
  t ← Decimal.div (Decimal.of_Z days) (Decimal.of_Z 365);
  m *d t.

(** The rate changes with [start_date < effective_date <= end_date],
    sorted by date. *)
Definition rate_changes_in_period (hist : list PrimeRateChange) (start_date end_date : date)
  : list PrimeRateChange :=
  sort_by_key effective_date
    (List.filter (fun rc => date_lt start_date (effective_date rc)
                       && date_le (effective_date rc) end_date) hist).

(** One pass of the segment loop of [_calculate_simple_interest]:
    the state is [(total_interest, current_date)]. *)
Definition simple_segment_step (c : InterestRateCalculator) (principal : dec)
    (st : dec * date) (rc : PrimeRateChange) : result (dec * date) :=
  let '(total, current_date) := st in
  let segment_days := effective_date rc - current_date in
  if 0 <? segment_days then
    r ← get_rate_at_date c current_date;
    si ← segment_interest principal r segment_days;
    total' ← total +d si;
    Ok (total', effective_date rc)
  else Ok (total, effective_date rc).

(** [InterestRateCalculator._calculate_simple_interest] *)
Definition calculate_simple_interest (c : InterestRateCalculator)
    (principal : dec) (start_date end_date : date) : result (dec * dec) :=
  let total_days := end_date - start_date + 1 in
  if total_days <=? 0 then Ok (Decimal.of_Z 0, Decimal.of_Z 0) else
  match mode c with
  | FlatMode fr =>
      interest ← segment_interest principal fr total_days;
      Ok (interest, fr)
  | VariableMode hist _ =>
      '(total, current_date) ←
        fold_res (simple_segment_step c principal) (Decimal.of_Z 0, start_date)
          (rate_changes_in_period hist start_date end_date);
      let final_days := end_date - current_date + 1 in
      total' ← (if 0 <? final_days then
                  r ← get_rate_at_date c current_date;
                  si ← segment_interest principal r final_days;
                  total +d si
                else Ok total);
      q ← Decimal.div total' principal;
      y ← Decimal.div (Decimal.of_Z 365) (Decimal.of_Z total_days);
      qy ← q *d y;
      avg ← qy *d Decimal.of_Z 100;
      Ok (total', avg)
  end.

Section Engine.

(** [Decimal.__pow__] at a non-integral exponent (compound mode only);
    the development holds for any such function. *)
Variable dpow : dec -> dec -> result dec.

(** [balance * ((1 + rate / n) ** (n * t))] with [rate = r / 100] and
    [t = days / 365]. *)
Definition compound_growth (balance r n : dec) (days : Z) : result dec :=
  rate ← Decimal.div r (Decimal.of_Z 100);
  t ← Decimal.div (Decimal.of_Z days) (Decimal.of_Z 365);
  rn ← Decimal.div rate n;
  base ← Decimal.of_Z 1 +d rn;
  nt ← n *d t;
  g ← dpow base nt;
  balance *d g.

Definition compound_segment_step (c : InterestRateCalculator) (n : dec)
    (st : dec * date) (rc : PrimeRateChange) : result (dec * date) :=
  let '(balance, current_date) := st in
  let segment_days := effective_date rc - current_date in
  if 0 <? segment_days then
    r ← get_rate_at_date c current_date;
    b ← compound_growth balance r n segment_days;
    Ok (b, effective_date rc)
  else Ok (balance, effective_date rc).

(** [InterestRateCalculator._calculate_compound_interest]; [n] is the
    number of periods per year of the requested frequency. *)
Definition calculate_compound_interest (c : InterestRateCalculator)
    (principal : dec) (start_date end_date : date) (n : Z) : result (dec * dec) :=
  let total_days := end_date - start_date + 1 in
  if total_days <=? 0 then Ok (Decimal.of_Z 0, Decimal.of_Z 0) else
  let nd := Decimal.of_Z n in
  match mode c with
  | FlatMode fr =>
      amount ← compound_growth principal fr nd total_days;
      interest ← Decimal.sub amount principal;
      Ok (interest, fr)
  | VariableMode hist _ =>
      '(balance, current_date) ←
        fold_res (compound_segment_step c nd) (principal, start_date)
          (rate_changes_in_period hist start_date end_date);
      let final_days := end_date - current_date + 1 in
      balance' ← (if 0 <? final_days then
                    r ← get_rate_at_date c current_date;
                    compound_growth balance r nd final_days
                  else Ok balance);
      interest ← Decimal.sub balance' principal;
      t_total ← Decimal.div (Decimal.of_Z total_days) (Decimal.of_Z 365);
      ratio ← Decimal.div balance' principal;
      inv ← Decimal.div (Decimal.of_Z 1) t_total;
      g ← dpow ratio inv;
      g1 ← Decimal.sub g (Decimal.of_Z 1);
      eff ← g1 *d Decimal.of_Z 100;
      Ok (interest, eff)
  end.

(** [InterestRateCalculator.calculate_interest]: compound mode always
    compounds daily (365 periods a year). *)
Definition calculate_interest (c : InterestRateCalculator)
    (principal : dec) (start_date end_date : date) : result (dec * dec) :=
  if date_lt end_date start_date then
    Err (ValueError "End date must be after start date")
  else match compounding c with
  | SIMPLE => calculate_simple_interest c principal start_date end_date
  | COMPOUND => calculate_compound_interest c principal start_date end_date 365
  end.

(* ------------------------------------------------------------------ *)
(** ** late_interest_calculator.py *)

Record LateInterestCalculator := mkLateInterestCalculator {
  li_assumptions : FundAssumptions;
  rate_calculator : InterestRateCalculator
}.

(** [LateInterestCalculator.__init__] *)
Definition new_LateInterestCalculator (a : FundAssumptions)
  : result LateInterestCalculator :=
  rc ← (match late_interest_base a with
        | PRIME => new_InterestRateCalculator (late_interest_compounding a)
                     (Some (prime_rate_history a)) (Some (late_spread a)) None
        | FLAT => new_InterestRateCalculator (late_interest_compounding a)
                    None None (flat_rate a)
        end);
  Ok (mkLateInterestCalculator a rc).

(** [_round_amount], identical in the late-interest and allocation
    calculators: [quantize] without a rounding argument. *)
Definition round_amount (amount : dec) (decimal_places : Z) : result dec :=
  if decimal_places =? 0 then Decimal.quantize amount (Decimal.of_Z 1)
  else
    quantizer ← Decimal.pow_tenth decimal_places;
    Decimal.quantize amount quantizer.

(** [LateInterestCalculator._calculate_late_interest_for_call] *)
Definition calculate_late_interest_for_call (lc : LateInterestCalculator)
    (new_lp : Partner) (call : CapitalCall) : result LateInterestDetail :=
  let a := li_assumptions lc in
  capital_amount ← get_call_amount call (commitment new_lp);
  let end_date := match end_date_calculation a with
                  | ISSUE_DATE => issue_date new_lp
                  | DUE_DATE => due_date call
                  end in
  let days := end_date - due_date call in
  if days <=? 0 then
    Ok (mkLateInterestDetail (call_number call) (due_date call)
          (call_percentage call) capital_amount (Decimal.of_Z 0) 0
          (Decimal.of_Z 0))
  else
    '(li, er) ← calculate_interest (rate_calculator lc) capital_amount
                  (due_date call) end_date;
    li' ← round_amount li (calc_rounding a);
    er' ← round_amount er (calc_rounding a);
    ca' ← round_amount capital_amount (calc_rounding a);
    Ok (mkLateInterestDetail (call_number call) (due_date call)
          (call_percentage call) ca' li' days er').

(** The missed calls: [due_date < issue_date], sorted by [call_number]. *)
Definition missed_calls (new_lp : Partner) (capital_calls : list CapitalCall)
  : list CapitalCall :=
  sort_by_key call_number
    (List.filter (fun call => date_lt (due_date call) (issue_date new_lp))
       capital_calls).

(** The loop body: append the detail, add to both running totals. *)
Definition new_lp_step (lc : LateInterestCalculator) (new_lp : Partner)
    (st : list LateInterestDetail * dec * dec) (call : CapitalCall)
  : result (list LateInterestDetail * dec * dec) :=
  let '(breakdown, tc, tl) := st in
  detail ← calculate_late_interest_for_call lc new_lp call;
  tc' ← tc +d capital_amount detail;
  tl' ← tl +d late_interest detail;
  Ok (breakdown ++ [detail], tc', tl').

(** [LateInterestCalculator.calculate_late_interest_for_new_lp] *)
Definition calculate_late_interest_for_new_lp (lc : LateInterestCalculator)
    (new_lp : Partner) (capital_calls : list CapitalCall)
  : result NewLPCalculation :=
  let a := li_assumptions lc in
  '(breakdown, tc, tl) ←
    fold_res (new_lp_step lc new_lp) ([], Decimal.of_Z 0, Decimal.of_Z 0)
      (missed_calls new_lp capital_calls);
  tc' ← round_amount tc (sum_rounding a);
  tl' ← round_amount tl (sum_rounding a);
  Ok (mkNewLPCalculation (name new_lp) (issue_date new_lp) (commitment new_lp)
        (close_number new_lp) tc' tl' breakdown).

(** [LateInterestCalculator.calculate_for_multiple_new_lps] *)
Definition calculate_for_multiple_new_lps (lc : LateInterestCalculator)
    (new_lps : list Partner) (capital_calls : list CapitalCall)
  : result (list NewLPCalculation) :=
  map_res (fun lp => calculate_late_interest_for_new_lp lc lp capital_calls) new_lps.

(* ------------------------------------------------------------------ *)
(** ** allocation_calculator.py *)

Definition zero : dec := Decimal.of_Z 0.

(** Existing partners at a close: [close_number < admitting_close_number]. *)
Definition existing_partners (all_partners : list Partner) (k : Z) : list Partner :=
  List.filter (fun p => close_number p <? k) all_partners.

(** [sum(new_lp.total_late_interest_due for new_lp in new_lps
         if new_lp.close_number == admitting_close_number)] *)
Definition total_late_interest_at (new_lps : list NewLPCalculation) (k : Z)
  : result dec :=
  Decimal.sum (map total_late_interest_due
                 (List.filter (fun n => n_close_number n =? k) new_lps)).

(** Loop body of [calculate_allocations]. *)
Definition allocation_step (calc_r : Z) (k : Z) (total_li total_ec : dec)
    (st : list ExistingLPAllocation * dec) (partner : Partner)
  : result (list ExistingLPAllocation * dec) :=
  let '(allocations, total_allocated) := st in
  pct ← Decimal.div (commitment partner) total_ec;
  m ← total_li *d pct;
  amount ← round_amount m calc_r;
  total_allocated' ← total_allocated +d amount;
  Ok (allocations ++ [mkExistingLPAllocation (name partner) (commitment partner)
                        (close_number partner) amount [(k, amount)]],
      total_allocated').

(** [AllocationCalculator.calculate_allocations] (Contract A). *)
Definition calculate_allocations (a : FundAssumptions)
    (new_lps : list NewLPCalculation) (all_partners : list Partner) (k : Z)
  : result (list ExistingLPAllocation * dec) :=
  let existing := existing_partners all_partners k in
  match existing with
  | [] => Ok ([], zero)
  | _ =>
    total_li ← total_late_interest_at new_lps k;
    if Decimal.eqb total_li zero then Ok ([], zero) else
    total_ec ← Decimal.sum (map commitment existing);
    if Decimal.eqb total_ec zero then
      Err (ValueError "Total existing commitment cannot be zero")
    else
      '(allocations, total_allocated) ←
        fold_res (allocation_step (calc_rounding a) k total_li total_ec)
          ([], zero) existing;
      t ← round_amount total_allocated (sum_rounding a);
      Ok (allocations, t)
  end.

(** [get_allocation_commitment]: the original commitment for a partner
    named in [commitment_increases], the current one otherwise. *)
Definition get_allocation_commitment (commitment_increases : gmap string dec)
    (partner : Partner) : dec :=
  match commitment_increases !! name partner with
  | Some original => original
  | None => commitment partner
  end.

(** Loop body of [calculate_allocations_with_increases]. *)
Definition allocation_step_with_increases (calc_r : Z)
    (commitment_increases : gmap string dec) (k : Z) (total_li total_ec : dec)
    (st : list ExistingLPAllocation * dec) (partner : Partner)
  : result (list ExistingLPAllocation * dec) :=
  let '(allocations, total_allocated) := st in
  let allocation_commitment := get_allocation_commitment commitment_increases partner in
  pct ← Decimal.div allocation_commitment total_ec;
  m ← total_li *d pct;
  amount ← round_amount m calc_r;
  total_allocated' ← total_allocated +d amount;
  Ok (allocations ++ [mkExistingLPAllocation (name partner) (commitment partner)
                        (close_number partner) amount [(k, amount)]],
      total_allocated').

(** [AllocationCalculator.calculate_allocations_with_increases] (Contract B). *)
Definition calculate_allocations_with_increases (a : FundAssumptions)
    (new_lps : list NewLPCalculation) (all_partners : list Partner)
    (commitment_increases : gmap string dec) (k : Z)
  : result (list ExistingLPAllocation * dec) :=
  let existing := existing_partners all_partners k in
  match existing with
  | [] => Ok ([], zero)
  | _ =>
    total_li ← total_late_interest_at new_lps k;
    if Decimal.eqb total_li zero then Ok ([], zero) else
    total_ec ←
      Decimal.sum (map (get_allocation_commitment commitment_increases) existing);
    if Decimal.eqb total_ec zero then
      Err (ValueError "Total existing commitment cannot be zero")
    else
      '(allocations, total_allocated) ←
        fold_res (allocation_step_with_increases (calc_rounding a)
                    commitment_increases k total_li total_ec)
          ([], zero) existing;
      t ← round_amount total_allocated (sum_rounding a);
      Ok (allocations, t)
  end.

(** [d[key] = v] on an insertion-ordered dict. *)
Fixpoint assoc_set {K V} (eqk : K -> K -> bool) (key : K) (v : V)
    (d : list (K * V)) : list (K * V) :=
  match d with
  | [] => [(key, v)]
  | (k', v') :: d' =>
      if eqk k' key then (key, v) :: d' else (k', v') :: assoc_set eqk key v d'
  end.

Fixpoint assoc_get {K V} (eqk : K -> K -> bool) (key : K) (d : list (K * V))
  : option V :=
  match d with
  | [] => None
  | (k', v') :: d' => if eqk k' key then Some v' else assoc_get eqk key d'
  end.

(** One allocation of the aggregation loop. *)
Definition aggregate_one (close_num : Z)
    (acc : list (string * ExistingLPAllocation)) (al : ExistingLPAllocation)
  : result (list (string * ExistingLPAllocation)) :=
  let pn := a_partner_name al in
  let acc := match assoc_get String.eqb pn acc with
             | Some _ => acc
             | None => acc ++ [(pn, mkExistingLPAllocation pn (a_commitment al)
                                     (a_close_number al) zero [])]
             end in
  match assoc_get String.eqb pn acc with
  | Some pa =>
      t ← total_allocation pa +d total_allocation al;
      Ok (assoc_set String.eqb pn
            (mkExistingLPAllocation (a_partner_name pa) (a_commitment pa)
               (a_close_number pa) t
               (assoc_set Z.eqb close_num (total_allocation al)
                  (allocation_by_admitting_close pa))) acc)
  | None => Ok acc
  end.

(** [AllocationCalculator.aggregate_allocations_across_closes] *)
Definition aggregate_allocations_across_closes (a : FundAssumptions)
    (allocations_by_close : list (Z * list ExistingLPAllocation))
  : result (list ExistingLPAllocation) :=
  partner_allocations ←
    fold_res (fun acc '(close_num, allocations) =>
                fold_res (aggregate_one close_num) acc allocations)
      [] allocations_by_close;
  map_res (fun '(_, pa) =>
             t ← round_amount (total_allocation pa) (sum_rounding a);
             Ok (mkExistingLPAllocation (a_partner_name pa) (a_commitment pa)
                   (a_close_number pa) t (allocation_by_admitting_close pa)))
    partner_allocations.

(* ------------------------------------------------------------------ *)
(** ** late_interest_engine.py: [LateInterestEngine] *)

Record LateInterestEngine := mkLateInterestEngine {
  e_assumptions : FundAssumptions;
  late_calc : LateInterestCalculator
}.

(** [LateInterestEngine.__init__] (the allocation calculator only holds
    the assumptions). *)
Definition new_LateInterestEngine (a : FundAssumptions) : result LateInterestEngine :=
  lc ← new_LateInterestCalculator a;
  Ok (mkLateInterestEngine a lc).

(** A per-close summary record; [difference] is collected - allocated. *)
Record CloseSummary := mkCloseSummary {
  s_close_number : Z;
  new_lps_count : Z;
  existing_lps_count : Z;
  s_total_collected : dec;
  s_total_allocated : dec;
  difference : dec
}.

Record Settings := mkSettings {
  set_late_interest_base : InterestBase;
  set_late_spread : dec;
  set_compounding : InterestCompounding;
  set_end_date_calculation : EndDateCalculation;
  set_calc_rounding : Z;
  set_sum_rounding : Z;
  set_prime_rate : option dec
}.

(** [EngineOutput]. The source renders every Decimal field with [str()]
    and each record as a dict; the values are kept here as they are. *)
Record EngineOutput := mkEngineOutput {
  o_fund_name : string;
  calculation_date : date;
  total_late_interest_collected : dec;
  total_late_interest_allocated : dec;
  new_lps : list NewLPCalculation;
  existing_lps : list ExistingLPAllocation;
  summary_by_close : list CloseSummary
  ; settings : Settings
}.

(** The caller's objects the run can touch: the [partners] and
    [capital_calls] lists passed in. *)
Record Store := mkStore {
  st_partners : list Partner;
  st_capital_calls : list CapitalCall
}.

(** [partners_by_close]: built by appending to [partners_by_close[k]]. *)
Definition group_by_close (partners : list Partner) : list (Z * list Partner) :=
  foldl (fun groups p =>
           match assoc_get Z.eqb (close_number p) groups with
           | Some ps => assoc_set Z.eqb (close_number p) (ps ++ [p]) groups
           | None => groups ++ [(close_number p, [p])]
           end) [] partners.

(** [sorted(partners_by_close.keys())] and [all_closes[1:]]. *)
Definition all_closes (groups : list (Z * list Partner)) : list Z :=
  sort_by_key id (map fst groups).

Definition closes_to_process (groups : list (Z * list Partner)) : list Z :=
  tail (all_closes groups).

(** The accumulators of the close loop: [all_new_lp_results],
    [all_allocations_by_close], [grand_total_collected],
    [grand_total_allocated], [close_summaries]. *)
Record RunAcc := mkRunAcc {
  acc_new_lp_results : list NewLPCalculation;
  acc_allocations_by_close : list (Z * list ExistingLPAllocation);
  acc_collected : dec;
  acc_allocated : dec;
  acc_summaries : list CloseSummary
}.

(** The inner loop over the new LPs of one close. *)
Definition new_lps_step (eng : LateInterestEngine) (capital_calls : list CapitalCall)
    (st : list NewLPCalculation * dec) (new_lp : Partner)
  : result (list NewLPCalculation * dec) :=
  let '(calcs, total_collected) := st in
  calc ← calculate_late_interest_for_new_lp (late_calc eng) new_lp capital_calls;
  total_collected' ← total_collected +d total_late_interest_due calc;
  Ok (calcs ++ [calc], total_collected').

(** One iteration of [for close_num in closes_to_process]. *)
Definition process_close (eng : LateInterestEngine)
    (commitment_increases : option (gmap string dec))
    (partners : list Partner) (groups : list (Z * list Partner))
    (capital_calls : list CapitalCall) (acc : RunAcc) (close_num : Z)
  : result RunAcc :=
  let a := e_assumptions eng in
  let new_lps_at_close := default [] (assoc_get Z.eqb close_num groups) in
  let existing := existing_partners partners close_num in
  '(new_lp_calcs, total_collected) ←
    fold_res (new_lps_step eng capital_calls) ([], zero) new_lps_at_close;
  let results := acc_new_lp_results acc ++ new_lp_calcs in
  collected ← acc_collected acc +d total_collected;
  '(by_close, allocated, total_allocated) ←
    (if bool_decide (existing <> []) && Decimal.ltb zero total_collected then
       '(allocations, total_allocated) ←
         (match commitment_increases with
          | Some m =>
              if bool_decide (m = ∅) then
                calculate_allocations a new_lp_calcs partners close_num
              else
                calculate_allocations_with_increases a new_lp_calcs partners m close_num
          | None => calculate_allocations a new_lp_calcs partners close_num
          end);
       allocated ← acc_allocated acc +d total_allocated;
       Ok (acc_allocations_by_close acc ++ [(close_num, allocations)],
           allocated, total_allocated)
     else Ok (acc_allocations_by_close acc, acc_allocated acc, zero));
  diff ← Decimal.sub total_collected total_allocated;
  let summary :=
    mkCloseSummary close_num (Z.of_nat (length new_lps_at_close))
      (Z.of_nat (length existing)) total_collected total_allocated diff in
  Ok (mkRunAcc results by_close collected allocated
        (acc_summaries acc ++ [summary])).

(** [LateInterestEngine.run_complete_calculation] (console printing
    omitted). [today] is [date.today()]. The caller's [partners] list is
    sorted in place first, so the store changes even when the run
    raises afterwards. *)
Definition run_complete_calculation (eng : LateInterestEngine)
    (commitment_increases : option (gmap string dec)) (today : date)
    (s : Store) : result EngineOutput * Store :=
  let a := e_assumptions eng in
  let partners := sort_by_key close_number (st_partners s) in
  let s' := mkStore partners (st_capital_calls s) in
  let groups := group_by_close partners in
  let out :=
    acc ← fold_res (process_close eng commitment_increases partners groups
                      (st_capital_calls s'))
            (mkRunAcc [] [] zero zero []) (closes_to_process groups);
    aggregated ←
      (match acc_allocations_by_close acc with
       | [] => Ok []
       | abc => aggregate_allocations_across_closes a abc
       end);
    Ok (mkEngineOutput (fund_name a) today (acc_collected acc) (acc_allocated acc)
          (acc_new_lp_results acc) aggregated (acc_summaries acc)
          (mkSettings (late_interest_base a) (late_spread a)
             (late_interest_compounding a) (end_date_calculation a)
             (calc_rounding a) (sum_rounding a)
             (match prime_rate_history a with
              | rc :: _ => Some (rate rc)
              | [] => None
              end))) in
  (out, s').

End Engine.

(* ================================================================== *)
(** * Orderings and example inputs used by the proofs *)

(** Newest first, the order [__init__] sorts the history in. *)
Definition by_date_desc (x y : PrimeRateChange) : Prop :=
  effective_date y <= effective_date x.

(** A prime-rate history, out of date order. *)
Definition example_history : list PrimeRateChange :=
  [mkPrimeRateChange (ymd 2022 3 17) (Decimal.Dec 350 (-2));
   mkPrimeRateChange (ymd 2022 5 5) (Decimal.Dec 400 (-2))].

(** Scenario 1 of the spec: simple interest at a flat 9.25%. *)
Definition scenario1_calculator : InterestRateCalculator :=
  mkInterestRateCalculator SIMPLE (FlatMode (Decimal.Dec 925 (-2))).


(** Fund settings for the concrete runs: a flat 10% simple rate through
    the issue date, cents for both roundings. *)
Definition example_assumptions : FundAssumptions :=
  mkFundAssumptions "Example Fund" SIMPLE FLAT (Decimal.of_Z 0) ISSUE_DATE
    false true 2 2 [] (Some (Decimal.of_Z 10)).

Definition example_calculator : LateInterestCalculator :=
  mkLateInterestCalculator example_assumptions
    (mkInterestRateCalculator SIMPLE (FlatMode (Decimal.of_Z 10))).

(** Three calls, listed out of number order; call 3 is due 2023-07-01. *)
Definition example_calls : list CapitalCall :=
  [mkCapitalCall 2 (ymd 2023 3 1) (Decimal.of_Z 25);
   mkCapitalCall 1 (ymd 2023 1 15) (Decimal.of_Z 25);
   mkCapitalCall 3 (ymd 2023 7 1) (Decimal.of_Z 10)].

(** A new LP admitted at close 2 on the due date of call 3. *)
Definition lp_on_due_date : Partner :=
  mkPartner "D" (ymd 2023 7 1) (Decimal.of_Z 1000000) 2.

(** [Decimal.__pow__] is reached only in compound mode; the concrete
    runs below are in simple mode and never call it. *)
Definition pow_unused : dec -> dec -> result dec := fun _ _ => Err InvalidOperation.

(** A PRIME fund in simple mode: prime plus 2%, same roundings. *)
Definition prime_assumptions : FundAssumptions :=
  mkFundAssumptions "Example Prime Fund" SIMPLE PRIME (Decimal.of_Z 2) ISSUE_DATE
    false true 2 2 example_history None.

(** A capital call of 0%, due 2023-01-15. *)
Definition zero_call : CapitalCall := mkCapitalCall 4 (ymd 2023 1 15) (Decimal.of_Z 0).

(** Existing LPs A ($1,000,000), B ($2,000,000), C ($500,000) at close 1
    and the new LP D at close 2. *)
Definition example_partners : list Partner :=
  [mkPartner "A" (ymd 2022 1 10) (Decimal.of_Z 1000000) 1;
   mkPartner "B" (ymd 2022 1 10) (Decimal.of_Z 2000000) 1;
   mkPartner "C" (ymd 2022 1 10) (Decimal.of_Z 500000) 1;
   lp_on_due_date].

(** D's calculation, as [calculate_late_interest_for_new_lp] returns it
    for [example_calls] with the breakdown left out. *)
Definition example_new_lp_calc : NewLPCalculation :=
  mkNewLPCalculation "D" (ymd 2023 7 1) (Decimal.of_Z 1000000) 2
    (Decimal.Dec 50000000 (-2)) (Decimal.Dec 1993151 (-2)) [].

(** Settings asking for 28 decimal places per line item. *)
Definition fine_assumptions : FundAssumptions :=
  mkFundAssumptions "Example Fund" SIMPLE FLAT (Decimal.of_Z 0) ISSUE_DATE
    false true 28 2 [] (Some (Decimal.of_Z 10)).

(** The partner as Contract A sees it when its commitment is replaced by
    its allocation basis ([get_allocation_commitment]). *)
Definition rebase_partner (commitment_increases : gmap string dec) (p : Partner) : Partner :=
  mkPartner (name p) (issue_date p) (get_allocation_commitment commitment_increases p)
    (close_number p).

(** An allocation record reporting the partner's current commitment. *)
Definition with_current_commitment (p : Partner) (al : ExistingLPAllocation)
  : ExistingLPAllocation :=
  mkExistingLPAllocation (a_partner_name al) (commitment p) (a_close_number al)
    (total_allocation al) (allocation_by_admitting_close al).

(** Scenario 3 of the spec: A, admitted at close 1 with $1,000,000, has
    increased to $2,000,000 at close 2. *)
Definition increase_partners : list Partner :=
  [mkPartner "A" (ymd 2022 1 10) (Decimal.of_Z 2000000) 1;
   mkPartner "B" (ymd 2022 1 10) (Decimal.of_Z 2000000) 1;
   mkPartner "C" (ymd 2022 1 10) (Decimal.of_Z 500000) 1;
   lp_on_due_date].

Definition example_increases : gmap string dec :=
  <["A" := Decimal.of_Z 1000000]> ∅.

(** Two partners passed in close order 2, 1. *)
Definition unsorted_partners : list Partner :=
  [lp_on_due_date; mkPartner "A" (ymd 2022 1 10) (Decimal.of_Z 1000000) 1].

(** What [partners_by_close] holds after the partners [processed] have
    been appended: distinct close keys, exactly the closes seen, and
    each group made of processed partners of that close. *)
Definition group_inv (processed : list Partner) (g : list (Z * list Partner)) : Prop :=
  NoDup (map fst g) /\
  (forall k, In k (map fst g) <-> exists p, In p processed /\ close_number p = k) /\
  (forall k ps, assoc_get Z.eqb k g = Some ps ->
                forall p, In p ps -> close_number p = k /\ In p processed).

(** The variable-rate simple accrual as the specification words it
    (compared with [calculate_simple_interest] in the proofs): the
    interval is cut at the boundary dates [bs]; each segment before a
    boundary counts [(boundary - segment_start)] days, the final one
    [(end_date - last_boundary) + 1] days; each accrues at the rate on
    its first day; the total is the sum of the segment interests and the
    reported rate [(total / principal) * (365 / total_days) * 100]. *)
Fixpoint spec_segments (segment_start : date) (bs : list date) (end_date : date)
  : list (date * Z) :=
  match bs with
  | [] => [(segment_start, end_date - segment_start + 1)]
  | b :: bs' => (segment_start, b - segment_start) :: spec_segments b bs' end_date
  end.

Definition spec_segment_interest (c : InterestRateCalculator) (principal : dec)
    (seg : date * Z) : result dec :=
  r ← get_rate_at_date c seg.1;
  segment_interest principal r seg.2.

Definition spec_simple_interest (c : InterestRateCalculator) (principal : dec)
    (start_date end_date : date) (bs : list date) : result (dec * dec) :=
  let total_days := end_date - start_date + 1 in
  interests ← map_res (spec_segment_interest c principal)
                (spec_segments start_date bs end_date);
  total ← Decimal.sum interests;
  q ← Decimal.div total principal;
  y ← Decimal.div (Decimal.of_Z 365) (Decimal.of_Z total_days);
  qy ← q *d y;
  avg ← qy *d Decimal.of_Z 100;
  Ok (total, avg).

(** A PRIME calculator over [example_history] plus 2%, simple mode. *)
Definition prime_calculator : InterestRateCalculator :=
  mkInterestRateCalculator SIMPLE
    (VariableMode (sort_by_key_desc effective_date example_history) (Decimal.of_Z 2)).

(** The example fund accruing only up to each call's due date. *)
Definition due_date_assumptions : FundAssumptions :=
  mkFundAssumptions "Example Fund" SIMPLE FLAT (Decimal.of_Z 0) DUE_DATE
    false true 2 2 [] (Some (Decimal.of_Z 10)).

Definition due_date_calculator : LateInterestCalculator :=
  mkLateInterestCalculator due_date_assumptions
    (mkInterestRateCalculator SIMPLE (FlatMode (Decimal.of_Z 10))).

(** A commitment increase recorded for the new LP D only. *)
Definition new_lp_increase : gmap string dec :=
  <["D" := Decimal.of_Z 500000]> ∅.

(** The accumulator of the aggregation: distinct partner-name keys, each
    keying a record of that partner. *)
Definition agg_inv (acc : list (string * ExistingLPAllocation)) : Prop :=
  NoDup (map fst acc) /\ (forall n pa, In (n, pa) acc -> a_partner_name pa = n).

(* ================================================================== *)
(** * Proofs *)

(** ** Stable sorting *)

Section SortFacts.
Context {A : Type} (before : A -> A -> bool) (R : A -> A -> Prop).
Hypothesis before_true : forall x y, before x y = true -> R x y.
Hypothesis before_false : forall x y, before x y = false -> R y x.

Lemma insert_stable_perm x l : insert_stable before x l ≡ₚ x :: l.
Proof.
  induction l as [|y l IH]; simpl; [done|].
  destruct (before x y); [done|].
  rewrite IH. apply Permutation_swap.
Qed.

Lemma sort_stable_perm l : sort_stable before l ≡ₚ l.
Proof.
  induction l as [|x l IH]; simpl; [done|].
  by rewrite insert_stable_perm, IH.
Qed.

Lemma insert_stable_sorted x l :
  Sorted R l -> Sorted R (insert_stable before x l).
Proof.
  induction l as [|y l IH]; simpl; intros HS.
  - repeat constructor.
  - destruct (before x y) eqn:E.
    + constructor; [done|]. constructor. by apply before_true.
    + inversion HS as [|? ? HSl Hhd]; subst.
      constructor; [by apply IH|].
      destruct l as [|z l']; simpl.
      * constructor. by apply before_false.
      * destruct (before x z).
        -- constructor. by apply before_false.
        -- inversion Hhd; by constructor.
Qed.

Lemma sort_stable_sorted l : Sorted R (sort_stable before l).
Proof.
  induction l as [|x l IH]; simpl; [constructor|].
  by apply insert_stable_sorted.
Qed.

End SortFacts.

Lemma sort_by_key_perm {A} (key : A -> Z) l : sort_by_key key l ≡ₚ l.
Proof. apply sort_stable_perm. Qed.

Lemma sort_by_key_desc_perm {A} (key : A -> Z) l : sort_by_key_desc key l ≡ₚ l.
Proof. apply sort_stable_perm. Qed.

Lemma sort_by_key_strongly_sorted {A} (key : A -> Z) l :
  StronglySorted (fun x y => key x <= key y) (sort_by_key key l).
Proof.
  apply Sorted_StronglySorted.
  - intros x y z; lia.
  - apply (sort_stable_sorted _ _).
    + intros x y H. by apply Z.leb_le.
    + intros x y H. apply Z.leb_gt in H. lia.
Qed.

Lemma sort_by_key_desc_strongly_sorted {A} (key : A -> Z) l :
  StronglySorted (fun x y => key y <= key x) (sort_by_key_desc key l).
Proof.
  apply Sorted_StronglySorted.
  - intros x y z; lia.
  - apply (sort_stable_sorted _ _).
    + intros x y H. by apply Z.leb_le.
    + intros x y H. apply Z.leb_gt in H. lia.
Qed.

(** ** Decimal facts *)

Lemma dec_eqb_refl (x : dec) : Decimal.eqb x x = true.
Proof. unfold Decimal.eqb, Decimal.align. simpl. apply Z.eqb_refl. Qed.

Lemma dec_eqb_zero (x : dec) :
  Decimal.is_zero x = true -> Decimal.eqb (Decimal.of_Z 0) x = true.
Proof.
  destruct x as [c e]. unfold Decimal.is_zero, Decimal.eqb, Decimal.align; simpl.
  intros H. apply Z.eqb_eq in H. subst. by rewrite Z.mul_0_l.
Qed.

(** ** The rate resolver *)

Lemma first_applicable_some target hist rc :
  StronglySorted by_date_desc hist ->
  first_applicable target hist = Some rc ->
  In rc hist /\ effective_date rc <= target /\
  (forall rc', In rc' hist -> effective_date rc' <= target ->
               effective_date rc' <= effective_date rc).
Proof.
  induction hist as [|x hist IH]; simpl; [discriminate|].
  intros HS Hf. inversion HS as [|? ? HS' Hall]; subst.
  unfold date_le in Hf. destruct (effective_date x <=? target) eqn:E.
  - injection Hf as <-. apply Z.leb_le in E.
    split; [by left|]. split; [done|].
    intros rc' [<-|Hin] Hle; [lia|].
    rewrite List.Forall_forall in Hall. apply (Hall rc'), Hin.
  - apply Z.leb_gt in E. destruct (IH HS' Hf) as (Hin & Hle & Hmax).
    split; [by right|]. split; [done|].
    intros rc' [<-|Hin'] Hle'; [lia|]. by apply Hmax.
Qed.

Lemma first_applicable_none target hist :
  first_applicable target hist = None ->
  forall rc, In rc hist -> target < effective_date rc.
Proof.
  induction hist as [|x hist IH]; simpl; [done|].
  unfold date_le. destruct (effective_date x <=? target) eqn:E; [discriminate|].
  intros Hf rc [<-|Hin]; [by apply Z.leb_gt|]. by apply IH.
Qed.

Lemma last_oldest hist rc :
  StronglySorted by_date_desc hist -> last hist = Some rc ->
  In rc hist /\ forall rc', In rc' hist -> effective_date rc <= effective_date rc'.
Proof.
  induction hist as [|x hist IH]; [discriminate|].
  intros HS Hl. inversion HS as [|? ? HS' Hall]; subst.
  rewrite List.Forall_forall in Hall.
  destruct hist as [|y hist'].
  - simpl in Hl. injection Hl as <-. split; [by left|].
    intros rc' [<-|[]]. lia.
  - rewrite last_cons_cons in Hl. destruct (IH HS' Hl) as [Hin Hmin].
    split; [by right|]. intros rc' [<-|Hin'].
    + apply (Hall rc), Hin.
    + by apply Hmin.
Qed.

(** Claim C6 (amended): the rate resolver.  In flat mode [get_rate_at_date] returns
    the configured flat rate whatever the date.  In variable mode it
    returns the rate of a history entry with the latest effective date
    not after the target date, plus the spread; when the target date
    precedes every entry of a non-empty history, the rate of an entry
    with the earliest effective date plus the spread.  "Plus" is the
    Decimal addition [rate + spread] of the default context, outcome
    included: its result is returned exactly as [Decimal.add] gives it
    (an [Overflow] of the sum propagates).  The spread held by the
    calculator is the given one ([spread or Decimal('0')]). *)
Theorem get_rate_at_date_resolves (comp : InterestCompounding)
    (rh : option (list PrimeRateChange)) (sp fr : option dec)
    (c : InterestRateCalculator) (target : date) :
  new_InterestRateCalculator comp rh sp fr = Ok c ->
  match fr, rh with
  | Some f, _ => get_rate_at_date c target = Ok f
  | None, Some hist =>
      exists s,
        mode c = VariableMode (sort_by_key_desc effective_date hist) s /\
        (forall x, sp = Some x -> Decimal.eqb s x = true) /\
        (sp = None -> s = zero) /\
        ((exists rc, In rc hist /\ effective_date rc <= target) ->
         exists rc, In rc hist /\ effective_date rc <= target /\
           (forall rc', In rc' hist -> effective_date rc' <= target ->
                        effective_date rc' <= effective_date rc) /\
           get_rate_at_date c target = rate rc +d s) /\
        ((forall rc, In rc hist -> target < effective_date rc) -> hist <> [] ->
         exists rc, In rc hist /\
           (forall rc', In rc' hist -> effective_date rc <= effective_date rc') /\
           get_rate_at_date c target = rate rc +d s)
  | None, None => False
  end.
Proof.
  unfold new_InterestRateCalculator.
  destruct fr as [f|]; [intros [= <-]; reflexivity|].
  destruct rh as [hist|]; [|discriminate].
  intros [= <-]. simpl.
  set (s := match sp with
            | Some s => if Decimal.is_zero s then Decimal.of_Z 0 else s
            | None => Decimal.of_Z 0 end).
  set (h := sort_by_key_desc effective_date hist).
  assert (HS : StronglySorted by_date_desc h)
    by apply (sort_by_key_desc_strongly_sorted effective_date hist).
  assert (Hp : forall rc, In rc h <-> In rc hist).
  { intros rc. split; apply Permutation_in;
      [|symmetry]; apply sort_by_key_desc_perm. }
  exists s. split; [done|]. split.
  { intros x ->. subst s. destruct (Decimal.is_zero x) eqn:Z0.
    - by apply dec_eqb_zero.
    - apply dec_eqb_refl. }
  split; [by intros ->|]. split.
  - intros (rc0 & Hin0 & Hle0). unfold get_rate_at_date. simpl.
    destruct (first_applicable target h) as [rc|] eqn:Hf.
    + destruct (first_applicable_some target h rc HS Hf) as (Hin & Hle & Hmax).
      exists rc. split; [by apply Hp|]. split; [done|]. split; [|done].
      intros rc' Hin'. apply Hmax, Hp, Hin'.
    + exfalso. pose proof (first_applicable_none target h Hf rc0) as H.
      apply Hp in Hin0. specialize (H Hin0). lia.
  - intros Hlate Hne. unfold get_rate_at_date. simpl.
    destruct (first_applicable target h) as [rc|] eqn:Hf.
    + exfalso. destruct (first_applicable_some target h rc HS Hf) as (Hin & Hle & _).
      apply Hp, Hlate in Hin. lia.
    + destruct (last h) as [rc|] eqn:Hl.
      * destruct (last_oldest h rc HS Hl) as [Hin Hmin].
        exists rc. split; [by apply Hp|]. split; [|done].
        intros rc' Hin'. apply Hmin, Hp, Hin'.
      * exfalso. apply last_None in Hl.
        destruct hist as [|x hist']; [done|].
        pose proof (proj2 (Hp x) (or_introl eq_refl)) as Hx. by rewrite Hl in Hx.
Qed.


(** ** Rounding *)

Lemma ndigits_one : Decimal.ndigits 1 = 1.
Proof. reflexivity. Qed.

Lemma ndigits_zero : Decimal.ndigits 0 = 1.
Proof. reflexivity. Qed.

(** [_fix] only ever signals [Overflow]. *)
Lemma fix_err (d : dec) e : Decimal.fix_ d = Err e -> e = Overflow.
Proof.
  unfold Decimal.fix_.
  repeat match goal with
         | |- context [if ?b then _ else _] => destruct b
         end; congruence.
Qed.

(** [_fix] leaves a value unchanged when it is already in range: at most
    [prec] digits, exponent at least [Etiny], adjusted exponent at most
    [Emax]. *)
Lemma fix_in_range (d : dec) :
  Decimal.Etiny <= Decimal.exp d ->
  Decimal.ndigits (Decimal.coef d) <= Decimal.prec ->
  Decimal.adjusted d <= Decimal.Emax ->
  Decimal.fix_ d = Ok d.
Proof.
  destruct d as [c e]. unfold Decimal.fix_, Decimal.adjusted, Decimal.Etop. simpl.
  intros H1 H2 H3.
  destruct (Z.eqb_spec c 0) as [->|Hc].
  - rewrite ndigits_zero in H3. do 2 f_equal.
    unfold Decimal.Etiny, Decimal.Emax, Decimal.prec in *. lia.
  - destruct (Z.ltb_spec (Decimal.Emax - Decimal.prec + 1)
                (Decimal.ndigits c + e - Decimal.prec)); [lia|].
    destruct (Z.ltb_spec e (Z.max (Decimal.ndigits c + e - Decimal.prec) Decimal.Etiny));
      [lia|done].
Qed.

(** [0.1 ** n] is exactly [1E-n] as long as it neither overflows nor
    underflows. *)
Lemma pow_tenth_ok (n : Z) :
  -999999 <= n <= 1000026 -> Decimal.pow_tenth n = Ok (Decimal.Dec 1 (- n)).
Proof.
  intros Hn. unfold Decimal.pow_tenth. apply fix_in_range; simpl;
    rewrite ?ndigits_one; unfold Decimal.adjusted; simpl; rewrite ?ndigits_one;
    unfold Decimal.Etiny, Decimal.Emax, Decimal.prec; lia.
Qed.

(** [_round_amount] is [quantize] at exponent [-decimal_places], for the
    place counts where [0.1 ** decimal_places] is exact. *)
Lemma round_amount_eq (d : dec) (n : Z) :
  -999999 <= n <= 1000026 ->
  round_amount d n = Decimal.quantize d (Decimal.Dec 1 (- n)).
Proof.
  intros Hn. unfold round_amount.
  destruct (Z.eqb_spec n 0) as [->|]; [reflexivity|].
  by rewrite pow_tenth_ok.
Qed.

(** ... in the context's rounding mode, ROUND_HALF_EVEN. *)
Lemma round_amount_half_even (amount : dec) (decimal_places : Z) :
  -999999 <= decimal_places <= 1000026 ->
  round_amount amount decimal_places =
  Decimal.quantize_with amount (Decimal.Dec 1 (- decimal_places))
    Decimal.ROUND_HALF_EVEN.
Proof. intros Hn. by rewrite round_amount_eq. Qed.

(** [quantize] fails only with [InvalidOperation], or with [Overflow]
    from its final [_fix]. *)
Lemma quantize_err (d q : dec) mode e :
  Decimal.quantize_with d q mode = Err e -> e = InvalidOperation \/ e = Overflow.
Proof.
  unfold Decimal.quantize_with.
  repeat match goal with
         | |- context [if ?b then _ else _] => destruct b
         end; try (intros [= <-]; by left).
  all: intros H; right; exact (fix_err _ _ H).
Qed.

(** [_round_amount] fails only with [InvalidOperation] (from [quantize])
    or [Overflow] (from [0.1 ** n] when [n <= -1000000]). *)
Lemma round_amount_err (x : dec) (n : Z) e :
  round_amount x n = Err e -> e = InvalidOperation \/ e = Overflow.
Proof.
  unfold round_amount, Decimal.quantize.
  destruct (n =? 0); [apply quantize_err|].
  destruct (Decimal.pow_tenth n) as [q|e'] eqn:Hq; simpl; [apply quantize_err|].
  intros [= <-]. right. exact (fix_err _ _ Hq).
Qed.

(** Claim C1 (divergence): at the tie 0.125 rounded to 2 places the
    helper returns 0.12 (half-even), where round-half-up gives 0.13;
    likewise 2.5 to 0 places gives 2, not 3. *)
Theorem round_amount_tie_not_half_up :
  round_amount (Decimal.Dec 125 (-3)) 2 = Ok (Decimal.Dec 12 (-2)) /\
  (q ← Decimal.pow_tenth 2;
   Decimal.quantize_with (Decimal.Dec 125 (-3)) q Decimal.ROUND_HALF_UP)
    = Ok (Decimal.Dec 13 (-2)) /\
  round_amount (Decimal.Dec 25 (-1)) 0 = Ok (Decimal.Dec 2 0) /\
  Decimal.quantize_with (Decimal.Dec 25 (-1)) (Decimal.of_Z 1)
    Decimal.ROUND_HALF_UP = Ok (Decimal.Dec 3 0).
Proof. vm_compute. repeat split. Qed.

(** ** Scenario 1: simple interest at a flat 9.25% *)

(** Claim C3 (amended): from 2022-04-20 to 2025-10-31 the inclusive day
    count is 1291, and the interest on 1,000,000 at 9.25% is
    1,000,000 x 0.0925 x 1291/365 evaluated in 28-digit Decimal
    arithmetic, 327171.2328767123287671232877, which rounds to
    327,171.23 at two places (not 327,210.27). *)
Theorem scenario1_simple_interest (dpow : dec -> dec -> result dec) :
  ymd 2025 10 31 - ymd 2022 4 20 + 1 = 1291 /\
  calculate_interest dpow scenario1_calculator (Decimal.of_Z 1000000)
    (ymd 2022 4 20) (ymd 2025 10 31) =
    Ok (Decimal.Dec 3271712328767123287671232877 (-22), Decimal.Dec 925 (-2)) /\
  round_amount (Decimal.Dec 3271712328767123287671232877 (-22)) 2 =
    Ok (Decimal.Dec 32717123 (-2)).
Proof. vm_compute. repeat split. Qed.

(** Claim C3 as stated fails: neither the interest returned nor its
    rounding to cents equals 327,210.27. *)
Lemma scenario1_not_327210_27 :
  calculate_interest pow_unused scenario1_calculator (Decimal.of_Z 1000000)
    (ymd 2022 4 20) (ymd 2025 10 31) =
    Ok (Decimal.Dec 3271712328767123287671232877 (-22), Decimal.Dec 925 (-2)) /\
  Decimal.eqb (Decimal.Dec 3271712328767123287671232877 (-22))
    (Decimal.Dec 32721027 (-2)) = false /\
  round_amount (Decimal.Dec 3271712328767123287671232877 (-22)) 2
    <> Ok (Decimal.Dec 32721027 (-2)).
Proof. vm_compute. split; [reflexivity|]. split; [reflexivity|discriminate]. Qed.

Lemma get_rate_at_date_resolves_witness :
  exists c,
    new_InterestRateCalculator SIMPLE (Some example_history)
      (Some (Decimal.of_Z 2)) None = Ok c /\
    exists s,
      mode c = VariableMode (sort_by_key_desc effective_date example_history) s /\
      (forall x, Some (Decimal.of_Z 2) = Some x -> Decimal.eqb s x = true) /\
      (Some (Decimal.of_Z 2) = None -> s = zero) /\
      ((exists rc, In rc example_history /\ effective_date rc <= ymd 2022 4 1) ->
       exists rc, In rc example_history /\ effective_date rc <= ymd 2022 4 1 /\
         (forall rc', In rc' example_history -> effective_date rc' <= ymd 2022 4 1 ->
                      effective_date rc' <= effective_date rc) /\
         get_rate_at_date c (ymd 2022 4 1) = rate rc +d s) /\
      ((forall rc, In rc example_history -> ymd 2022 4 1 < effective_date rc) ->
       example_history <> [] ->
       exists rc, In rc example_history /\
         (forall rc', In rc' example_history -> effective_date rc <= effective_date rc') /\
         get_rate_at_date c (ymd 2022 4 1) = rate rc +d s).
Proof.
  eexists. split; [reflexivity|].
  exact (get_rate_at_date_resolves SIMPLE (Some example_history)
           (Some (Decimal.of_Z 2)) None _ (ymd 2022 4 1) eq_refl).
Defined.

(** Claim C6 as stated fails: the resolver does not always return the
    rate plus the spread.  With a history entry of rate [9E+999999] and a
    spread of [9E+999999], [rate + spread] exceeds [Emax] and
    [get_rate_at_date] raises [Overflow] instead. *)
Lemma rate_plus_spread_overflows :
  exists c,
    new_InterestRateCalculator SIMPLE
      (Some [mkPrimeRateChange (ymd 2022 1 1) (Decimal.Dec 9 999999)])
      (Some (Decimal.Dec 9 999999)) None = Ok c /\
    mode c = VariableMode [mkPrimeRateChange (ymd 2022 1 1) (Decimal.Dec 9 999999)]
               (Decimal.Dec 9 999999) /\
    get_rate_at_date c (ymd 2022 6 1) = Err Overflow.
Proof.
  eexists. split; [reflexivity|]. split; vm_compute; reflexivity.
Qed.

(** ** The late-interest calculator *)

Section LateInterest.
Variable dpow : dec -> dec -> result dec.

Lemma calculate_late_interest_for_call_shape lc new_lp call d :
  calculate_late_interest_for_call dpow lc new_lp call = Ok d ->
  d_call_number d = call_number call /\ d_due_date d = due_date call /\
  d_call_percentage d = call_percentage call /\ 0 <= days_late d.
Proof.
  unfold calculate_late_interest_for_call.
  destruct (get_call_amount call (commitment new_lp)) as [ca|]; simpl; [|discriminate].
  destruct (_ - due_date call <=? 0) eqn:E.
  - intros [= <-]. simpl. repeat split; lia.
  - apply Z.leb_gt in E.
    destruct (calculate_interest _ _ _ _ _) as [[li er]|]; simpl; [|discriminate].
    destruct (round_amount li _); simpl; [|discriminate].
    destruct (round_amount er _); simpl; [|discriminate].
    destruct (round_amount ca _); simpl; [|discriminate].
    intros [= <-]. simpl. repeat split; lia.
Qed.

Lemma new_lp_fold_details lc new_lp calls b0 tc0 tl0 b tc tl :
  fold_res (new_lp_step dpow lc new_lp) (b0, tc0, tl0) calls = Ok (b, tc, tl) ->
  exists ds, b = b0 ++ ds /\
    Forall2 (fun call d => calculate_late_interest_for_call dpow lc new_lp call = Ok d)
      calls ds.
Proof.
  revert b0 tc0 tl0.
  induction calls as [|call calls IH]; simpl; intros b0 tc0 tl0.
  - intros [= -> -> ->]. exists []. split; [by rewrite app_nil_r|constructor].
  - destruct (calculate_late_interest_for_call dpow lc new_lp call) as [d|] eqn:Hd;
      simpl; [|discriminate].
    destruct (tc0 +d capital_amount d) as [tc'|]; simpl; [|discriminate].
    destruct (tl0 +d late_interest d) as [tl'|]; simpl; [|discriminate].
    intros H. destruct (IH _ _ _ H) as (ds & -> & Hall).
    exists (d :: ds). split; [by rewrite <- app_assoc|]. by constructor.
Qed.

End LateInterest.

Lemma missed_calls_spec new_lp calls call :
  In call (missed_calls new_lp calls) <->
  In call calls /\ due_date call < issue_date new_lp.
Proof.
  unfold missed_calls. split.
  - intros H. apply (Permutation_in _ (sort_by_key_perm _ _)) in H.
    apply filter_In in H as [Hin Hlt]. split; [done|]. by apply Z.ltb_lt.
  - intros [Hin Hlt]. apply (Permutation_in _ (symmetry (sort_by_key_perm _ _))).
    apply filter_In. split; [done|]. by apply Z.ltb_lt.
Qed.

Lemma missed_calls_drop new_lp l1 call l2 :
  issue_date new_lp <= due_date call ->
  missed_calls new_lp (l1 ++ call :: l2) = missed_calls new_lp (l1 ++ l2).
Proof.
  intros Hle. unfold missed_calls. rewrite !List.filter_app. simpl.
  replace (date_lt (due_date call) (issue_date new_lp)) with false
    by (symmetry; apply Z.ltb_ge; lia).
  done.
Qed.

Lemma new_lp_calc_same_missed dpow lc new_lp l l' :
  missed_calls new_lp l = missed_calls new_lp l' ->
  calculate_late_interest_for_new_lp dpow lc new_lp l =
  calculate_late_interest_for_new_lp dpow lc new_lp l'.
Proof. intros H. unfold calculate_late_interest_for_new_lp. by rewrite H. Qed.

(** Claim C8 (amended): the breakdown of a new LP has one detail per
    missed call, the calls with [due_date < issue_date], in ascending
    [call_number] order; every detail has a due date strictly before the
    issue date and a non-negative [days_late].  A call whose due date is
    on or after the issue date (in particular on the issue date) produces
    no detail and adds nothing to either total: removing it from the
    capital calls gives the very same calculation, [total_catch_up] and
    [total_late_interest_due] included. *)
Theorem late_interest_missed_calls (dpow : dec -> dec -> result dec)
    (lc : LateInterestCalculator) (new_lp : Partner)
    (capital_calls : list CapitalCall) (calc : NewLPCalculation) :
  calculate_late_interest_for_new_lp dpow lc new_lp capital_calls = Ok calc ->
  map d_call_number (breakdown_by_capital_call calc) =
    map call_number (missed_calls new_lp capital_calls) /\
  map d_due_date (breakdown_by_capital_call calc) =
    map due_date (missed_calls new_lp capital_calls) /\
  (forall call, In call (missed_calls new_lp capital_calls) <->
                In call capital_calls /\ due_date call < issue_date new_lp) /\
  StronglySorted Z.le (map d_call_number (breakdown_by_capital_call calc)) /\
  (forall d, In d (breakdown_by_capital_call calc) ->
             d_due_date d < issue_date new_lp /\ 0 <= days_late d) /\
  (forall l1 call l2, capital_calls = l1 ++ call :: l2 ->
     issue_date new_lp <= due_date call ->
     calculate_late_interest_for_new_lp dpow lc new_lp (l1 ++ l2) = Ok calc).
Proof.
  intros Hcalc.
  assert (Hdrop : forall l1 call l2, capital_calls = l1 ++ call :: l2 ->
            issue_date new_lp <= due_date call ->
            calculate_late_interest_for_new_lp dpow lc new_lp (l1 ++ l2) = Ok calc).
  { intros l1 call l2 -> Hle. rewrite <- Hcalc. apply new_lp_calc_same_missed.
    symmetry. by apply missed_calls_drop. }
  revert Hcalc.
  unfold calculate_late_interest_for_new_lp.
  destruct (fold_res _ _ _) as [[[b tc] tl]|] eqn:Hf; simpl; [|discriminate].
  destruct (round_amount tc _); simpl; [|discriminate].
  destruct (round_amount tl _); simpl; [|discriminate].
  intros [= <-]. simpl.
  destruct (new_lp_fold_details dpow _ _ _ _ _ _ _ _ _ Hf) as (ds & -> & Hall).
  simpl.
  assert (Hnum : map d_call_number ds = map call_number (missed_calls new_lp capital_calls)
              /\ map d_due_date ds = map due_date (missed_calls new_lp capital_calls)).
  { clear Hf Hdrop. induction Hall as [|call d calls ds Hd Hall IH]; [done|].
    destruct (calculate_late_interest_for_call_shape _ _ _ _ _ Hd) as (H1 & H2 & _).
    simpl. rewrite H1, H2. destruct IH as [-> ->]. done. }
  destruct Hnum as [Hnum Hdue].
  split; [done|]. split; [done|]. split; [apply missed_calls_spec|]. split.
  - rewrite Hnum.
    pose proof (sort_by_key_strongly_sorted call_number
                  (List.filter (fun call => date_lt (due_date call) (issue_date new_lp))
                     capital_calls)) as HS.
    unfold missed_calls. revert HS.
    generalize (sort_by_key call_number
                  (List.filter (fun call => date_lt (due_date call) (issue_date new_lp))
                     capital_calls)).
    intros l HS. induction HS as [|x l HS IH Hf']; simpl; constructor; [done|].
    apply List.Forall_map. exact Hf'.
  - split; [|exact Hdrop]. intros d Hin.
    assert (Hx : exists call, In call (missed_calls new_lp capital_calls) /\
                   calculate_late_interest_for_call dpow lc new_lp call = Ok d).
    { clear Hf Hnum Hdue Hdrop. induction Hall as [|call d' calls ds Hd Hall IH]; [done|].
      destruct Hin as [<-|Hin].
      - exists call. split; [by left|done].
      - destruct (IH Hin) as (c & Hc & Hcd). exists c. split; [by right|done]. }
    destruct Hx as (call & Hc & Hcd).
    destruct (calculate_late_interest_for_call_shape _ _ _ _ _ Hcd) as (_ & H2 & _ & H4).
    apply missed_calls_spec in Hc as [_ Hlt]. split; [by rewrite H2|done].
Qed.

Lemma late_interest_missed_calls_witness :
  exists calc,
    calculate_late_interest_for_new_lp pow_unused example_calculator
      lp_on_due_date example_calls = Ok calc /\
    map d_call_number (breakdown_by_capital_call calc) =
      map call_number (missed_calls lp_on_due_date example_calls) /\
    map d_due_date (breakdown_by_capital_call calc) =
      map due_date (missed_calls lp_on_due_date example_calls) /\
    (forall call, In call (missed_calls lp_on_due_date example_calls) <->
                  In call example_calls /\ due_date call < issue_date lp_on_due_date) /\
    StronglySorted Z.le (map d_call_number (breakdown_by_capital_call calc)) /\
    (forall d, In d (breakdown_by_capital_call calc) ->
               d_due_date d < issue_date lp_on_due_date /\ 0 <= days_late d) /\
    (forall l1 call l2, example_calls = l1 ++ call :: l2 ->
       issue_date lp_on_due_date <= due_date call ->
       calculate_late_interest_for_new_lp pow_unused example_calculator lp_on_due_date
         (l1 ++ l2) = Ok calc).
Proof.
  destruct (calculate_late_interest_for_new_lp pow_unused example_calculator
              lp_on_due_date example_calls) as [calc|e] eqn:H.
  - exists calc. split; [reflexivity|].
    exact (late_interest_missed_calls pow_unused example_calculator lp_on_due_date
             example_calls calc H).
  - vm_compute in H. discriminate.
Defined.

(** Claim C8 as stated fails: call 3 is due on the LP's issue date, and
    the calculation has no detail for it at all (no [days_late = 0]
    entry); its 10% is not in the catch-up either. *)
Lemma call_due_on_issue_date_no_detail :
  exists calc,
    calculate_late_interest_for_new_lp pow_unused example_calculator
      lp_on_due_date example_calls = Ok calc /\
    ~ (exists d, In d (breakdown_by_capital_call calc) /\ d_call_number d = 3) /\
    total_catch_up calc = Decimal.Dec 50000000 (-2).
Proof.
  destruct (calculate_late_interest_for_new_lp pow_unused example_calculator
              lp_on_due_date example_calls) as [calc|e] eqn:H;
    vm_compute in H; [|discriminate].
  injection H as <-. eexists. split; [reflexivity|].
  split; [|reflexivity].
  intros (d & Hin & Hn). destruct Hin as [<-|[<-|[]]]; discriminate.
Qed.

(** ** Zero principal *)

(** Claim C9: a 0% call missed by an LP admitted 167 days after its due
    date has a zero capital amount.  In a PRIME fund in simple mode the
    accrual divides the zero total interest by the zero principal for
    the weighted rate, and the calculation raises [InvalidOperation]
    (an [ArithmeticError]); it does so for the whole LP as well.  With a
    flat rate the same input gives a detail with zero interest. *)
Theorem zero_principal_prime_simple_fails (dpow : dec -> dec -> result dec) :
  get_call_amount zero_call (commitment lp_on_due_date) = Ok (Decimal.Dec 0 0) /\
  issue_date lp_on_due_date - due_date zero_call = 167 /\
  (exists lc,
     new_LateInterestCalculator prime_assumptions = Ok lc /\
     calculate_interest dpow (rate_calculator lc) (Decimal.Dec 0 0)
       (due_date zero_call) (issue_date lp_on_due_date) = Err InvalidOperation /\
     calculate_late_interest_for_call dpow lc lp_on_due_date zero_call
       = Err InvalidOperation /\
     calculate_late_interest_for_new_lp dpow lc lp_on_due_date
       (zero_call :: example_calls) = Err InvalidOperation) /\
  new_LateInterestCalculator example_assumptions = Ok example_calculator /\
  exists d,
    calculate_late_interest_for_call dpow example_calculator lp_on_due_date zero_call
      = Ok d /\ Decimal.is_zero (late_interest d) = true /\ days_late d = 167.
Proof.
  split; [reflexivity|]. split; [reflexivity|]. split.
  - eexists. split; [reflexivity|]. vm_compute. repeat split.
  - split; [reflexivity|]. eexists. vm_compute. repeat split.
Qed.

(** ** Contract A: [calculate_allocations] *)

Lemma add_err (a b : dec) e : a +d b = Err e -> e = Overflow.
Proof. unfold Decimal.add. destruct (Decimal.align a b). apply fix_err. Qed.

Lemma mul_err (a b : dec) e : a *d b = Err e -> e = Overflow.
Proof. apply fix_err. Qed.

Lemma sub_err (a b : dec) e : Decimal.sub a b = Err e -> e = Overflow.
Proof. apply add_err. Qed.

(** A division by a nonzero divisor can only overflow. *)
Lemma div_err (a b : dec) e :
  Decimal.coef b <> 0 -> Decimal.div a b = Err e -> e = Overflow.
Proof.
  intros Hb. unfold Decimal.div.
  destruct (Z.eqb_spec (Decimal.coef b) 0); [done|].
  destruct (Decimal.coef a =? 0); [apply fix_err|].
  destruct (if 0 <=? _ then _ else _) as [q r].
  destruct (r =? 0); apply fix_err.
Qed.

Lemma fold_add_err (acc : dec) xs e :
  fold_res Decimal.add acc xs = Err e -> e = Overflow.
Proof.
  revert acc. induction xs as [|x xs IH]; cbn [fold_res]; intros acc; [discriminate|].
  destruct (acc +d x) as [a|e'] eqn:Ha; cbn [mbind result_bind]; [apply IH|].
  intros [= <-]. exact (add_err _ _ _ Ha).
Qed.

Lemma sum_err xs e : Decimal.sum xs = Err e -> e = Overflow.
Proof. apply fold_add_err. Qed.

Lemma eqb_zero_false (x : dec) : Decimal.eqb x zero = false -> Decimal.coef x <> 0.
Proof.
  destruct x as [c e]. unfold Decimal.eqb, Decimal.align, zero, Decimal.of_Z; simpl.
  intros H ->. by rewrite !Z.mul_0_l in H.
Qed.

Lemma allocation_fold_err calc_r k total_li total_ec st ps e :
  Decimal.coef total_ec <> 0 ->
  fold_res (allocation_step calc_r k total_li total_ec) st ps = Err e ->
  e = Overflow \/ exists x, round_amount x calc_r = Err e.
Proof.
  intros Hec. revert st.
  induction ps as [|p ps IH]; cbn [fold_res]; intros [al ta]; [discriminate|].
  unfold allocation_step.
  destruct (Decimal.div (commitment p) total_ec) as [q|e'] eqn:Hq;
    cbn [mbind result_bind].
  2:{ intros [= <-]. left. exact (div_err _ _ _ Hec Hq). }
  destruct (total_li *d q) as [m|e'] eqn:Hm; cbn [mbind result_bind].
  2:{ intros [= <-]. left. exact (mul_err _ _ _ Hm). }
  destruct (round_amount m calc_r) as [amt|e'] eqn:Hr; cbn [mbind result_bind].
  2:{ intros [= <-]. right. eauto. }
  destruct (ta +d amt) as [ta'|e'] eqn:Ha; cbn [mbind result_bind].
  2:{ intros [= <-]. left. exact (add_err _ _ _ Ha). }
  apply IH.
Qed.

(** Claim C7 (amended): [calculate_allocations] returns no allocations
    and a zero total when no partner has [close_number <
    admitting_close], or when the late interest collected at that close
    sums to zero; it raises [ValueError] (the configuration error) when
    there are existing partners and interest to allocate but their
    commitments sum to zero.  Its only other failures are the trapped
    signals of the decimal context: [InvalidOperation], raised only by
    [quantize] when a line item or the total is rounded (more digits
    than the 28-digit context allows), and [Overflow], raised when a
    sum, product, quotient or [0.1 ** n] exceeds the exponent limit
    [Emax] (e.g. a negative [calc_rounding] of -1000000). *)
Theorem calculate_allocations_outcomes (a : FundAssumptions)
    (new_lps : list NewLPCalculation) (all_partners : list Partner) (k : Z) :
  (existing_partners all_partners k = [] ->
   calculate_allocations a new_lps all_partners k = Ok ([], zero)) /\
  (existing_partners all_partners k <> [] ->
   forall t, total_late_interest_at new_lps k = Ok t ->
   Decimal.eqb t zero = true ->
   calculate_allocations a new_lps all_partners k = Ok ([], zero)) /\
  (existing_partners all_partners k <> [] ->
   forall t s, total_late_interest_at new_lps k = Ok t ->
   Decimal.eqb t zero = false ->
   Decimal.sum (map commitment (existing_partners all_partners k)) = Ok s ->
   Decimal.eqb s zero = true ->
   calculate_allocations a new_lps all_partners k =
     Err (ValueError "Total existing commitment cannot be zero")) /\
  (forall e, calculate_allocations a new_lps all_partners k = Err e ->
   (e = ValueError "Total existing commitment cannot be zero" /\
    exists s, Decimal.sum (map commitment (existing_partners all_partners k)) = Ok s /\
              Decimal.eqb s zero = true) \/
   (e = InvalidOperation /\
    exists x n, (n = calc_rounding a \/ n = sum_rounding a) /\ round_amount x n = Err e) \/
   e = Overflow).
Proof.
  unfold calculate_allocations.
  destruct (existing_partners all_partners k) as [|p ps] eqn:Hex.
  { split; [done|]. split; [done|]. split; [done|]. discriminate. }
  split; [done|].
  split.
  { intros _ t Ht Hz. rewrite Ht. cbn [mbind result_bind]. by rewrite Hz. }
  split.
  { intros _ t s Ht Hz Hs Hsz. rewrite Ht. cbn [mbind result_bind]. rewrite Hz, Hs.
    cbn [mbind result_bind]. by rewrite Hsz. }
  intros e.
  destruct (total_late_interest_at new_lps k) as [t|e'] eqn:Ht; cbn [mbind result_bind].
  2:{ intros [= <-]. right; right. exact (sum_err _ _ Ht). }
  destruct (Decimal.eqb t zero) eqn:Hli; [discriminate|].
  destruct (Decimal.sum (map commitment (p :: ps))) as [s|e'] eqn:Hs;
    cbn [mbind result_bind].
  2:{ intros [= <-]. right; right. exact (sum_err _ _ Hs). }
  destruct (Decimal.eqb s zero) eqn:Hec.
  { intros [= <-]. left. split; [done|]. eauto. }
  intros H. right. apply eqb_zero_false in Hec. revert H.
  destruct (fold_res _ _ (p :: ps)) as [[al ta]|e'] eqn:Hf; cbn [mbind result_bind].
  - destruct (round_amount ta (sum_rounding a)) as [t'|e'] eqn:Hr;
      cbn [mbind result_bind]; [discriminate|].
    intros [= <-]. destruct (round_amount_err _ _ _ Hr) as [He|He]; [left|by right].
    split; [done|]. exists ta, (sum_rounding a). split; [by right|done].
  - intros [= <-].
    destruct (allocation_fold_err _ _ _ _ _ _ _ Hec Hf) as [He|[x Hx]]; [by right|].
    destruct (round_amount_err _ _ _ Hx) as [He|He]; [left|by right].
    split; [done|]. exists x, (calc_rounding a). split; [by left|done].
Qed.

(** Claim C7 as stated fails: with 28 decimal places per line item, an
    allocation of D's 19,931.51 to A (existing, commitments non-zero)
    raises [InvalidOperation] in [quantize]. *)
Lemma allocation_rounding_raises :
  existing_partners example_partners 2 <> [] /\
  (exists t, total_late_interest_at [example_new_lp_calc] 2 = Ok t /\
             Decimal.eqb t zero = false) /\
  (exists s, Decimal.sum (map commitment (existing_partners example_partners 2)) = Ok s /\
             Decimal.eqb s zero = false) /\
  calculate_allocations fine_assumptions [example_new_lp_calc] example_partners 2
    = Err InvalidOperation.
Proof.
  split; [vm_compute; discriminate|].
  split; [eexists; split; [vm_compute; reflexivity|reflexivity]|].
  split; [eexists; split; [vm_compute; reflexivity|reflexivity]|].
  vm_compute. reflexivity.
Qed.

Lemma calculate_allocations_outcomes_witness :
  existing_partners example_partners 2 <> [] /\
  total_late_interest_at [] 2 = Ok zero /\
  Decimal.eqb zero zero = true /\
  calculate_allocations example_assumptions [] example_partners 2 = Ok ([], zero).
Proof.
  assert (Hne : existing_partners example_partners 2 <> []) by (vm_compute; discriminate).
  assert (Ht : total_late_interest_at [] 2 = Ok zero) by reflexivity.
  assert (Hz : Decimal.eqb zero zero = true) by reflexivity.
  split; [exact Hne|]. split; [exact Ht|]. split; [exact Hz|].
  exact (proj1 (proj2 (calculate_allocations_outcomes example_assumptions [] example_partners 2))
           Hne zero Ht Hz).
Defined.

(** ** Contract B: [calculate_allocations_with_increases] *)

Lemma existing_partners_map (f : Partner -> Partner) ps k :
  (forall p, close_number (f p) = close_number p) ->
  existing_partners (map f ps) k = map f (existing_partners ps k).
Proof.
  intros Hf. unfold existing_partners.
  induction ps as [|p ps IH]; simpl; [done|].
  rewrite Hf. destruct (close_number p <? k); simpl; by rewrite IH.
Qed.

Lemma allocation_fold_rebase calc_r m k total_li total_ec pre alsA t0 ex :
  length pre = length alsA ->
  fold_res (allocation_step_with_increases calc_r m k total_li total_ec)
    (zip_with with_current_commitment pre alsA, t0) ex =
  match fold_res (allocation_step calc_r k total_li total_ec) (alsA, t0)
          (map (rebase_partner m) ex) with
  | Ok (als, t) => Ok (zip_with with_current_commitment (pre ++ ex) als, t)
  | Err e => Err e
  end.
Proof.
  revert pre alsA t0.
  induction ex as [|p ex IH]; intros pre alsA t0 Hlen; simpl.
  - by rewrite app_nil_r.
  - unfold allocation_step_with_increases, allocation_step. simpl.
    destruct (Decimal.div (get_allocation_commitment m p) total_ec) as [pct|e];
      simpl; [|done].
    destruct (total_li *d pct) as [mp|e]; simpl; [|done].
    destruct (round_amount mp calc_r) as [amt|e]; simpl; [|done].
    destruct (t0 +d amt) as [t1|e]; simpl; [|done].
    set (recA := mkExistingLPAllocation (name p) (get_allocation_commitment m p)
                   (close_number p) amt [(k, amt)]).
    assert (Hz : zip_with with_current_commitment pre alsA ++
                   [mkExistingLPAllocation (name p) (commitment p) (close_number p)
                      amt [(k, amt)]]
                 = zip_with with_current_commitment (pre ++ [p]) (alsA ++ [recA])).
    { rewrite zip_with_app by done. done. }
    rewrite Hz, IH by (rewrite !length_app; simpl; lia).
    by rewrite <- app_assoc.
Qed.

Lemma map_commitment_rebase m (l : list Partner) :
  map commitment (map (rebase_partner m) l) = map (get_allocation_commitment m) l.
Proof. induction l as [|p l IH]; simpl; [done|]. by rewrite IH. Qed.

Lemma allocation_fold_rebase_nil calc_r m k total_li total_ec t0 ex :
  fold_res (allocation_step_with_increases calc_r m k total_li total_ec) ([], t0) ex =
  match fold_res (allocation_step calc_r k total_li total_ec) ([], t0)
          (map (rebase_partner m) ex) with
  | Ok (als, t) => Ok (zip_with with_current_commitment ex als, t)
  | Err e => Err e
  end.
Proof. exact (allocation_fold_rebase calc_r m k total_li total_ec [] [] t0 ex eq_refl). Qed.

Lemma allocation_fold_with_increases_content calc_r m k total_li total_ec acc0 t0 ex als t :
  fold_res (allocation_step_with_increases calc_r m k total_li total_ec) (acc0, t0) ex
    = Ok (als, t) ->
  exists ds, als = acc0 ++ ds /\
    Forall2 (fun p al =>
               a_partner_name al = name p /\ a_commitment al = commitment p /\
               exists pct mp, Decimal.div (get_allocation_commitment m p) total_ec = Ok pct /\
                 total_li *d pct = Ok mp /\
                 round_amount mp calc_r = Ok (total_allocation al))
      ex ds.
Proof.
  revert acc0 t0.
  induction ex as [|p ex IH]; intros acc0 t0; simpl.
  - intros [= <- _]. exists []. split; [by rewrite app_nil_r|constructor].
  - unfold allocation_step_with_increases at 1. simpl.
    destruct (Decimal.div (get_allocation_commitment m p) total_ec) as [pct|e] eqn:Hd;
      simpl; [|discriminate].
    destruct (total_li *d pct) as [mp|e] eqn:Hm; simpl; [|discriminate].
    destruct (round_amount mp calc_r) as [amt|e] eqn:Hr; simpl; [|discriminate].
    destruct (t0 +d amt) as [t1|e]; simpl; [|discriminate].
    intros H. destruct (IH _ _ H) as (ds & -> & Hall).
    eexists. split; [by rewrite <- app_assoc|].
    constructor; [|exact Hall]. simpl. split; [done|]. split; [done|]. eauto.
Qed.

(** Claim C5: Contract B is Contract A run on the partners with each
    commitment replaced by its allocation basis (the original commitment
    from [commitment_increases] for a partner named there, the current
    one otherwise), both in the denominator and in each numerator, with
    every allocation record then reporting the partner's current
    commitment.  Spelled out: each record of a successful run has the
    partner's name and current commitment, and its amount is the late
    interest times basis / (sum of the bases), rounded to calc_rounding. *)
Theorem allocations_with_increases_basis (a : FundAssumptions)
    (new_lps : list NewLPCalculation) (all_partners : list Partner)
    (commitment_increases : gmap string dec) (k : Z) :
  calculate_allocations_with_increases a new_lps all_partners commitment_increases k =
    match calculate_allocations a new_lps
            (map (rebase_partner commitment_increases) all_partners) k with
    | Ok (als, t) =>
        Ok (zip_with with_current_commitment (existing_partners all_partners k) als, t)
    | Err e => Err e
    end /\
  (forall als t,
     calculate_allocations_with_increases a new_lps all_partners commitment_increases k
       = Ok (als, t) ->
     als = [] \/
     exists tli tec,
       total_late_interest_at new_lps k = Ok tli /\
       Decimal.sum (map (get_allocation_commitment commitment_increases)
                      (existing_partners all_partners k)) = Ok tec /\
       Forall2 (fun p al =>
                  a_partner_name al = name p /\ a_commitment al = commitment p /\
                  exists pct mp,
                    Decimal.div (get_allocation_commitment commitment_increases p) tec
                      = Ok pct /\
                    tli *d pct = Ok mp /\
                    round_amount mp (calc_rounding a) = Ok (total_allocation al))
         (existing_partners all_partners k) als).
Proof.
  split.
  - unfold calculate_allocations_with_increases, calculate_allocations.
    rewrite existing_partners_map by done.
    set (ex := existing_partners all_partners k).
    pose proof (map_commitment_rebase commitment_increases ex) as Hc.
    destruct ex as [|p ps]; [done|].
    change (map (rebase_partner commitment_increases) (p :: ps)) with
      (rebase_partner commitment_increases p :: map (rebase_partner commitment_increases) ps).
    cbv beta iota zeta.
    destruct (total_late_interest_at new_lps k) as [tli|e]; cbn [mbind result_bind]; [|done].
    destruct (Decimal.eqb tli zero); [done|].
    change (rebase_partner commitment_increases p :: map (rebase_partner commitment_increases) ps)
      with (map (rebase_partner commitment_increases) (p :: ps)).
    rewrite Hc.
    destruct (Decimal.sum _) as [tec|e]; cbn [mbind result_bind]; [|done].
    destruct (Decimal.eqb tec zero); [done|].
    rewrite allocation_fold_rebase_nil.
    destruct (fold_res _ _ _) as [[als t]|e]; cbn [mbind result_bind]; [|done].
    by destruct (round_amount t _).
  - intros als t. unfold calculate_allocations_with_increases.
    destruct (existing_partners all_partners k) as [|p ps]; [intros [= <- _]; by left|].
    destruct (total_late_interest_at new_lps k) as [tli|e] eqn:Htli;
      cbn [mbind result_bind]; [|discriminate].
    destruct (Decimal.eqb tli zero); [intros [= <- _]; by left|].
    destruct (Decimal.sum _) as [tec|e] eqn:Htec; cbn [mbind result_bind]; [|discriminate].
    destruct (Decimal.eqb tec zero); [discriminate|].
    destruct (fold_res _ _ _) as [[als' t']|e] eqn:Hf; cbn [mbind result_bind]; [|discriminate].
    destruct (round_amount t' _); cbn [mbind result_bind]; [|discriminate].
    intros [= -> _]. right. exists tli, tec. split; [done|]. split; [done|].
    destruct (allocation_fold_with_increases_content _ _ _ _ _ _ _ _ _ _ Hf)
      as (ds & -> & Hall).
    exact Hall.
Qed.

Lemma allocations_with_increases_basis_witness :
  exists als t,
    calculate_allocations_with_increases example_assumptions [example_new_lp_calc]
      increase_partners example_increases 2 = Ok (als, t) /\
    (als = [] \/
     exists tli tec,
       total_late_interest_at [example_new_lp_calc] 2 = Ok tli /\
       Decimal.sum (map (get_allocation_commitment example_increases)
                      (existing_partners increase_partners 2)) = Ok tec /\
       Forall2 (fun p al =>
                  a_partner_name al = name p /\ a_commitment al = commitment p /\
                  exists pct mp,
                    Decimal.div (get_allocation_commitment example_increases p) tec
                      = Ok pct /\
                    tli *d pct = Ok mp /\
                    round_amount mp (calc_rounding example_assumptions)
                      = Ok (total_allocation al))
         (existing_partners increase_partners 2) als).
Proof.
  destruct (calculate_allocations_with_increases example_assumptions [example_new_lp_calc]
              increase_partners example_increases 2) as [[als t]|e] eqn:H.
  - exists als, t. split; [reflexivity|].
    exact (proj2 (allocations_with_increases_basis example_assumptions
                    [example_new_lp_calc] increase_partners example_increases 2) als t H).
  - vm_compute in H. discriminate.
Defined.

(** ** The engine: what [run_complete_calculation] does to its inputs *)

(** Claim C10: the run sorts the caller's [partners] list in place by
    [close_number] (stably): afterwards the list holds the same Partner
    records, possibly in another order (as for [unsorted_partners]), and
    the [capital_calls] list is unchanged.  This holds whether or not
    the run raises later. *)
Theorem run_sorts_partners_in_place (dpow : dec -> dec -> result dec)
    (eng : LateInterestEngine) (commitment_increases : option (gmap string dec))
    (today : date) (s : Store) :
  st_partners (snd (run_complete_calculation dpow eng commitment_increases today s))
    = sort_by_key close_number (st_partners s) /\
  st_partners (snd (run_complete_calculation dpow eng commitment_increases today s))
    ≡ₚ st_partners s /\
  StronglySorted (fun p q => close_number p <= close_number q)
    (st_partners (snd (run_complete_calculation dpow eng commitment_increases today s))) /\
  st_capital_calls (snd (run_complete_calculation dpow eng commitment_increases today s))
    = st_capital_calls s /\
  st_partners (snd (run_complete_calculation dpow eng commitment_increases today
                      (mkStore unsorted_partners [])))
    <> unsorted_partners.
Proof.
  unfold run_complete_calculation; simpl.
  split; [done|]. split; [apply sort_by_key_perm|].
  split; [apply sort_by_key_strongly_sorted|].
  split; [done|].
  vm_compute. discriminate.
Qed.

(** *** Grouping partners by close *)

Lemma assoc_get_set k k' (v : list Partner) (d : list (Z * list Partner)) :
  assoc_get Z.eqb k' (assoc_set Z.eqb k v d) =
  if k =? k' then Some v else assoc_get Z.eqb k' d.
Proof.
  induction d as [|[k1 v1] d IH]; simpl; [done|].
  destruct (Z.eqb_spec k1 k) as [->|Hne]; simpl.
  - destruct (k =? k'); done.
  - rewrite IH. destruct (Z.eqb_spec k k') as [<-|]; [|done].
    apply Z.eqb_neq in Hne. by rewrite Hne.
Qed.

Lemma assoc_set_keys k (v : list Partner) (d : list (Z * list Partner)) :
  In k (map fst d) -> map fst (assoc_set Z.eqb k v d) = map fst d.
Proof.
  induction d as [|[k1 v1] d IH]; simpl; [done|].
  intros Hin. destruct (Z.eqb_spec k1 k) as [->|Hne]; simpl; [done|].
  rewrite IH; [done|]. destruct Hin; [congruence|done].
Qed.

Lemma assoc_get_some_key k (v : list Partner) (d : list (Z * list Partner)) :
  assoc_get Z.eqb k d = Some v -> In k (map fst d).
Proof.
  induction d as [|[k1 v1] d IH]; simpl; [done|].
  destruct (Z.eqb_spec k1 k) as [->|]; [by left|]. intros H; right; auto.
Qed.

Lemma assoc_get_none_key k (d : list (Z * list Partner)) :
  assoc_get Z.eqb k d = None -> ~ In k (map fst d).
Proof.
  induction d as [|[k1 v1] d IH]; simpl; [by intros _ []|].
  destruct (Z.eqb_spec k1 k) as [->|Hne]; intros H; [discriminate|].
  intros [->|Hin]; [done|]. by apply IH.
Qed.

Lemma assoc_get_app k k' (v : list Partner) (d : list (Z * list Partner)) :
  assoc_get Z.eqb k' (d ++ [(k, v)]) =
  match assoc_get Z.eqb k' d with
  | Some x => Some x
  | None => if k =? k' then Some v else None
  end.
Proof.
  induction d as [|[k1 v1] d IH]; simpl; [done|].
  destruct (k1 =? k'); [done|]. apply IH.
Qed.

Lemma group_step_inv processed g p :
  group_inv processed g ->
  group_inv (processed ++ [p])
    (match assoc_get Z.eqb (close_number p) g with
     | Some ps => assoc_set Z.eqb (close_number p) (ps ++ [p]) g
     | None => g ++ [(close_number p, [p])]
     end).
Proof.
  intros (Hnd & Hkeys & Hgrp).
  destruct (assoc_get Z.eqb (close_number p) g) as [ps|] eqn:Hg.
  - pose proof (assoc_get_some_key _ _ _ Hg) as Hk.
    split; [by rewrite assoc_set_keys|]. split.
    + intros k. rewrite assoc_set_keys by done. rewrite Hkeys.
      split; intros (q & Hq & Hc).
      * exists q. split; [apply in_or_app; by left|done].
      * apply in_app_or in Hq as [Hq|[<-|[]]]; [eauto|]. subst k. by apply Hkeys.
    + intros k ps' Hget q Hq. rewrite assoc_get_set in Hget.
      destruct (Z.eqb_spec (close_number p) k) as [<-|Hne].
      * injection Hget as <-. apply in_app_or in Hq as [Hq|[<-|[]]].
        -- destruct (Hgrp _ _ Hg q Hq) as [Hc Hin].
           split; [done|]. apply in_or_app; by left.
        -- split; [done|]. apply in_or_app; right; by left.
      * destruct (Hgrp _ _ Hget q Hq) as [Hc Hin].
        split; [done|]. apply in_or_app; by left.
  - pose proof (assoc_get_none_key _ _ Hg) as Hk.
    split.
    { rewrite map_app. simpl. apply NoDup_app. split; [done|]. split.
      - intros x Hx Hx'. apply list_elem_of_singleton in Hx' as ->.
        by apply Hk, list_elem_of_In.
      - apply NoDup_singleton. }
    split.
    + intros k. rewrite map_app, in_app_iff, Hkeys. simpl.
      split.
      * intros [(q & Hq & Hc)|[<-|[]]].
        -- exists q. split; [apply in_or_app; by left|done].
        -- exists p. split; [apply in_or_app; right; by left|done].
      * intros (q & Hq & Hc). apply in_app_or in Hq as [Hq|[<-|[]]].
        -- left. eauto.
        -- right. by left.
    + intros k ps' Hget q Hq. rewrite assoc_get_app in Hget.
      destruct (assoc_get Z.eqb k g) as [x|] eqn:Hk'.
      * injection Hget as <-. destruct (Hgrp _ _ Hk' q Hq) as [Hc Hin].
        split; [done|]. apply in_or_app; by left.
      * destruct (Z.eqb_spec (close_number p) k) as [<-|]; [|discriminate].
        injection Hget as <-. destruct Hq as [<-|[]].
        split; [done|]. apply in_or_app; right; by left.
Qed.

Lemma group_by_close_inv (ps : list Partner) : group_inv ps (group_by_close ps).
Proof.
  unfold group_by_close.
  assert (H : forall rest processed g, group_inv processed g ->
            group_inv (processed ++ rest)
              (foldl (fun groups p =>
                        match assoc_get Z.eqb (close_number p) groups with
                        | Some ps => assoc_set Z.eqb (close_number p) (ps ++ [p]) groups
                        | None => groups ++ [(close_number p, [p])]
                        end) g rest)).
  { induction rest as [|p rest IH]; intros processed g Hinv; simpl.
    - by rewrite app_nil_r.
    - replace (processed ++ p :: rest) with ((processed ++ [p]) ++ rest)
        by (rewrite <- app_assoc; done).
      apply IH. by apply group_step_inv. }
  apply (H ps [] []).
  split; [constructor|]. split.
  - intros k. simpl. split; [done|]. by intros (? & [] & _).
  - done.
Qed.

(** *** The close loop *)

Lemma fold_res_ind {A B} (P : B -> Prop) (f : B -> A -> result B) acc0 xs acc :
  P acc0 ->
  (forall a x a', In x xs -> P a -> f a x = Ok a' -> P a') ->
  fold_res f acc0 xs = Ok acc -> P acc.
Proof.
  revert acc0. induction xs as [|x xs IH]; simpl; intros acc0 H0 Hstep H.
  - by injection H as <-.
  - destruct (f acc0 x) as [a'|e] eqn:Hf; simpl in H; [|discriminate].
    apply (IH a'); [eapply Hstep; eauto| |done].
    intros a y a'' Hy. apply Hstep. by right.
Qed.

Lemma new_lp_calc_close (dpow : dec -> dec -> result dec) lc p calls c :
  calculate_late_interest_for_new_lp dpow lc p calls = Ok c ->
  n_close_number c = close_number p.
Proof.
  unfold calculate_late_interest_for_new_lp.
  destruct (fold_res _ _ _) as [[[b tc] tl]|e]; simpl; [|discriminate].
  destruct (round_amount tc _); simpl; [|discriminate].
  destruct (round_amount tl _); simpl; [|discriminate].
  intros H. by injection H as <-.
Qed.

Lemma new_lps_fold_close (dpow : dec -> dec -> result dec) eng calls st0 lps st :
  fold_res (new_lps_step dpow eng calls) st0 lps = Ok st ->
  forall c, In c st.1 -> In c st0.1 \/
    exists p, In p lps /\ n_close_number c = close_number p.
Proof.
  apply (fold_res_ind (fun st : list NewLPCalculation * dec =>
    forall c, In c st.1 -> In c st0.1 \/
    exists p, In p lps /\ n_close_number c = close_number p)); [by left|].
  intros [calcs t] p [calcs' t'] Hp IH Hstep c Hc. simpl in *.
  unfold new_lps_step in Hstep.
  destruct (calculate_late_interest_for_new_lp _ _ _ _) as [calc|e] eqn:Hcalc;
    simpl in Hstep; [|discriminate].
  destruct (t +d _) as [t1|e]; simpl in Hstep; [|discriminate].
  injection Hstep as <- _.
  apply in_app_or in Hc as [Hc|[<-|[]]]; [by apply IH|].
  right. exists p. split; [done|]. by eapply new_lp_calc_close.
Qed.

Lemma process_close_results (dpow : dec -> dec -> result dec) eng ci partners groups
    calls acc k acc' :
  process_close dpow eng ci partners groups calls acc k = Ok acc' ->
  forall c, In c (acc_new_lp_results acc') ->
    In c (acc_new_lp_results acc) \/
    exists p, In p (default [] (assoc_get Z.eqb k groups)) /\
              n_close_number c = close_number p.
Proof.
  unfold process_close.
  destruct (fold_res _ _ _) as [[calcs t]|e] eqn:Hf; simpl; [|discriminate].
  destruct (acc_collected acc +d t) as [col|e]; simpl; [|discriminate].
  intros H c Hc.
  match type of H with
  | ?m ≫= _ = Ok _ =>
      destruct m as [[[bc al] ta]|e]; simpl in H; [|discriminate]
  end.
  destruct (Decimal.sub t ta) as [df|e]; simpl in H; [|discriminate].
  injection H as <-. simpl in Hc.
  apply in_app_or in Hc as [Hc|Hc]; [by left|].
  right. destruct (new_lps_fold_close _ _ _ _ _ _ Hf c Hc) as [[]|Hp]. exact Hp.
Qed.

Lemma close_loop_results (dpow : dec -> dec -> result dec) eng ci partners groups
    calls acc0 ks acc :
  fold_res (process_close dpow eng ci partners groups calls) acc0 ks = Ok acc ->
  forall c, In c (acc_new_lp_results acc) ->
    In c (acc_new_lp_results acc0) \/
    exists k p, In k ks /\ In p (default [] (assoc_get Z.eqb k groups)) /\
                n_close_number c = close_number p.
Proof.
  apply (fold_res_ind (fun acc => forall c, In c (acc_new_lp_results acc) ->
    In c (acc_new_lp_results acc0) \/
    exists k p, In k ks /\ In p (default [] (assoc_get Z.eqb k groups)) /\
                n_close_number c = close_number p)); [by left|].
  intros a k a' Hk IH Hstep c Hc.
  destruct (process_close_results _ _ _ _ _ _ _ _ _ Hstep c Hc) as [Hin|(p & Hp & Hcl)].
  - by apply IH.
  - right. exists k, p. done.
Qed.

(** *** The order of the closes *)

Lemma strongly_sorted_strict (l : list Z) :
  StronglySorted (fun x y => id x <= id y) l -> NoDup l -> StronglySorted Z.lt l.
Proof.
  induction 1 as [|a l Hs IH Hall]; intros Hnd; constructor.
  - apply IH. by inversion Hnd.
  - inversion Hnd as [|? ? Hna Hnd']; subst.
    apply List.Forall_forall. intros y Hy.
    rewrite List.Forall_forall in Hall. specialize (Hall y Hy). unfold id in Hall.
    assert (a <> y) by (intros ->; apply Hna; by apply list_elem_of_In). lia.
Qed.

Lemma all_closes_facts (ps : list Partner) :
  StronglySorted Z.lt (all_closes (group_by_close ps)) /\
  (forall k, In k (all_closes (group_by_close ps)) <->
             exists p, In p ps /\ close_number p = k).
Proof.
  destruct (group_by_close_inv ps) as (Hnd & Hkeys & _).
  unfold all_closes. split.
  - apply strongly_sorted_strict; [apply sort_by_key_strongly_sorted|].
    by rewrite sort_by_key_perm.
  - intros k. rewrite <- Hkeys. split; apply Permutation_in;
      [|symmetry]; apply sort_by_key_perm.
Qed.

Lemma closes_to_process_iff (ps : list Partner) k :
  In k (closes_to_process (group_by_close ps)) <->
  (exists p, In p ps /\ close_number p = k) /\
  (exists p, In p ps /\ close_number p < k).
Proof.
  destruct (all_closes_facts ps) as [Hs Hin].
  unfold closes_to_process.
  destruct (all_closes (group_by_close ps)) as [|x t] eqn:Ha; simpl.
  - split; [done|]. intros [Hk _]. by apply Hin in Hk.
  - inversion Hs as [|? ? Hst Hall]; subst.
    rewrite List.Forall_forall in Hall.
    split.
    + intros Hk. split; [apply Hin; by right|].
      destruct (proj1 (Hin x) (or_introl eq_refl)) as (p & Hp & Hc).
      exists p. split; [done|]. rewrite Hc. by apply Hall.
    + intros [Hk (p & Hp & Hlt)].
      apply Hin in Hk as [<-|Hk]; [|done].
      exfalso.
      assert (Hpin : In (close_number p) (x :: t)) by (apply Hin; eauto).
      destruct Hpin as [Heq|Hpt]; [lia|].
      specialize (Hall _ Hpt). lia.
Qed.

Lemma in_sort_by_key {A} (key : A -> Z) (l : list A) x :
  In x (sort_by_key key l) <-> In x l.
Proof.
  split; apply Permutation_in; [|symmetry]; apply sort_by_key_perm.
Qed.

Lemma exists_in_sort_by_key {A} (key : A -> Z) (l : list A) (Q : A -> Prop) :
  (exists x, In x (sort_by_key key l) /\ Q x) <-> (exists x, In x l /\ Q x).
Proof.
  split; intros (x & Hx & Hq); exists x; (split; [|done]); by apply in_sort_by_key in Hx
    || by apply in_sort_by_key.
Qed.

(** Claim C2: the run takes the distinct close numbers in ascending
    order and processes every close but the first (lowest) one; with
    close numbers starting at 1 (the data model's [close_number >= 1]),
    close 1 is never processed, no new-LP record of the output belongs
    to close 1 (each belongs to a processed close), and when every
    partner is at close 1 the run produces no new-LP, allocation or
    close-summary record at all. *)
Theorem run_skips_first_close (dpow : dec -> dec -> result dec)
    (eng : LateInterestEngine) (commitment_increases : option (gmap string dec))
    (today : date) (s : Store) :
  (forall p, In p (st_partners s) -> 1 <= close_number p) ->
  let groups := group_by_close (sort_by_key close_number (st_partners s)) in
  StronglySorted Z.lt (all_closes groups) /\
  (forall k, In k (all_closes groups) <->
             exists p, In p (st_partners s) /\ close_number p = k) /\
  (forall k, In k (closes_to_process groups) <->
             (exists p, In p (st_partners s) /\ close_number p = k) /\
             (exists p, In p (st_partners s) /\ close_number p < k)) /\
  ~ In 1 (closes_to_process groups) /\
  (forall o, fst (run_complete_calculation dpow eng commitment_increases today s) = Ok o ->
     forall n, In n (new_lps o) ->
       In (n_close_number n) (closes_to_process groups) /\ n_close_number n <> 1) /\
  ((forall p, In p (st_partners s) -> close_number p = 1) ->
     exists o, fst (run_complete_calculation dpow eng commitment_increases today s) = Ok o /\
       new_lps o = [] /\ existing_lps o = [] /\ summary_by_close o = []).
Proof.
  intros Hge. cbv zeta.
  destruct (all_closes_facts (sort_by_key close_number (st_partners s))) as [Hs Hin].
  assert (Hctp : forall k,
    In k (closes_to_process (group_by_close (sort_by_key close_number (st_partners s)))) <->
    (exists p, In p (st_partners s) /\ close_number p = k) /\
    (exists p, In p (st_partners s) /\ close_number p < k)).
  { intros k. rewrite closes_to_process_iff, !exists_in_sort_by_key. done. }
  assert (Hno1 : ~ In 1 (closes_to_process
                          (group_by_close (sort_by_key close_number (st_partners s))))).
  { intros H1. apply Hctp in H1 as [_ (p & Hp & Hlt)]. specialize (Hge p Hp). lia. }
  split; [done|]. split.
  { intros k. rewrite Hin. apply exists_in_sort_by_key. }
  split; [done|]. split; [done|]. split.
  - intros o Ho n Hn.
    unfold run_complete_calculation in Ho. cbv zeta in Ho. cbn [fst] in Ho.
    destruct (fold_res _ _ _) as [acc|e] eqn:Hf; simpl in Ho; [|discriminate].
    assert (Hres : new_lps o = acc_new_lp_results acc).
    { destruct (acc_allocations_by_close acc) as [|x l].
      - simpl in Ho. by injection Ho as <-.
      - destruct (aggregate_allocations_across_closes _ _) as [ag|e];
          simpl in Ho; [|discriminate]. by injection Ho as <-. }
    rewrite Hres in Hn.
    destruct (close_loop_results _ _ _ _ _ _ _ _ _ Hf n Hn)
      as [[]|(k & p & Hk & Hp & Hcl)].
    destruct (group_by_close_inv (sort_by_key close_number (st_partners s)))
      as (_ & _ & Hgrp).
    destruct (assoc_get Z.eqb k _) as [ps|] eqn:Hg; simpl in Hp; [|done].
    destruct (Hgrp _ _ Hg p Hp) as [Hpk _].
    rewrite Hcl, Hpk. split; [done|]. intros ->. done.
  - intros Hall1.
    assert (Hnil : closes_to_process
                     (group_by_close (sort_by_key close_number (st_partners s))) = []).
    { destruct (closes_to_process _) as [|y t] eqn:Hc; [done|].
      exfalso. assert (Hy : In y (y :: t)) by (by left).
      apply Hctp in Hy as [(p & Hp & Hpy) (q & Hq & Hqy)].
      rewrite (Hall1 p Hp) in Hpy. rewrite (Hall1 q Hq) in Hqy. lia. }
    unfold run_complete_calculation. cbv zeta. cbn [fst].
    rewrite Hnil. simpl. eexists. split; [reflexivity|]. done.
Qed.

Lemma run_skips_first_close_witness :
  (forall p, In p example_partners -> 1 <= close_number p) /\
  ~ In 1 (closes_to_process (group_by_close (sort_by_key close_number example_partners))).
Proof.
  assert (H : forall p, In p example_partners -> 1 <= close_number p).
  { intros p Hp. simpl in Hp.
    repeat (destruct Hp as [<-|Hp]; [simpl; lia|]). destruct Hp. }
  split; [exact H|].
  exact (proj1 (proj2 (proj2 (proj2
    (run_skips_first_close pow_unused
       (mkLateInterestEngine example_assumptions example_calculator) None
       (ymd 2024 1 1) (mkStore example_partners example_calls) H))))).
Defined.

(** ** Variable-rate simple interest against its description *)

Lemma coef_of_Z_nonzero (n : Z) : n <> 0 -> Decimal.coef (Decimal.of_Z n) <> 0.
Proof. done. Qed.

(** A segment's interest can only overflow. *)
Lemma segment_interest_err principal r days e :
  segment_interest principal r days = Err e -> e = Overflow.
Proof.
  unfold segment_interest.
  destruct (Decimal.div r (Decimal.of_Z 100)) as [x|e'] eqn:H1; cbn [mbind result_bind].
  2:{ intros [= <-]. exact (div_err _ _ _ (coef_of_Z_nonzero 100 ltac:(lia)) H1). }
  destruct (principal *d x) as [m|e'] eqn:H2; cbn [mbind result_bind].
  2:{ intros [= <-]. exact (mul_err _ _ _ H2). }
  destruct (Decimal.div (Decimal.of_Z days) (Decimal.of_Z 365)) as [t|e'] eqn:H3;
    cbn [mbind result_bind].
  2:{ intros [= <-]. exact (div_err _ _ _ (coef_of_Z_nonzero 365 ltac:(lia)) H3). }
  apply mul_err.
Qed.

(** With a non-empty history the rate lookup can only fail by overflowing
    [rate + spread]. *)
Lemma get_rate_nonempty_err c h t spread d e :
  mode c = VariableMode (h :: t) spread ->
  get_rate_at_date c d = Err e -> e = Overflow.
Proof.
  intros Hm. unfold get_rate_at_date. rewrite Hm.
  destruct (first_applicable d (h :: t)); [apply add_err|].
  destruct (last (h :: t)) eqn:Hl; [apply add_err|].
  by apply last_None in Hl.
Qed.

Section SimpleSegments.

Variable c : InterestRateCalculator.
Variable principal : dec.
Variable end_date : date.

Lemma spec_segments_err :
  (forall d e, get_rate_at_date c d = Err e -> e = Overflow) ->
  forall segs e, map_res (spec_segment_interest c principal) segs = Err e -> e = Overflow.
Proof.
  intros Hrate segs. induction segs as [|sg segs IH]; intros e; cbn [map_res]; [discriminate|].
  change (spec_segment_interest c principal sg)
    with (r ← get_rate_at_date c sg.1; segment_interest principal r sg.2).
  destruct (get_rate_at_date c sg.1) as [r|e'] eqn:Hr; cbn [mbind result_bind].
  2:{ intros [= <-]. exact (Hrate _ _ Hr). }
  destruct (segment_interest principal r sg.2) as [si|e'] eqn:Hs; cbn [mbind result_bind].
  2:{ intros [= <-]. exact (segment_interest_err _ _ _ _ Hs). }
  destruct (map_res _ segs) as [ys|e'] eqn:Hm; cbn [mbind result_bind]; [discriminate|].
  intros [= <-]. by apply IH.
Qed.

(** The loop adds each segment's interest as it goes, the description
    sums them at the end: the two agree, errors included, since after the
    first rate lookup every error is an [Overflow]. *)
Lemma simple_segments_refine {B} (K : dec -> result B) (L : list PrimeRateChange) :
  forall (acc : dec) (cur : date) (bs : list date),
  L = [] \/ (forall d e, get_rate_at_date c d = Err e -> e = Overflow) ->
  StronglySorted (fun x y => effective_date x <= effective_date y) L ->
  (forall x, In x L -> cur <= effective_date x <= end_date) ->
  cur <= end_date ->
  StronglySorted Z.lt bs ->
  (forall d, In d bs <-> exists x, In x L /\ effective_date x = d /\ cur < d) ->
  ('(total, current_date) ← fold_res (simple_segment_step c principal) (acc, cur) L;
   let final_days := end_date - current_date + 1 in
   total' ← (if 0 <? final_days then
               r ← get_rate_at_date c current_date;
               si ← segment_interest principal r final_days;
               total +d si
             else Ok total);
   K total')
  = (interests ← map_res (spec_segment_interest c principal)
                   (spec_segments cur bs end_date);
     total ← fold_res Decimal.add acc interests;
     K total).
Proof.
  induction L as [|x L IH]; intros acc cur bs Hrate HsL HinL Hce Hsb Hbs.
  - destruct bs as [|b bs].
    2:{ exfalso. destruct (proj1 (Hbs b) (or_introl eq_refl)) as (? & [] & _). }
    simpl. replace (0 <? end_date - cur + 1) with true by (symmetry; apply Z.ltb_lt; lia).
    unfold spec_segment_interest. simpl.
    destruct (get_rate_at_date c cur) as [r|e]; simpl; [|done].
    destruct (segment_interest principal r _) as [si|e]; simpl; [|done].
    destruct (acc +d si); simpl; done.
  - assert (Hrate' : forall d e, get_rate_at_date c d = Err e -> e = Overflow)
      by (destruct Hrate; [discriminate|done]).
    inversion HsL as [|? ? HsL' Hallx]; subst.
    rewrite List.Forall_forall in Hallx.
    assert (Hx : cur <= effective_date x <= end_date) by (apply HinL; by left).
    simpl. unfold simple_segment_step at 1.
    destruct (Z.ltb_spec 0 (effective_date x - cur)) as [Hlt|Hge].
    + (* a segment of [effective_date x - cur] days ends at this boundary *)
      destruct bs as [|b bs].
      { exfalso. assert (Hb : In (effective_date x) []) by (apply Hbs; exists x;
          split; [by left|split; [done|lia]]). done. }
      assert (Hb : b = effective_date x).
      { inversion Hsb as [|? ? Hsb' Hallb]; subst.
        rewrite List.Forall_forall in Hallb.
        destruct (proj1 (Hbs b) (or_introl eq_refl)) as (y & Hy & Hyb & _).
        assert (Hxin : In (effective_date x) (b :: bs))
          by (apply Hbs; exists x; split; [by left|split; [done|lia]]).
        destruct Hy as [<-|Hy]; [done|].
        specialize (Hallx y Hy).
        destruct Hxin as [->|Hxin]; [done|]. specialize (Hallb _ Hxin). lia. }
      subst b. inversion Hsb as [|? ? Hsb' Hallb]; subst.
      rewrite List.Forall_forall in Hallb.
      assert (HinL' : forall y, In y L -> effective_date x <= effective_date y <= end_date).
      { intros y Hy. split; [by apply Hallx|]. apply HinL. by right. }
      assert (Hbs' : forall d, In d bs <->
                exists y, In y L /\ effective_date y = d /\ effective_date x < d).
      { intros d. split.
        - intros Hd. assert (Hdx := Hallb d Hd).
          destruct (proj1 (Hbs d) (or_intror Hd)) as (y & Hy & Hyd & _).
          destruct Hy as [<-|Hy]; [lia|]. exists y. done.
        - intros (y & Hy & Hyd & Hlt').
          assert (Hd : In d (effective_date x :: bs))
            by (apply Hbs; exists y; split; [by right|split; [done|lia]]).
          destruct Hd as [Hd|Hd]; [lia|done]. }
      simpl.
      change (spec_segment_interest c principal (cur, effective_date x - cur))
        with (r ← get_rate_at_date c cur; segment_interest principal r (effective_date x - cur)).
      destruct (get_rate_at_date c cur) as [r|e]; simpl; [|done].
      destruct (segment_interest principal r _) as [si|e]; simpl; [|done].
      destruct (acc +d si) as [acc'|e'] eqn:Ha; simpl.
      * refine (eq_trans (IH acc' (effective_date x) bs (or_intror Hrate') HsL' HinL'
                            ltac:(lia) Hsb' Hbs') _).
        destruct (map_res _ _) as [ints|e]; simpl; [|done].
        by rewrite Ha.
      * destruct (map_res _ _) as [ints|e] eqn:Hm; simpl; [by rewrite Ha|].
        rewrite (add_err _ _ _ Ha). symmetry. f_equal.
        exact (spec_segments_err Hrate' _ _ Hm).
    + (* a boundary on the current date adds no segment *)
      assert (Hxc : effective_date x = cur) by lia.
      simpl. rewrite Hxc.
      refine (eq_trans (IH acc cur bs (or_intror Hrate') HsL' _ _ _ _) eq_refl); try done.
      * intros y Hy. split; [rewrite <- Hxc; by apply Hallx|]. apply HinL. by right.
      * intros d. rewrite Hbs. split.
        -- intros (y & Hy & Hyd & Hlt). destruct Hy as [<-|Hy]; [lia|]. by exists y.
        -- intros (y & Hy & Hyd & Hlt). exists y. split; [by right|done].
Qed.

End SimpleSegments.

Lemma rate_changes_in_period_facts hist start_date end_date :
  StronglySorted (fun x y => effective_date x <= effective_date y)
    (rate_changes_in_period hist start_date end_date) /\
  (forall x, In x (rate_changes_in_period hist start_date end_date) <->
     In x hist /\ start_date < effective_date x /\ effective_date x <= end_date).
Proof.
  unfold rate_changes_in_period. split; [apply sort_by_key_strongly_sorted|].
  intros x. rewrite in_sort_by_key, List.filter_In.
  unfold date_lt, date_le. rewrite andb_true_iff, Z.ltb_lt, Z.leb_le. done.
Qed.

(** Claim C4: for a variable-rate calculator in simple mode and
    [start_date <= end_date], [_calculate_simple_interest] returns what
    the described segmentation gives for the strictly increasing list
    [bs] of the rate-change dates in [(start_date, end_date]]: segments
    before a boundary count [(boundary - segment_start)] days, the final
    one counts [(end_date - last_boundary) + 1] days, each at the rate
    on its first day; the interest is the sum of the segment interests
    and the rate is [(total / principal) * (365 / total_days) * 100].
    Both raise the same error when one is raised. *)
Theorem simple_interest_segments (c : InterestRateCalculator) (hist : list PrimeRateChange)
    (spread principal : dec) (start_date end_date : date) (bs : list date) :
  mode c = VariableMode hist spread ->
  start_date <= end_date ->
  StronglySorted Z.lt bs ->
  (forall d, In d bs <-> exists rc, In rc hist /\ effective_date rc = d /\
                                    start_date < d /\ d <= end_date) ->
  calculate_simple_interest c principal start_date end_date
  = spec_simple_interest c principal start_date end_date bs.
Proof.
  intros Hmode Hle Hsb Hbs.
  destruct (rate_changes_in_period_facts hist start_date end_date) as [HsL HinL].
  unfold calculate_simple_interest, spec_simple_interest.
  replace (end_date - start_date + 1 <=? 0) with false by (symmetry; apply Z.leb_gt; lia).
  rewrite Hmode.
  apply (simple_segments_refine c principal end_date
           (fun total' =>
              q ← Decimal.div total' principal;
              y ← Decimal.div (Decimal.of_Z 365) (Decimal.of_Z (end_date - start_date + 1));
              qy ← q *d y;
              avg ← qy *d Decimal.of_Z 100;
              Ok (total', avg))).
  - destruct hist as [|h t]; [by left|right].
    intros d e. exact (get_rate_nonempty_err c h t spread d e Hmode).
  - done.
  - intros x Hx. apply HinL in Hx. lia.
  - done.
  - done.
  - intros d. rewrite Hbs. split.
    + intros (rc & Hrc & Hd & H1 & H2). exists rc. rewrite HinL. subst d.
      repeat split; try done; lia.
    + intros (x & Hx & Hd & H1). apply HinL in Hx as (Hx & H2 & H3).
      exists x. subst d. repeat split; try done; lia.
Qed.

Lemma simple_interest_segments_witness :
  calculate_simple_interest prime_calculator (Decimal.of_Z 100000)
    (ymd 2022 3 1) (ymd 2022 6 30)
  = spec_simple_interest prime_calculator (Decimal.of_Z 100000)
      (ymd 2022 3 1) (ymd 2022 6 30) [ymd 2022 3 17; ymd 2022 5 5].
Proof.
  apply (simple_interest_segments prime_calculator
           (sort_by_key_desc effective_date example_history) (Decimal.of_Z 2)).
  - reflexivity.
  - apply Z.leb_le. reflexivity.
  - repeat constructor; apply Z.ltb_lt; reflexivity.
  - intros d. split.
    + intros [<-|[<-|[]]];
        [exists (mkPrimeRateChange (ymd 2022 3 17) (Decimal.Dec 350 (-2)))
        |exists (mkPrimeRateChange (ymd 2022 5 5) (Decimal.Dec 400 (-2)))];
        (split; [eapply Permutation_in; [symmetry; apply sort_by_key_desc_perm|]|]);
        [by left|..|right; by left|];
        (split; [reflexivity|]); split; first [apply Z.ltb_lt | apply Z.leb_le]; reflexivity.
    + intros (rc & Hrc & Hd & H1 & H2).
      apply (Permutation_in _ (sort_by_key_desc_perm _ _)) in Hrc.
      destruct Hrc as [<-|[<-|[]]]; subst d; [by left|right; by left].
Defined.

(* ================================================================== *)
(** * Further properties of the code *)

(** ** [_round_amount] *)


Lemma rescale_exp (d : dec) t mode : Decimal.exp (Decimal.rescale d t mode) = t.
Proof.
  unfold Decimal.rescale.
  destruct (Decimal.coef d =? 0); [done|]. by destruct (t <=? Decimal.exp d).
Qed.

(** The final [_fix] of [quantize] never changes the value: once its
    checks pass, the result is in range. *)
Lemma quantize_with_eq (d q : dec) mode :
  Decimal.quantize_with d q mode =
  (let t := Decimal.exp q in
   if negb ((Decimal.Etiny <=? t) && (t <=? Decimal.Emax)) then Err InvalidOperation
   else if Decimal.coef d =? 0 then Ok (Decimal.Dec 0 t)
   else if Decimal.Emax <? Decimal.adjusted d then Err InvalidOperation
   else if Decimal.prec <? Decimal.adjusted d - t + 1 then Err InvalidOperation
   else
     let r := Decimal.rescale d t mode in
     if Decimal.Emax <? Decimal.adjusted r then Err InvalidOperation
     else if Decimal.prec <? Decimal.ndigits (Decimal.coef r) then Err InvalidOperation
     else Ok r).
Proof.
  unfold Decimal.quantize_with. cbv zeta.
  destruct ((Decimal.Etiny <=? Decimal.exp q) && (Decimal.exp q <=? Decimal.Emax)) eqn:Hr;
    [|done].
  cbn [negb]. apply andb_true_iff in Hr as [H1 H2]. apply Z.leb_le in H1, H2.
  destruct (Z.eqb_spec (Decimal.coef d) 0).
  { apply fix_in_range; simpl; [lia|rewrite ndigits_zero; unfold Decimal.prec; lia|].
    unfold Decimal.adjusted. simpl. rewrite ndigits_zero. lia. }
  destruct (Decimal.Emax <? Decimal.adjusted d); [done|].
  destruct (Decimal.prec <? _); [done|].
  destruct (Z.ltb_spec Decimal.Emax
              (Decimal.adjusted (Decimal.rescale d (Decimal.exp q) mode))); [done|].
  destruct (Z.ltb_spec Decimal.prec
              (Decimal.ndigits (Decimal.coef (Decimal.rescale d (Decimal.exp q) mode))));
    [done|].
  apply fix_in_range; [rewrite rescale_exp; lia|lia|lia].
Qed.

(** What a successful [quantize] returns. *)
Lemma quantize_ok_shape (d q r : dec) (mode : Decimal.rounding) :
  Decimal.quantize_with d q mode = Ok r ->
  Decimal.Etiny <= Decimal.exp q <= Decimal.Emax /\
  Decimal.exp r = Decimal.exp q /\
  ((Decimal.coef d = 0 /\ r = Decimal.Dec 0 (Decimal.exp q)) \/
   (Decimal.coef d <> 0 /\ r = Decimal.rescale d (Decimal.exp q) mode /\
    Decimal.adjusted r <= Decimal.Emax /\
    Decimal.ndigits (Decimal.coef r) <= Decimal.prec)).
Proof.
  rewrite quantize_with_eq. cbv zeta.
  destruct (Decimal.Etiny <=? Decimal.exp q) eqn:H1; simpl; [|discriminate].
  destruct (Decimal.exp q <=? Decimal.Emax) eqn:H2; simpl; [|discriminate].
  apply Z.leb_le in H1, H2.
  destruct (Z.eqb_spec (Decimal.coef d) 0) as [Hz|Hnz].
  { intros [= <-]. split; [lia|]. split; [done|]. by left. }
  destruct (Decimal.Emax <? Decimal.adjusted d); [discriminate|].
  destruct (Decimal.prec <? Decimal.adjusted d - Decimal.exp q + 1); [discriminate|].
  destruct (Z.ltb_spec Decimal.Emax
              (Decimal.adjusted (Decimal.rescale d (Decimal.exp q) mode))); [discriminate|].
  destruct (Z.ltb_spec Decimal.prec
              (Decimal.ndigits (Decimal.coef (Decimal.rescale d (Decimal.exp q) mode))));
    [discriminate|].
  intros [= <-]. split; [lia|]. split.
  - unfold Decimal.rescale. destruct (Decimal.coef d =? 0); [done|].
    by destruct (Decimal.exp q <=? Decimal.exp d).
  - right. done.
Qed.

(** Rounding half-even to [k] fewer digits is off by at most half a unit
    of the last kept digit. *)
Lemma round_digits_half_even_err (n k : Z) :
  0 <= k ->
  2 * Z.abs (n - Decimal.round_digits Decimal.ROUND_HALF_EVEN n k * 10 ^ k) <= 10 ^ k.
Proof.
  intros Hk. unfold Decimal.round_digits.
  assert (Hp : 0 < 10 ^ k) by (apply Z.pow_pos_nonneg; lia).
  set (p := 10 ^ k) in *.
  pose proof (Z.div_mod (Z.abs n) p ltac:(lia)) as Hdm.
  pose proof (Z.mod_pos_bound (Z.abs n) p Hp) as Hr.
  set (q := Z.abs n / p) in *. set (r := Z.abs n mod p) in *.
  assert (Hq : forall q', (q' = q /\ 2 * r <= p) \/ (q' = q + 1 /\ p <= 2 * r) ->
                 2 * Z.abs (n - Z.sgn n * q' * p) <= p).
  { intros q' Hq'.
    destruct (Z.lt_trichotomy n 0) as [Hn|[Hn|Hn]].
    - rewrite Z.sgn_neg by done. rewrite Z.abs_neq in Hdm by lia.
      destruct Hq' as [[-> ?]|[-> ?]];
        [destruct (Z.abs_spec (n - -1 * q * p)) | destruct (Z.abs_spec (n - -1 * (q + 1) * p))];
        lia.
    - subst n. simpl. lia.
    - rewrite Z.sgn_pos by done. rewrite Z.abs_eq in Hdm by lia.
      destruct Hq' as [[-> ?]|[-> ?]];
        [destruct (Z.abs_spec (n - 1 * q * p)) | destruct (Z.abs_spec (n - 1 * (q + 1) * p))];
        lia. }
  apply Hq.
  destruct (Z.ltb_spec (2 * r) p); [left; lia|].
  destruct (Z.ltb_spec p (2 * r)); [right; lia|].
  destruct (Z.even q); [left|right]; lia.
Qed.

(** [_round_amount(amount, n)] with [0 <= n <= 1000026], when it
    returns, returns a Decimal with exactly [n] decimal places
    ([exponent = -n]) that is within half a unit in the last place of
    [amount]: with both values scaled to the smaller exponent [m],
    [2 * |amount - r| <= 10^(-n - m)].  (From [n = 1000027] on,
    [0.1 ** n] underflows to [0E-1000026], see [pow_tenth].) *)
Theorem round_amount_half_unit (d r : dec) (n : Z) :
  0 <= n <= 1000026 ->
  round_amount d n = Ok r ->
  Decimal.exp r = - n /\
  2 * Z.abs (Decimal.coef d * 10 ^ (Decimal.exp d - Z.min (Decimal.exp d) (- n))
             - Decimal.coef r * 10 ^ (- n - Z.min (Decimal.exp d) (- n)))
    <= 10 ^ (- n - Z.min (Decimal.exp d) (- n)).
Proof.
  intros Hn H. rewrite round_amount_eq in H by lia.
  apply quantize_ok_shape in H as (Hrange & Hexp & Hcase). simpl in *.
  split; [done|].
  destruct Hcase as [[Hz ->]|(Hnz & -> & _ & _)].
  - simpl. rewrite Hz. simpl.
    pose proof (Z.pow_nonneg 10 (- n - Z.min (Decimal.exp d) (- n))). lia.
  - unfold Decimal.rescale, Decimal.context_rounding.
    rewrite (proj2 (Z.eqb_neq _ _) Hnz).
    destruct (Z.leb_spec (- n) (Decimal.exp d)); simpl.
    + rewrite Z.min_r by lia. rewrite Z.sub_diag, Z.pow_0_r, Z.mul_1_r, Z.sub_diag.
      simpl. lia.
    + rewrite Z.min_l by lia. rewrite Z.sub_diag, Z.pow_0_r, Z.mul_1_r.
      apply round_digits_half_even_err. lia.
Qed.

(** Rounding an already rounded amount to the same number of places
    returns it unchanged: [_round_amount] is idempotent. *)
Lemma quantize_idem (d q r : dec) mode :
  Decimal.quantize_with d q mode = Ok r -> Decimal.quantize_with r q mode = Ok r.
Proof.
  intros H.
  pose proof (quantize_ok_shape _ _ _ _ H) as (Hrange & Hexp & Hcase).
  rewrite quantize_with_eq. cbv zeta.
  replace ((Decimal.Etiny <=? Decimal.exp q) && (Decimal.exp q <=? Decimal.Emax)) with true
    by (symmetry; apply andb_true_iff; split; apply Z.leb_le; lia).
  cbn [negb]. destruct r as [cr er]. simpl in *. subst er.
  destruct (Z.eqb_spec cr 0) as [->|Hcr]; [done|].
  destruct Hcase as [[_ Hr]|(Hnz & Hr & Hadj & Hnd)]; [by injection Hr|].
  unfold Decimal.adjusted in *. simpl in *.
  destruct (Z.ltb_spec Decimal.Emax (Decimal.exp q + Decimal.ndigits cr - 1)); [lia|].
  destruct (Z.ltb_spec Decimal.prec
              (Decimal.exp q + Decimal.ndigits cr - 1 - Decimal.exp q + 1)); [lia|].
  unfold Decimal.rescale. simpl.
  rewrite (proj2 (Z.eqb_neq _ _) Hcr), Z.leb_refl, Z.sub_diag, Z.pow_0_r, Z.mul_1_r.
  simpl.
  destruct (Z.ltb_spec Decimal.Emax (Decimal.exp q + Decimal.ndigits cr - 1)); [lia|].
  destruct (Z.ltb_spec Decimal.prec (Decimal.ndigits cr)); [lia|].
  done.
Qed.

(** Rounding an already rounded amount to the same number of places
    returns it unchanged: [_round_amount] is idempotent. *)
Theorem round_amount_idempotent (d r : dec) (n : Z) :
  round_amount d n = Ok r -> round_amount r n = Ok r.
Proof.
  unfold round_amount, Decimal.quantize.
  destruct (n =? 0); [apply quantize_idem|].
  destruct (Decimal.pow_tenth n) as [q|e]; cbn [mbind result_bind];
    [apply quantize_idem|discriminate].
Qed.

Lemma round_amount_half_unit_witness :
  0 <= 2 <= 1000026 /\
  round_amount (Decimal.Dec 125 (-3)) 2 = Ok (Decimal.Dec 12 (-2)) /\
  Decimal.exp (Decimal.Dec 12 (-2)) = - 2 /\
  2 * Z.abs (125 * 10 ^ (-3 - Z.min (-3) (- 2)) - 12 * 10 ^ (- 2 - Z.min (-3) (- 2)))
    <= 10 ^ (- 2 - Z.min (-3) (- 2)).
Proof.
  assert (H : round_amount (Decimal.Dec 125 (-3)) 2 = Ok (Decimal.Dec 12 (-2)))
    by reflexivity.
  split; [lia|]. split; [exact H|].
  exact (round_amount_half_unit (Decimal.Dec 125 (-3)) (Decimal.Dec 12 (-2)) 2
           ltac:(lia) H).
Defined.

Lemma round_amount_idempotent_witness :
  round_amount (Decimal.Dec 1234567 (-5)) 2 = Ok (Decimal.Dec 1235 (-2)) /\
  round_amount (Decimal.Dec 1235 (-2)) 2 = Ok (Decimal.Dec 1235 (-2)).
Proof.
  assert (H : round_amount (Decimal.Dec 1234567 (-5)) 2 = Ok (Decimal.Dec 1235 (-2)))
    by reflexivity.
  split; [exact H|].
  exact (round_amount_idempotent _ _ _ H).
Defined.

Lemma ndigits_fuel_spec (f : nat) (m : Z) :
  0 <= m < 2 ^ Z.of_nat f ->
  1 <= Decimal.ndigits_fuel f m /\
  (m = 0 \/ 10 ^ (Decimal.ndigits_fuel f m - 1) <= m) /\
  m < 10 ^ Decimal.ndigits_fuel f m.
Proof.
  revert m. induction f as [|f IH]; intros m Hm; simpl.
  - simpl in Hm. assert (m = 0) by lia. subst. simpl. lia.
  - destruct (Z.ltb_spec m 10).
    + split; [lia|]. split; [|simpl; lia].
      destruct (Z.eq_dec m 0); [by left|right; simpl; lia].
    + rewrite Nat2Z.inj_succ, Z.pow_succ_r in Hm by lia.
      destruct (IH (m / 10)) as (H1 & H2 & H3).
      { split; [apply Z.div_pos; lia|]. apply Z.div_lt_upper_bound; lia. }
      set (k := Decimal.ndigits_fuel f (m / 10)) in *.
      split; [lia|]. split.
      * right. replace (1 + k - 1) with (Z.succ (k - 1)) by lia.
        rewrite Z.pow_succ_r by lia.
        destruct H2 as [H2|H2].
        -- assert (m < 10) by (pose proof (Z.div_small_iff m 10); lia). lia.
        -- pose proof (Z.mul_div_le m 10). lia.
      * replace (1 + k) with (Z.succ k) by lia. rewrite Z.pow_succ_r by lia.
        pose proof (Z.mod_pos_bound m 10). pose proof (Z.div_mod m 10). lia.
Qed.

Lemma ndigits_spec (x : Z) :
  1 <= Decimal.ndigits x /\
  (x = 0 \/ 10 ^ (Decimal.ndigits x - 1) <= Z.abs x) /\
  Z.abs x < 10 ^ Decimal.ndigits x.
Proof.
  unfold Decimal.ndigits.
  destruct (ndigits_fuel_spec (Z.to_nat (Z.log2 (Z.abs x) + 1)) (Z.abs x)) as (H1 & H2 & H3).
  { split; [lia|].
    rewrite Z2Nat.id by (pose proof (Z.log2_nonneg (Z.abs x)); lia).
    destruct (Z.eq_dec x 0) as [->|Hx]; [simpl; lia|].
    apply Z.log2_spec. lia. }
  split; [done|]. split; [|done].
  destruct H2 as [H2|H2]; [left; lia|by right].
Qed.

Lemma ndigits_le (x m : Z) : 0 <= m -> Z.abs x <= 10 ^ m -> Decimal.ndigits x <= m + 1.
Proof.
  intros Hm Hx. destruct (ndigits_spec x) as (H1 & [->|H2] & H3).
  - unfold Decimal.ndigits. simpl. lia.
  - destruct (Z.le_gt_cases (Decimal.ndigits x) (m + 1)) as [|Hgt]; [done|].
    assert (10 ^ (m + 1) <= 10 ^ (Decimal.ndigits x - 1)) by (apply Z.pow_le_mono_r; lia).
    rewrite Z.pow_add_r in * by lia. lia.
Qed.

Lemma ndigits_lt (x m : Z) : 1 <= m -> Z.abs x < 10 ^ m -> Decimal.ndigits x <= m.
Proof.
  intros Hm Hx. destruct (ndigits_spec x) as (H1 & [->|H2] & H3).
  - unfold Decimal.ndigits. simpl. lia.
  - destruct (Z.le_gt_cases (Decimal.ndigits x) m) as [|Hgt]; [done|].
    assert (10 ^ m <= 10 ^ (Decimal.ndigits x - 1)) by (apply Z.pow_le_mono_r; lia).
    lia.
Qed.

(** [_round_amount(amount, n)] with [0 <= n <= Emax] never raises when
    [amount] is zero or [adjusted(amount) + n <= 26], i.e. when
    [|amount| < 10^(27 - n)] (below 10^25 at two places). *)
Theorem round_amount_no_error (d : dec) (n : Z) :
  0 <= n <= Decimal.Emax ->
  Decimal.coef d = 0 \/ Decimal.adjusted d + n <= 26 ->
  exists r, round_amount d n = Ok r.
Proof.
  intros Hn Hd. rewrite round_amount_eq by (unfold Decimal.Emax in Hn; lia).
  unfold Decimal.quantize. rewrite quantize_with_eq. simpl.
  replace ((Decimal.Etiny <=? - n) && (- n <=? Decimal.Emax)) with true
    by (symmetry; apply andb_true_iff; split; apply Z.leb_le;
        unfold Decimal.Etiny, Decimal.Emax, Decimal.prec in *; lia).
  simpl.
  destruct (Z.eqb_spec (Decimal.coef d) 0) as [Hz|Hnz]; [eauto|].
  destruct Hd as [Hd|Hd]; [done|].
  destruct d as [c e]. unfold Decimal.adjusted in *. simpl in *.
  destruct (ndigits_spec c) as (Hc1 & _ & Hc3).
  unfold Decimal.Emax, Decimal.prec.
  destruct (Z.ltb_spec 999999 (e + Decimal.ndigits c - 1)); [lia|].
  destruct (Z.ltb_spec 28 (e + Decimal.ndigits c - 1 - - n + 1)); [lia|].
  unfold Decimal.rescale. simpl. rewrite (proj2 (Z.eqb_neq _ _) Hnz).
  assert (Hr : Decimal.ndigits
                 (Decimal.coef (if - n <=? e
                                then Decimal.Dec (c * 10 ^ (e - - n)) (- n)
                                else Decimal.Dec (Decimal.round_digits
                                                    Decimal.context_rounding c (- n - e))
                                                 (- n))) <= 28).
  { destruct (Z.leb_spec (- n) e); simpl.
    - apply (Z.le_trans _ (Decimal.ndigits c + (e - - n))); [|lia].
      apply ndigits_lt; [lia|].
      rewrite Z.abs_mul, (Z.abs_eq (10 ^ _)) by (apply Z.pow_nonneg; lia).
      rewrite Z.pow_add_r by lia.
      apply Z.mul_lt_mono_pos_r; [apply Z.pow_pos_nonneg; lia|done].
    - unfold Decimal.round_digits, Decimal.context_rounding.
      set (j := - n - e).
      assert (Hp : 0 < 10 ^ j) by (apply Z.pow_pos_nonneg; lia).
      set (q := Z.abs c / 10 ^ j).
      assert (Hq : forall q', q' <= q + 1 -> 0 <= q' ->
                     Decimal.ndigits (Z.sgn c * q') <= 28).
      { intros q' Hq1 Hq0.
        destruct (Z.le_gt_cases j (Decimal.ndigits c)) as [Hj|Hj].
        - assert (Hlt : q < 10 ^ (Decimal.ndigits c - j)).
          { apply Z.div_lt_upper_bound; [done|].
            rewrite <- Z.pow_add_r by lia.
            replace (j + (Decimal.ndigits c - j)) with (Decimal.ndigits c) by lia. done. }
          apply (Z.le_trans _ (Decimal.ndigits c - j + 1)); [|lia].
          apply ndigits_le; [lia|].
          rewrite Z.abs_mul.
          assert (Z.abs (Z.sgn c) <= 1) by (destruct (Z.sgn_spec c) as [[_ ->]|[[_ ->]|[_ ->]]]; simpl; lia).
          rewrite (Z.abs_eq q') by done. nia.
        - assert (Hq0' : q = 0).
          { apply Z.div_small. split; [lia|].
            apply (Z.lt_le_trans _ (10 ^ Decimal.ndigits c)); [done|].
            apply Z.pow_le_mono_r; lia. }
          apply (Z.le_trans _ (0 + 1)); [|lia].
          apply ndigits_le; [lia|].
          assert (Z.abs (Z.sgn c) <= 1) by (destruct (Z.sgn_spec c) as [[_ ->]|[[_ ->]|[_ ->]]]; simpl; lia).
          rewrite Z.abs_mul, (Z.abs_eq q') by done. simpl. nia. }
      assert (0 <= q) by (apply Z.div_pos; lia).
      destruct (2 * (Z.abs c mod 10 ^ j) <? 10 ^ j); [apply Hq; lia|].
      destruct (10 ^ j <? 2 * (Z.abs c mod 10 ^ j)); [apply Hq; lia|].
      destruct (Z.even q); apply Hq; lia. }
  destruct (Z.leb_spec (- n) e) as [Hle|Hgt]; simpl in Hr |- *.
  - destruct (Z.ltb_spec 999999 (- n + Decimal.ndigits (c * 10 ^ (e - - n)) - 1)); [lia|].
    destruct (Z.ltb_spec 28 (Decimal.ndigits (c * 10 ^ (e - - n)))); [lia|]. eauto.
  - set (rc := Decimal.round_digits Decimal.context_rounding c (- n - e)) in *.
    destruct (Z.ltb_spec 999999 (- n + Decimal.ndigits rc - 1)); [lia|].
    destruct (Z.ltb_spec 28 (Decimal.ndigits rc)); [lia|]. eauto.
Qed.

Lemma round_amount_no_error_witness :
  (0 <= 2 <= Decimal.Emax /\
   (Decimal.coef (Decimal.Dec 123456789 (-4)) = 0 \/
    Decimal.adjusted (Decimal.Dec 123456789 (-4)) + 2 <= 26)) /\
  exists r, round_amount (Decimal.Dec 123456789 (-4)) 2 = Ok r.
Proof.
  assert (H1 : 0 <= 2 <= Decimal.Emax) by (unfold Decimal.Emax; lia).
  assert (H2 : Decimal.coef (Decimal.Dec 123456789 (-4)) = 0 \/
               Decimal.adjusted (Decimal.Dec 123456789 (-4)) + 2 <= 26)
    by (right; vm_compute; discriminate).
  split; [split; [exact H1|exact H2]|].
  exact (round_amount_no_error _ _ H1 H2).
Defined.

(** ** Building the calculators *)

(** [LateInterestCalculator.__init__] raises exactly when the fund uses
    a FLAT base without a [flat_rate], and then with
    [ValueError("Must provide either rate_history or flat_rate")]; a PRIME
    fund always builds, even with an empty [prime_rate_history].  The
    rate calculator keeps the fund's compounding. *)
Theorem new_LateInterestCalculator_outcome (a : FundAssumptions) :
  (forall e, new_LateInterestCalculator a = Err e ->
     late_interest_base a = FLAT /\ flat_rate a = None /\
     e = ValueError "Must provide either rate_history or flat_rate") /\
  (late_interest_base a = FLAT -> flat_rate a = None ->
     new_LateInterestCalculator a =
       Err (ValueError "Must provide either rate_history or flat_rate")) /\
  (forall lc, new_LateInterestCalculator a = Ok lc ->
     li_assumptions lc = a /\
     compounding (rate_calculator lc) = late_interest_compounding a) /\
  (late_interest_base a = PRIME -> exists lc, new_LateInterestCalculator a = Ok lc).
Proof.
  unfold new_LateInterestCalculator, new_InterestRateCalculator.
  destruct (late_interest_base a) eqn:Hb; simpl.
  - split; [discriminate|]. split; [discriminate|].
    split; [by intros lc [= <-]|]. eauto.
  - destruct (flat_rate a) eqn:Hf; simpl.
    + split; [discriminate|]. split; [discriminate|].
      split; [by intros lc [= <-]|]. discriminate.
    + split; [by intros e [= <-]|]. split; [done|]. split; [discriminate|]. discriminate.
Qed.

(** ** Accruals *)

(** A PRIME fund with an empty [prime_rate_history] builds its
    calculator, but every accrual over a valid period ([start_date <=
    end_date]) then raises [ValueError("No rate history available")],
    in simple and in compound mode, whatever the principal.  With no
    rate change in the period, the final segment's [get_rate_at_date]
    is the first thing evaluated after the day count, before any Decimal
    arithmetic: so even a zero principal, whose weighted-rate division
    [0 / 0] would raise [InvalidOperation], gets the [ValueError]. *)
Theorem prime_empty_history_accrual_fails (dpow : dec -> dec -> result dec)
    (a : FundAssumptions) (lc : LateInterestCalculator) (principal : dec)
    (start_date end_date : date) :
  late_interest_base a = PRIME ->
  prime_rate_history a = [] ->
  new_LateInterestCalculator a = Ok lc ->
  start_date <= end_date ->
  calculate_interest dpow (rate_calculator lc) principal start_date end_date =
    Err (ValueError "No rate history available").
Proof.
  intros Hb Hh Hlc Hle.
  unfold new_LateInterestCalculator, new_InterestRateCalculator in Hlc.
  rewrite Hb, Hh in Hlc. simpl in Hlc. injection Hlc as <-. simpl.
  assert (H1 : (end_date <? start_date) = false) by (apply Z.ltb_ge; lia).
  assert (H2 : (end_date - start_date + 1 <=? 0) = false) by (apply Z.leb_gt; lia).
  assert (H3 : (0 <? end_date - start_date + 1) = true) by (apply Z.ltb_lt; lia).
  unfold calculate_interest, date_lt. rewrite H1.
  destruct (late_interest_compounding a); simpl;
    [unfold calculate_simple_interest|unfold calculate_compound_interest];
    rewrite H2; simpl; rewrite H3; reflexivity.
Qed.

Lemma prime_empty_history_accrual_fails_witness :
  calculate_interest pow_unused
    (mkInterestRateCalculator SIMPLE (VariableMode [] (Decimal.of_Z 2)))
    (Decimal.of_Z 0) (ymd 2023 1 1) (ymd 2023 6 30) =
    Err (ValueError "No rate history available").
Proof.
  exact (prime_empty_history_accrual_fails pow_unused
           (mkFundAssumptions "Empty" SIMPLE PRIME (Decimal.of_Z 2) ISSUE_DATE
              false true 2 2 [] None)
           (mkLateInterestCalculator
              (mkFundAssumptions "Empty" SIMPLE PRIME (Decimal.of_Z 2) ISSUE_DATE
                 false true 2 2 [] None)
              (mkInterestRateCalculator SIMPLE (VariableMode [] (Decimal.of_Z 2))))
           (Decimal.of_Z 0) (ymd 2023 1 1) (ymd 2023 6 30)
           eq_refl eq_refl eq_refl ltac:(apply Z.leb_le; reflexivity)).
Defined.

Lemma round_digits_bound (mode : Decimal.rounding) (c k j : Z) :
  0 <= k -> 0 <= j -> Z.abs c < 10 ^ (k + j) ->
  Z.abs (Decimal.round_digits mode c k) <= 10 ^ j.
Proof.
  intros Hk Hj Hc. unfold Decimal.round_digits.
  assert (Hp : 0 < 10 ^ k) by (apply Z.pow_pos_nonneg; lia).
  assert (Hq : Z.abs c / 10 ^ k < 10 ^ j).
  { apply Z.div_lt_upper_bound; [done|]. by rewrite <- Z.pow_add_r by lia. }
  assert (Hq0 : 0 <= Z.abs c / 10 ^ k) by (apply Z.div_pos; lia).
  assert (Hs : Z.abs (Z.sgn c) <= 1)
    by (destruct (Z.sgn_spec c) as [[_ ->]|[[_ ->]|[_ ->]]]; simpl; lia).
  set (q := Z.abs c / 10 ^ k) in *.
  assert (Hfin : forall q', 0 <= q' <= q + 1 -> Z.abs (Z.sgn c * q') <= 10 ^ j).
  { intros q' Hq'. rewrite Z.abs_mul, (Z.abs_eq q') by lia. nia. }
  destruct mode; apply Hfin;
    repeat match goal with |- context [if ?b then _ else _] => destruct b end; lia.
Qed.

(** Every result of [Decimal._fix] is in range: at most 28 digits,
    exponent at least [Etiny], adjusted exponent at most [Emax]. *)
Lemma fix_ok_range (d r : dec) :
  Decimal.fix_ d = Ok r ->
  Decimal.Etiny <= Decimal.exp r /\
  Decimal.ndigits (Decimal.coef r) <= Decimal.prec /\
  Decimal.adjusted r <= Decimal.Emax.
Proof.
  destruct d as [c e]. unfold Decimal.fix_, Decimal.adjusted, Decimal.Etop.
  cbn [Decimal.coef Decimal.exp]. cbv zeta.
  destruct (Z.eqb_spec c 0) as [->|Hc].
  { intros [= <-]. simpl. rewrite ndigits_zero.
    unfold Decimal.Etiny, Decimal.Emax, Decimal.prec. lia. }
  destruct (ndigits_spec c) as (Hc1 & _ & Hc3).
  unfold Decimal.Etiny, Decimal.Emax, Decimal.prec in *.
  destruct (Z.ltb_spec (999999 - 28 + 1) (Decimal.ndigits c + e - 28)) as [|Hov];
    [discriminate|].
  destruct (Z.ltb_spec e (Z.max (Decimal.ndigits c + e - 28) (-999999 - 28 + 1)))
    as [Hlt|Hge].
  - set (em := Z.max (Decimal.ndigits c + e - 28) (-999999 - 28 + 1)) in *.
    set (q := Decimal.round_digits Decimal.context_rounding c (em - e)).
    assert (Hq : Z.abs q <= 10 ^ 28).
    { apply round_digits_bound; [lia|lia|].
      apply (Z.lt_le_trans _ _ _ Hc3). apply Z.pow_le_mono_r; lia. }
    destruct (Z.ltb_spec 28 (Decimal.ndigits q)).
    + destruct (Z.ltb_spec (999999 - 28 + 1) (em + 1)); [discriminate|].
      intros [= <-]. cbn [Decimal.coef Decimal.exp].
      assert (Hq10 : Decimal.ndigits (q / 10) <= 28).
      { apply (Z.le_trans _ (27 + 1)); [|lia]. apply ndigits_le; [lia|].
        assert (q / 10 <= 10 ^ 28 / 10) by (apply Z.div_le_mono; lia).
        assert (- 10 ^ 28 / 10 <= q / 10) by (apply Z.div_le_mono; lia).
        replace (10 ^ 28 / 10) with (10 ^ 27) in * by reflexivity.
        replace (- 10 ^ 28 / 10) with (- 10 ^ 27) in * by reflexivity.
        lia. }
      lia.
    + intros [= <-]. cbn [Decimal.coef Decimal.exp]. lia.
  - intros [= <-]. cbn [Decimal.coef Decimal.exp]. lia.
Qed.

Lemma add_zero_l (x : dec) :
  Decimal.exp x <= 0 ->
  Decimal.Etiny <= Decimal.exp x ->
  Decimal.ndigits (Decimal.coef x) <= Decimal.prec ->
  Decimal.adjusted x <= Decimal.Emax ->
  Decimal.of_Z 0 +d x = Ok x.
Proof.
  destruct x as [c e]. simpl. intros He H1 H2 H3.
  unfold Decimal.add, Decimal.align, Decimal.of_Z. cbn [Decimal.coef Decimal.exp].
  rewrite Z.min_r by done. rewrite Z.sub_diag, Z.pow_0_r, Z.mul_1_r, Z.mul_0_l, Z.add_0_l.
  by apply fix_in_range.
Qed.

(** A segment's interest is always in range. *)
Lemma segment_interest_range (principal r i : dec) (days : Z) :
  segment_interest principal r days = Ok i ->
  Decimal.Etiny <= Decimal.exp i /\
  Decimal.ndigits (Decimal.coef i) <= Decimal.prec /\
  Decimal.adjusted i <= Decimal.Emax.
Proof.
  unfold segment_interest.
  destruct (Decimal.div r (Decimal.of_Z 100)) as [x|]; cbn [mbind result_bind]; [|discriminate].
  destruct (principal *d x) as [m|]; cbn [mbind result_bind]; [|discriminate].
  destruct (Decimal.div (Decimal.of_Z days) (Decimal.of_Z 365)) as [y|];
    cbn [mbind result_bind]; [|discriminate].
  apply fix_ok_range.
Qed.

Lemma filter_all_false {A} (f : A -> bool) (l : list A) :
  (forall x, In x l -> f x = false) -> List.filter f l = [].
Proof.
  induction l as [|x l IH]; simpl; intros H; [done|].
  rewrite H by (by left). apply IH. intros y Hy. apply H. by right.
Qed.

(** With no rate change in [(start_date, end_date]], a variable-rate
    simple accrual with a non-zero principal follows the flat-rate
    calculator at the rate [r] in force on [start_date]: when the flat
    calculator raises, the variable one raises the same exception; when it
    returns [(i, r)], the variable one returns [Decimal('0') + i] (which is
    [i] itself when [i] has no positive exponent) with its own average
    rate, unless computing that average rate overflows. *)
Theorem simple_no_rate_change_is_flat (c : InterestRateCalculator)
    (hist : list PrimeRateChange) (spread principal r : dec) (start_date end_date : date) :
  mode c = VariableMode hist spread ->
  start_date <= end_date ->
  (forall rc, In rc hist -> effective_date rc <= start_date \/ end_date < effective_date rc) ->
  get_rate_at_date c start_date = Ok r ->
  Decimal.coef principal <> 0 ->
  match calculate_simple_interest (mkInterestRateCalculator (compounding c) (FlatMode r))
          principal start_date end_date with
  | Err e => calculate_simple_interest c principal start_date end_date = Err e
  | Ok (i, r') =>
      r' = r /\
      (calculate_simple_interest c principal start_date end_date = Err Overflow \/
       exists t er,
         Decimal.of_Z 0 +d i = Ok t /\
         calculate_simple_interest c principal start_date end_date = Ok (t, er) /\
         (Decimal.exp i <= 0 -> t = i))
  end.
Proof.
  intros Hmode Hle Hnone Hr Hp.
  assert (Hnil : rate_changes_in_period hist start_date end_date = []).
  { unfold rate_changes_in_period. rewrite filter_all_false; [done|].
    intros rc Hrc. unfold date_lt, date_le.
    destruct (Hnone rc Hrc); apply andb_false_iff; [left; apply Z.ltb_ge|right; apply Z.leb_gt];
      lia. }
  assert (H2 : (end_date - start_date + 1 <=? 0) = false) by (apply Z.leb_gt; lia).
  assert (H3 : (0 <? end_date - start_date + 1) = true) by (apply Z.ltb_lt; lia).
  unfold calculate_simple_interest. rewrite H2, Hmode, Hnil. simpl.
  rewrite H3. simpl. rewrite Hr. simpl.
  destruct (segment_interest principal r (end_date - start_date + 1)) as [i|e] eqn:Hi;
    simpl; [|done].
  split; [done|].
  assert (Hd : Decimal.coef (Decimal.of_Z (end_date - start_date + 1)) <> 0)
    by (apply coef_of_Z_nonzero; apply Z.ltb_lt in H3; lia).
  destruct (Decimal.of_Z 0 +d i) as [t|e] eqn:Ht; simpl;
    [|left; by rewrite (add_err _ _ _ Ht)].
  destruct (Decimal.div t principal) as [q|e] eqn:Hq; simpl;
    [|left; by rewrite (div_err _ _ _ Hp Hq)].
  destruct (Decimal.div (Decimal.of_Z 365) (Decimal.of_Z (end_date - start_date + 1)))
    as [y|e] eqn:Hy; simpl;
    [|left; by rewrite (div_err _ _ _ Hd Hy)].
  destruct (q *d y) as [qy|e] eqn:Hqy; simpl; [|left; by rewrite (mul_err _ _ _ Hqy)].
  destruct (qy *d Decimal.of_Z 100) as [avg|e] eqn:Havg; simpl;
    [|left; by rewrite (mul_err _ _ _ Havg)].
  right. exists t, avg. split; [done|]. split; [done|].
  intros He. destruct (segment_interest_range _ _ _ _ Hi) as (R1 & R2 & R3).
  rewrite add_zero_l in Ht by done. congruence.
Qed.

Lemma simple_no_rate_change_is_flat_witness :
  match calculate_simple_interest
          (mkInterestRateCalculator SIMPLE (FlatMode (Decimal.Dec 600 (-2))))
          (Decimal.of_Z 1000) (ymd 2022 6 1) (ymd 2022 12 31) with
  | Err e =>
      calculate_simple_interest prime_calculator (Decimal.of_Z 1000) (ymd 2022 6 1)
        (ymd 2022 12 31) = Err e
  | Ok (i, r') =>
      r' = Decimal.Dec 600 (-2) /\
      (calculate_simple_interest prime_calculator (Decimal.of_Z 1000) (ymd 2022 6 1)
         (ymd 2022 12 31) = Err Overflow \/
       exists t er,
         Decimal.of_Z 0 +d i = Ok t /\
         calculate_simple_interest prime_calculator (Decimal.of_Z 1000) (ymd 2022 6 1)
           (ymd 2022 12 31) = Ok (t, er) /\
         (Decimal.exp i <= 0 -> t = i))
  end.
Proof.
  assert (Hm : mode prime_calculator =
    VariableMode (sort_by_key_desc effective_date example_history) (Decimal.of_Z 2))
    by reflexivity.
  assert (Hle : ymd 2022 6 1 <= ymd 2022 12 31) by (apply Z.leb_le; reflexivity).
  assert (Hnone : forall rc, In rc (sort_by_key_desc effective_date example_history) ->
            effective_date rc <= ymd 2022 6 1 \/ ymd 2022 12 31 < effective_date rc).
  { intros rc Hrc. vm_compute in Hrc.
    destruct Hrc as [<-|[<-|[]]]; left; apply Z.leb_le; reflexivity. }
  assert (Hr : get_rate_at_date prime_calculator (ymd 2022 6 1) = Ok (Decimal.Dec 600 (-2)))
    by reflexivity.
  assert (Hp : Decimal.coef (Decimal.of_Z 1000) <> 0) by discriminate.
  exact (simple_no_rate_change_is_flat prime_calculator _ _ _ _ _ _ Hm Hle Hnone Hr Hp).
Defined.

(** ** Late interest in [DUE_DATE] mode *)

Lemma call_due_date_mode dpow lc new_lp call d :
  end_date_calculation (li_assumptions lc) = DUE_DATE ->
  calculate_late_interest_for_call dpow lc new_lp call = Ok d ->
  get_call_amount call (commitment new_lp) = Ok (capital_amount d) /\
  late_interest d = Decimal.of_Z 0 /\ days_late d = 0 /\
  effective_rate d = Decimal.of_Z 0.
Proof.
  intros Hm. unfold calculate_late_interest_for_call. cbv zeta. rewrite Hm.
  destruct (get_call_amount call (commitment new_lp)) as [ca|]; simpl; [|discriminate].
  rewrite Z.sub_diag. simpl. intros [= <-]. simpl. done.
Qed.

Lemma new_lp_fold_due_date dpow lc new_lp calls b0 tc0 b tc tl :
  end_date_calculation (li_assumptions lc) = DUE_DATE ->
  fold_res (new_lp_step dpow lc new_lp) (b0, tc0, Decimal.of_Z 0) calls = Ok (b, tc, tl) ->
  tl = Decimal.of_Z 0.
Proof.
  intros Hm. revert b0 tc0.
  induction calls as [|call calls IH]; simpl; intros b0 tc0.
  - by intros [= _ _ <-].
  - destruct (calculate_late_interest_for_call dpow lc new_lp call) as [d|] eqn:Hd;
      simpl; [|discriminate].
    destruct (call_due_date_mode _ _ _ _ _ Hm Hd) as (_ & Hli & _).
    assert (Hz : Decimal.of_Z 0 +d Decimal.of_Z 0 = Ok (Decimal.of_Z 0)) by reflexivity.
    rewrite Hli, Hz.
    destruct (tc0 +d capital_amount d); simpl; [apply IH|discriminate].
Qed.

(** [0.1 ** n], when it does not overflow, has exponent [-n], or [Etiny]
    once [1E-n] is below the subnormal range. *)
Lemma pow_tenth_exp (n : Z) (q : dec) :
  Decimal.pow_tenth n = Ok q -> Decimal.exp q = Z.max (- n) Decimal.Etiny.
Proof.
  unfold Decimal.pow_tenth, Decimal.fix_, Decimal.Etop.
  cbn [Decimal.coef Decimal.exp]. cbv zeta. rewrite ndigits_one.
  change (1 =? 0) with false. cbv iota.
  unfold Decimal.Etiny, Decimal.Emax, Decimal.prec.
  destruct (Z.ltb_spec (999999 - 28 + 1) (1 + - n - 28)); [discriminate|].
  destruct (Z.ltb_spec (- n) (Z.max (1 + - n - 28) (-999999 - 28 + 1))) as [Hlt|Hge].
  - set (k := Z.max (1 + - n - 28) (-999999 - 28 + 1) - - n).
    assert (Hq : Z.abs (Decimal.round_digits Decimal.context_rounding 1 k) <= 10 ^ 0).
    { apply round_digits_bound; [lia|lia|].
      rewrite Z.add_0_r. simpl. apply (Z.lt_le_trans _ (10 ^ 1)); [done|].
      apply Z.pow_le_mono_r; lia. }
    pose proof (ndigits_le _ 0 ltac:(lia) Hq) as Hnd.
    destruct (Z.ltb_spec 28 (Decimal.ndigits (Decimal.round_digits Decimal.context_rounding 1 k)));
      [lia|].
    intros [= <-]. simpl. lia.
  - intros [= <-]. simpl. lia.
Qed.

(** Rounding a zero amount, when it succeeds, gives zero at exponent
    [-n] (or [Etiny] for place counts beyond the subnormal range). *)
Lemma round_amount_zero (d r : dec) (n : Z) :
  Decimal.coef d = 0 -> round_amount d n = Ok r ->
  r = Decimal.Dec 0 (Z.max (- n) Decimal.Etiny).
Proof.
  intros Hd. unfold round_amount, Decimal.quantize.
  destruct (Z.eqb_spec n 0) as [->|Hn].
  - rewrite quantize_with_eq. cbv zeta.
    destruct (negb _); [discriminate|]. rewrite Hd. intros [= <-]. reflexivity.
  - destruct (Decimal.pow_tenth n) as [q|] eqn:Hq; cbn [mbind result_bind]; [|discriminate].
    rewrite quantize_with_eq. cbv zeta.
    destruct (negb _); [discriminate|]. rewrite Hd. intros [= <-].
    by rewrite (pow_tenth_exp _ _ Hq).
Qed.

(** When the fund computes late interest up to each call's due date
    ([DUE_DATE]), every missed call's detail carries zero late interest,
    zero days late, a zero effective rate and the call amount before any
    rounding; the new LP's total late interest is zero at exponent
    [-sum_rounding], or [Etiny] when [0.1 ** sum_rounding] underflows. *)
Theorem due_date_mode_no_late_interest (dpow : dec -> dec -> result dec)
    (lc : LateInterestCalculator) (new_lp : Partner) (capital_calls : list CapitalCall)
    (calc : NewLPCalculation) :
  end_date_calculation (li_assumptions lc) = DUE_DATE ->
  calculate_late_interest_for_new_lp dpow lc new_lp capital_calls = Ok calc ->
  Forall2 (fun call d =>
      get_call_amount call (commitment new_lp) = Ok (capital_amount d) /\
      late_interest d = Decimal.of_Z 0 /\ days_late d = 0 /\
      effective_rate d = Decimal.of_Z 0)
    (missed_calls new_lp capital_calls) (breakdown_by_capital_call calc) /\
  total_late_interest_due calc =
    Decimal.Dec 0 (Z.max (- sum_rounding (li_assumptions lc)) Decimal.Etiny).
Proof.
  intros Hm. unfold calculate_late_interest_for_new_lp.
  destruct (fold_res _ _ _) as [[[b tc] tl]|] eqn:Hf; simpl; [|discriminate].
  destruct (round_amount tc _); simpl; [|discriminate].
  destruct (round_amount tl _) as [tl'|] eqn:Htl; simpl; [|discriminate].
  intros [= <-]. simpl.
  destruct (new_lp_fold_details _ _ _ _ _ _ _ _ _ _ Hf) as (ds & -> & Hall).
  rewrite (new_lp_fold_due_date _ _ _ _ _ _ _ _ _ Hm Hf) in Htl.
  split.
  - simpl. eapply Forall2_impl; [exact Hall|]. intros call d Hd.
    exact (call_due_date_mode _ _ _ _ _ Hm Hd).
  - exact (round_amount_zero (Decimal.of_Z 0) _ _ eq_refl Htl).
Qed.

Lemma due_date_mode_no_late_interest_witness :
  exists calc,
    calculate_late_interest_for_new_lp pow_unused due_date_calculator lp_on_due_date
      example_calls = Ok calc /\
    Forall2 (fun call d =>
        get_call_amount call (commitment lp_on_due_date) = Ok (capital_amount d) /\
        late_interest d = Decimal.of_Z 0 /\ days_late d = 0 /\
        effective_rate d = Decimal.of_Z 0)
      (missed_calls lp_on_due_date example_calls) (breakdown_by_capital_call calc) /\
    total_late_interest_due calc =
      Decimal.Dec 0 (Z.max (- sum_rounding (li_assumptions due_date_calculator)) Decimal.Etiny).
Proof.
  assert (Hm : end_date_calculation (li_assumptions due_date_calculator) = DUE_DATE)
    by reflexivity.
  case_eq (calculate_late_interest_for_new_lp pow_unused due_date_calculator lp_on_due_date
             example_calls).
  - intros calc H. exists calc. split; [reflexivity|].
    exact (due_date_mode_no_late_interest pow_unused _ _ _ _ Hm H).
  - intros e H. vm_compute in H. discriminate.
Defined.

(** ** The totals of a new LP *)

Lemma new_lp_fold_totals dpow lc new_lp calls b0 tc0 tl0 b tc tl :
  fold_res (new_lp_step dpow lc new_lp) (b0, tc0, tl0) calls = Ok (b, tc, tl) ->
  exists ds, b = b0 ++ ds /\
    fold_res Decimal.add tc0 (map capital_amount ds) = Ok tc /\
    fold_res Decimal.add tl0 (map late_interest ds) = Ok tl.
Proof.
  revert b0 tc0 tl0.
  induction calls as [|call calls IH]; simpl; intros b0 tc0 tl0.
  - intros [= -> -> ->]. exists []. by rewrite app_nil_r.
  - destruct (calculate_late_interest_for_call dpow lc new_lp call) as [d|];
      simpl; [|discriminate].
    destruct (tc0 +d capital_amount d) as [tc1|] eqn:H1; simpl; [|discriminate].
    destruct (tl0 +d late_interest d) as [tl1|] eqn:H2; simpl; [|discriminate].
    intros H. destruct (IH _ _ _ H) as (ds & -> & H3 & H4).
    exists (d :: ds). split; [by rewrite <- app_assoc|].
    cbn [map fold_res]. rewrite H1, H2. by split.
Qed.

(** A new LP's [total_catch_up] and [total_late_interest_due] are the
    sums of the (already rounded) line items of its breakdown, rounded
    once more to [sum_rounding] places. *)
Theorem new_lp_totals_are_rounded_sums (dpow : dec -> dec -> result dec)
    (lc : LateInterestCalculator) (new_lp : Partner) (capital_calls : list CapitalCall)
    (calc : NewLPCalculation) :
  calculate_late_interest_for_new_lp dpow lc new_lp capital_calls = Ok calc ->
  (s ← Decimal.sum (map capital_amount (breakdown_by_capital_call calc));
   round_amount s (sum_rounding (li_assumptions lc))) = Ok (total_catch_up calc) /\
  (s ← Decimal.sum (map late_interest (breakdown_by_capital_call calc));
   round_amount s (sum_rounding (li_assumptions lc))) = Ok (total_late_interest_due calc).
Proof.
  unfold calculate_late_interest_for_new_lp.
  destruct (fold_res _ _ _) as [[[b tc] tl]|] eqn:Hf; simpl; [|discriminate].
  destruct (round_amount tc _) as [tc'|] eqn:Htc; simpl; [|discriminate].
  destruct (round_amount tl _) as [tl'|] eqn:Htl; simpl; [|discriminate].
  intros [= <-]. simpl.
  destruct (new_lp_fold_totals _ _ _ _ _ _ _ _ _ _ Hf) as (ds & -> & H1 & H2).
  rewrite app_nil_l. unfold Decimal.sum. rewrite H1, H2. by split.
Qed.

Lemma new_lp_totals_are_rounded_sums_witness :
  exists calc,
    calculate_late_interest_for_new_lp pow_unused example_calculator lp_on_due_date
      example_calls = Ok calc /\
    (s ← Decimal.sum (map capital_amount (breakdown_by_capital_call calc));
     round_amount s (sum_rounding (li_assumptions example_calculator))) =
      Ok (total_catch_up calc) /\
    (s ← Decimal.sum (map late_interest (breakdown_by_capital_call calc));
     round_amount s (sum_rounding (li_assumptions example_calculator))) =
      Ok (total_late_interest_due calc).
Proof.
  case_eq (calculate_late_interest_for_new_lp pow_unused example_calculator lp_on_due_date
             example_calls).
  - intros calc H. exists calc. split; [reflexivity|].
    exact (new_lp_totals_are_rounded_sums pow_unused _ _ _ _ H).
  - intros e H. vm_compute in H. discriminate.
Defined.

(** ** Late interest in [ISSUE_DATE] mode *)

Lemma Forall2_in_l {A B} (P : A -> B -> Prop) (Q : A -> Prop) l1 l2 :
  Forall2 P l1 l2 -> (forall x, In x l1 -> Q x) ->
  Forall2 (fun x y => Q x /\ P x y) l1 l2.
Proof.
  induction 1 as [|x y l1 l2 Hxy _ IH]; intros HQ; constructor.
  - split; [apply HQ; by left|done].
  - apply IH. intros z Hz. apply HQ. by right.
Qed.

(** When the fund computes late interest up to the issue date
    ([ISSUE_DATE]), the detail of each missed call counts
    [issue_date - due_date] days late, a positive number, and its late
    interest, effective rate and capital amount are the accrual of the
    unrounded call amount from the due date through the issue date,
    each rounded to [calc_rounding] places. *)
Theorem issue_date_mode_details (dpow : dec -> dec -> result dec)
    (lc : LateInterestCalculator) (new_lp : Partner) (capital_calls : list CapitalCall)
    (calc : NewLPCalculation) :
  end_date_calculation (li_assumptions lc) = ISSUE_DATE ->
  calculate_late_interest_for_new_lp dpow lc new_lp capital_calls = Ok calc ->
  Forall2 (fun call d =>
      days_late d = issue_date new_lp - due_date call /\ 0 < days_late d /\
      exists ca li er,
        get_call_amount call (commitment new_lp) = Ok ca /\
        calculate_interest dpow (rate_calculator lc) ca (due_date call) (issue_date new_lp)
          = Ok (li, er) /\
        round_amount li (calc_rounding (li_assumptions lc)) = Ok (late_interest d) /\
        round_amount er (calc_rounding (li_assumptions lc)) = Ok (effective_rate d) /\
        round_amount ca (calc_rounding (li_assumptions lc)) = Ok (capital_amount d))
    (missed_calls new_lp capital_calls) (breakdown_by_capital_call calc).
Proof.
  intros Hm. unfold calculate_late_interest_for_new_lp.
  destruct (fold_res _ _ _) as [[[b tc] tl]|] eqn:Hf; simpl; [|discriminate].
  destruct (round_amount tc _); simpl; [|discriminate].
  destruct (round_amount tl _); simpl; [|discriminate].
  intros [= <-]. simpl.
  destruct (new_lp_fold_details _ _ _ _ _ _ _ _ _ _ Hf) as (ds & -> & Hall). simpl.
  pose proof (Forall2_in_l _ (fun call => due_date call < issue_date new_lp) _ _ Hall)
    as Hall'.
  eapply Forall2_impl.
  { apply Hall'. intros call Hin. by apply missed_calls_spec in Hin as [_ ?]. }
  intros call d [Hlt Hd]. revert Hd.
  unfold calculate_late_interest_for_call. cbv zeta. rewrite Hm.
  destruct (get_call_amount call (commitment new_lp)) as [ca|]; simpl; [|discriminate].
  assert (Hpos : (issue_date new_lp - due_date call <=? 0) = false) by (apply Z.leb_gt; lia).
  rewrite Hpos.
  destruct (calculate_interest _ _ _ _ _) as [[li er]|] eqn:Hci; simpl; [|discriminate].
  destruct (round_amount li _) as [li'|] eqn:H1; simpl; [|discriminate].
  destruct (round_amount er _) as [er'|] eqn:H2; simpl; [|discriminate].
  destruct (round_amount ca _) as [ca'|] eqn:H3; simpl; [|discriminate].
  intros [= <-]. simpl. split; [done|]. split; [lia|].
  by exists ca, li, er.
Qed.

Lemma issue_date_mode_details_witness :
  exists calc,
    calculate_late_interest_for_new_lp pow_unused example_calculator lp_on_due_date
      example_calls = Ok calc /\
    Forall2 (fun call d =>
        days_late d = issue_date lp_on_due_date - due_date call /\ 0 < days_late d /\
        exists ca li er,
          get_call_amount call (commitment lp_on_due_date) = Ok ca /\
          calculate_interest pow_unused (rate_calculator example_calculator) ca (due_date call)
            (issue_date lp_on_due_date) = Ok (li, er) /\
          round_amount li (calc_rounding (li_assumptions example_calculator)) = Ok (late_interest d) /\
          round_amount er (calc_rounding (li_assumptions example_calculator)) = Ok (effective_rate d) /\
          round_amount ca (calc_rounding (li_assumptions example_calculator)) = Ok (capital_amount d))
      (missed_calls lp_on_due_date example_calls) (breakdown_by_capital_call calc).
Proof.
  assert (Hm : end_date_calculation (li_assumptions example_calculator) = ISSUE_DATE)
    by reflexivity.
  case_eq (calculate_late_interest_for_new_lp pow_unused example_calculator lp_on_due_date
             example_calls).
  - intros calc H. exists calc. split; [reflexivity|].
    exact (issue_date_mode_details pow_unused _ _ _ _ Hm H).
  - intros e H. vm_compute in H. discriminate.
Defined.

(** ** Contract A allocation records *)

Lemma allocation_fold_content calc_r k total_li total_ec acc0 t0 ex als t :
  fold_res (allocation_step calc_r k total_li total_ec) (acc0, t0) ex = Ok (als, t) ->
  exists ds, als = acc0 ++ ds /\
    fold_res Decimal.add t0 (map total_allocation ds) = Ok t /\
    Forall2 (fun p al =>
               a_partner_name al = name p /\ a_commitment al = commitment p /\
               a_close_number al = close_number p /\
               allocation_by_admitting_close al = [(k, total_allocation al)] /\
               exists pct mp, Decimal.div (commitment p) total_ec = Ok pct /\
                 total_li *d pct = Ok mp /\
                 round_amount mp calc_r = Ok (total_allocation al))
      ex ds.
Proof.
  revert acc0 t0.
  induction ex as [|p ex IH]; intros acc0 t0; simpl.
  - intros [= <- <-]. exists []. split; [by rewrite app_nil_r|]. split; [done|constructor].
  - unfold allocation_step at 1.
    destruct (Decimal.div (commitment p) total_ec) as [pct|] eqn:Hpct; simpl; [|discriminate].
    destruct (total_li *d pct) as [mp|] eqn:Hmp; simpl; [|discriminate].
    destruct (round_amount mp calc_r) as [amt|] eqn:Hamt; simpl; [|discriminate].
    destruct (t0 +d amt) as [t1|] eqn:Ht1; simpl; [|discriminate].
    intros H. destruct (IH _ _ H) as (ds & -> & Hfold & Hall).
    eexists (_ :: ds). split; [by rewrite <- app_assoc|].
    split; [cbn [map fold_res]; simpl; by rewrite Ht1|].
    constructor; [|done]. simpl. repeat split; eauto.
Qed.

(** When Contract A allocates anything, it returns one record per
    existing partner (close number below the admitting close), in the
    order of the partner list, carrying the partner's name, commitment
    and close number, its pro-rata share [round(total_li * (commitment /
    total_ec))] and a single entry [admitting close -> share]; the total
    is the sum of the shares rounded to [sum_rounding] places.
    Otherwise it returns no record and a zero total. *)
Theorem calculate_allocations_records (a : FundAssumptions)
    (new_lps : list NewLPCalculation) (all_partners : list Partner) (k : Z)
    (als : list ExistingLPAllocation) (t : dec) :
  calculate_allocations a new_lps all_partners k = Ok (als, t) ->
  (als = [] /\ t = zero) \/
  (exists tli tec,
   total_late_interest_at new_lps k = Ok tli /\
   Decimal.sum (map commitment (existing_partners all_partners k)) = Ok tec /\
   Forall2 (fun p al =>
      a_partner_name al = name p /\ a_commitment al = commitment p /\
      a_close_number al = close_number p /\
      allocation_by_admitting_close al = [(k, total_allocation al)] /\
      exists pct mp,
        Decimal.div (commitment p) tec = Ok pct /\
        tli *d pct = Ok mp /\
        round_amount mp (calc_rounding a) = Ok (total_allocation al))
     (existing_partners all_partners k) als /\
   (s ← Decimal.sum (map total_allocation als); round_amount s (sum_rounding a)) = Ok t).
Proof.
  unfold calculate_allocations.
  destruct (existing_partners all_partners k) as [|p ps] eqn:Hex.
  { intros [= <- <-]. by left. }
  destruct (total_late_interest_at new_lps k) as [tli|] eqn:Htli; cbn [mbind result_bind]; [|discriminate].
  destruct (Decimal.eqb tli zero).
  { intros [= <- <-]. by left. }
  destruct (Decimal.sum (map commitment (p :: ps))) as [tec|] eqn:Htec; cbn [mbind result_bind]; [|discriminate].
  destruct (Decimal.eqb tec zero); [discriminate|].
  destruct (fold_res _ _ _) as [[als' ta]|] eqn:Hf; simpl; [|discriminate].
  destruct (round_amount ta _) as [t'|] eqn:Ht; simpl; [|discriminate].
  intros [= <- <-]. right. exists tli, tec. split; [done|]. split; [done|].
  destruct (allocation_fold_content _ _ _ _ _ _ _ _ _ Hf) as (ds & -> & Hfold & Hall).
  split; [done|]. rewrite app_nil_l. unfold Decimal.sum. change (Decimal.of_Z 0) with zero. by rewrite Hfold.
Qed.

Lemma calculate_allocations_records_witness :
  exists als t,
    calculate_allocations example_assumptions [example_new_lp_calc] example_partners 2
      = Ok (als, t) /\
    ((als = [] /\ t = zero) \/
     (exists tli tec,
      total_late_interest_at [example_new_lp_calc] 2 = Ok tli /\
      Decimal.sum (map commitment (existing_partners example_partners 2)) = Ok tec /\
      Forall2 (fun p al =>
         a_partner_name al = name p /\ a_commitment al = commitment p /\
         a_close_number al = close_number p /\
         allocation_by_admitting_close al = [(2, total_allocation al)] /\
         exists pct mp,
           Decimal.div (commitment p) tec = Ok pct /\
           tli *d pct = Ok mp /\
           round_amount mp (calc_rounding example_assumptions) = Ok (total_allocation al))
        (existing_partners example_partners 2) als /\
      (s ← Decimal.sum (map total_allocation als);
       round_amount s (sum_rounding example_assumptions)) = Ok t)).
Proof.
  case_eq (calculate_allocations example_assumptions [example_new_lp_calc] example_partners 2).
  - intros [als t] H. exists als, t. split; [reflexivity|].
    exact (calculate_allocations_records _ _ _ _ _ _ H).
  - intros e H. vm_compute in H. discriminate.
Defined.

(** ** Contract B without increases for existing partners *)

Lemma allocation_fold_no_increase calc_r m k total_li total_ec st ex :
  (forall p, In p ex -> m !! name p = None) ->
  fold_res (allocation_step_with_increases calc_r m k total_li total_ec) st ex =
  fold_res (allocation_step calc_r k total_li total_ec) st ex.
Proof.
  revert st. induction ex as [|p ex IH]; intros [acc t0] Hm; cbn [fold_res]; [done|].
  assert (Hstep : allocation_step_with_increases calc_r m k total_li total_ec (acc, t0) p =
                  allocation_step calc_r k total_li total_ec (acc, t0) p).
  { unfold allocation_step_with_increases, allocation_step, get_allocation_commitment.
    by rewrite (Hm p (or_introl eq_refl)). }
  rewrite Hstep.
  destruct (allocation_step calc_r k total_li total_ec (acc, t0) p) as [st'|]; simpl; [|done].
  apply IH. intros q Hq. apply Hm. by right.
Qed.

(** When no existing partner at the admitting close has an entry in
    [commitment_increases] (an empty map, or increases recorded only for
    later partners), Contract B returns exactly what Contract A
    returns, errors included. *)
Theorem allocations_with_increases_no_increase (a : FundAssumptions)
    (new_lps : list NewLPCalculation) (all_partners : list Partner)
    (commitment_increases : gmap string dec) (k : Z) :
  (forall p, In p (existing_partners all_partners k) -> commitment_increases !! name p = None) ->
  calculate_allocations_with_increases a new_lps all_partners commitment_increases k =
  calculate_allocations a new_lps all_partners k.
Proof.
  intros Hm. unfold calculate_allocations_with_increases, calculate_allocations.
  destruct (existing_partners all_partners k) as [|p ps] eqn:Hex; [done|].
  assert (Hmap : map (get_allocation_commitment commitment_increases) (p :: ps) =
                 map commitment (p :: ps)).
  { apply map_ext_in. intros q Hq. unfold get_allocation_commitment.
    by rewrite (Hm q Hq). }
  rewrite Hmap.
  destruct (total_late_interest_at new_lps k) as [tli|]; cbn [mbind result_bind]; [|done].
  destruct (Decimal.eqb tli zero); [done|].
  destruct (Decimal.sum (map commitment (p :: ps))) as [tec|]; cbn [mbind result_bind];
    [|done].
  destruct (Decimal.eqb tec zero); [done|].
  by rewrite allocation_fold_no_increase.
Qed.

Lemma allocations_with_increases_no_increase_witness :
  calculate_allocations_with_increases example_assumptions [example_new_lp_calc]
    example_partners new_lp_increase 2 =
  calculate_allocations example_assumptions [example_new_lp_calc] example_partners 2.
Proof.
  assert (Hm : forall p, In p (existing_partners example_partners 2) ->
                 new_lp_increase !! name p = None).
  { intros p Hp. vm_compute in Hp. destruct Hp as [<-|[<-|[<-|[]]]]; reflexivity. }
  exact (allocations_with_increases_no_increase _ _ _ _ _ Hm).
Defined.

(** ** Aggregation across closes *)

Section AssocFacts.
Context {K V : Type} (eqk : K -> K -> bool).
Hypothesis eqk_spec : forall a b, reflect (a = b) (eqk a b).

Lemma assoc_get_some_in (k : K) (v : V) d :
  assoc_get eqk k d = Some v -> In (k, v) d.
Proof.
  induction d as [|[k1 v1] d IH]; simpl; [done|].
  destruct (eqk_spec k1 k) as [->|]; [intros [= ->]; by left|]. intros H; right; auto.
Qed.

Lemma assoc_get_none_notin (k : K) (d : list (K * V)) :
  assoc_get eqk k d = None -> ~ In k (map fst d).
Proof.
  induction d as [|[k1 v1] d IH]; simpl; [by intros _ []|].
  destruct (eqk_spec k1 k) as [->|Hne]; intros H; [discriminate|].
  intros [->|Hin]; [done|]. by apply IH.
Qed.

Lemma assoc_get_app_new (k : K) (v : V) d :
  assoc_get eqk k d = None -> assoc_get eqk k (d ++ [(k, v)]) = Some v.
Proof.
  induction d as [|[k1 v1] d IH]; simpl.
  - intros _. by destruct (eqk_spec k k).
  - destruct (eqk k1 k); [discriminate|]. apply IH.
Qed.

Lemma assoc_set_keys_in (k : K) (v : V) d :
  In k (map fst d) -> map fst (assoc_set eqk k v d) = map fst d.
Proof.
  induction d as [|[k1 v1] d IH]; simpl; [done|].
  intros Hin. destruct (eqk_spec k1 k) as [->|Hne]; simpl; [done|].
  rewrite IH; [done|]. destruct Hin; [congruence|done].
Qed.

Lemma assoc_set_in (k k' : K) (v v' : V) d :
  In (k', v') (assoc_set eqk k v d) -> (k', v') = (k, v) \/ In (k', v') d.
Proof.
  induction d as [|[k1 v1] d IH]; simpl.
  - intros [H|[]]. by left.
  - destruct (eqk k1 k); simpl.
    + intros [H|H]; [by left|]. by right; right.
    + intros [H|H]; [by right; left|]. destruct (IH H); [by left|]. by right; right.
Qed.

End AssocFacts.


Lemma aggregate_one_inv c acc al acc' :
  agg_inv acc ->
  aggregate_one c acc al = Ok acc' ->
  agg_inv acc' /\
  (forall n, In n (map fst acc') <->
             In n (map fst acc) \/ n = a_partner_name al).
Proof.
  intros [Hnd Hname]. unfold aggregate_one. cbv zeta.
  set (pn := a_partner_name al).
  set (acc1 := match assoc_get String.eqb pn acc with
               | Some _ => acc
               | None => acc ++ [(pn, mkExistingLPAllocation pn (a_commitment al)
                                       (a_close_number al) zero [])]
               end).
  assert (H1 : agg_inv acc1 /\
               (forall n, In n (map fst acc1) <-> In n (map fst acc) \/ n = pn) /\
               exists pa, assoc_get String.eqb pn acc1 = Some pa /\ a_partner_name pa = pn).
  { subst acc1. destruct (assoc_get String.eqb pn acc) as [pa|] eqn:Hg.
    - split; [done|]. split.
      + intros n. split; [by left|]. intros [?| ->]; [done|].
        apply (assoc_get_some_in _ String.eqb_spec) in Hg.
        apply in_map_iff. by exists (pn, pa).
      + exists pa. split; [done|]. apply Hname.
        by apply (assoc_get_some_in _ String.eqb_spec).
    - pose proof (assoc_get_none_notin _ String.eqb_spec _ _ Hg) as Hni.
      split; [split|split].
      + rewrite map_app. simpl. apply NoDup_app. split; [done|]. split.
        * intros x Hx Hx'. apply list_elem_of_singleton in Hx' as ->.
          apply Hni. by apply list_elem_of_In.
        * apply NoDup_singleton.
      + intros n pa Hin. apply in_app_or in Hin as [Hin|[Hin|[]]]; [by apply Hname|].
        by injection Hin as <- <-.
      + intros n. rewrite map_app. simpl. rewrite in_app_iff. simpl. naive_solver.
      + eexists. split; [by apply assoc_get_app_new; [apply String.eqb_spec|]|done]. }
  destruct H1 as ([Hnd1 Hname1] & Hkeys1 & pa & Hpa & Hpan).
  rewrite Hpa.
  destruct (total_allocation pa +d total_allocation al) as [t|];
    cbn [mbind result_bind]; [|discriminate].
  intros [= <-].
  assert (Hin1 : In pn (map fst acc1)).
  { apply in_map_iff. exists (pn, pa). split; [done|].
    by apply (assoc_get_some_in _ String.eqb_spec). }
  unfold agg_inv at 1. rewrite (assoc_set_keys_in _ String.eqb_spec _ _ _ Hin1).
  split; [split|exact Hkeys1].
  - done.
  - intros n pa' Hin. apply (assoc_set_in String.eqb) in Hin as [Heq|Hin].
    + injection Heq as -> ->. simpl. done.
    + by apply Hname1.
Qed.

Lemma aggregate_inner_inv c als acc r :
  agg_inv acc ->
  fold_res (aggregate_one c) acc als = Ok r ->
  agg_inv r /\
  (forall n, In n (map fst r) <->
             In n (map fst acc) \/ exists al, In al als /\ a_partner_name al = n).
Proof.
  revert acc. induction als as [|al als IH]; cbn [fold_res]; intros acc Hinv.
  - intros [= <-]. split; [done|]. intros n. split; [by left|]. by intros [?|(? & [] & _)].
  - destruct (aggregate_one c acc al) as [acc1|] eqn:H1; cbn [mbind result_bind];
      [|discriminate].
    intros Hr.
    destruct (aggregate_one_inv c acc al acc1 Hinv H1) as [Hinv1 Hk1].
    destruct (IH _ Hinv1 Hr) as [Hinv2 Hk2]. split; [done|].
    intros n. rewrite Hk2, Hk1. split.
    + intros [[?| ->]|(al' & ? & ?)]; [by left|right; exists al; split; [by left|done]|].
      right. exists al'. split; [by right|done].
    + intros [?|(al' & [<-|?] & <-)]; [by left; left|by left; right|].
      right. exists al'. done.
Qed.

Lemma aggregate_outer_inv (abc : list (Z * list ExistingLPAllocation)) acc r :
  agg_inv acc ->
  fold_res (fun acc '(close_num, allocations) =>
              fold_res (aggregate_one close_num) acc allocations) acc abc = Ok r ->
  agg_inv r /\
  (forall n, In n (map fst r) <->
             In n (map fst acc) \/
             exists c als al, In (c, als) abc /\ In al als /\ a_partner_name al = n).
Proof.
  revert acc. induction abc as [|[c als] abc IH]; cbn [fold_res]; intros acc Hinv.
  - intros [= <-]. split; [done|]. intros n. split; [by left|].
    by intros [?|(? & ? & ? & [] & _)].
  - destruct (fold_res (aggregate_one c) acc als) as [acc1|] eqn:H1;
      cbn [mbind result_bind]; [|discriminate].
    intros Hr.
    destruct (aggregate_inner_inv c als acc acc1 Hinv H1) as [Hinv1 Hk1].
    destruct (IH _ Hinv1 Hr) as [Hinv2 Hk2]. split; [done|].
    intros n. rewrite Hk2, Hk1. split.
    + intros [[?|(al & ? & ?)]|(c' & als' & al & ? & ? & ?)];
        [by left|right; exists c, als, al; split; [by left|done]|].
      right. exists c', als', al. split; [by right|done].
    + intros [?|(c' & als' & al & [Heq|?] & ? & ?)];
        [by left; left| |right; exists c', als', al; eauto].
      injection Heq as -> ->. left. right. eauto.
Qed.

Lemma aggregate_map_res_names a (acc : list (string * ExistingLPAllocation)) res :
  (forall n pa, In (n, pa) acc -> a_partner_name pa = n) ->
  map_res (fun '(_, pa) =>
             t ← round_amount (total_allocation pa) (sum_rounding a);
             Ok (mkExistingLPAllocation (a_partner_name pa) (a_commitment pa)
                   (a_close_number pa) t (allocation_by_admitting_close pa))) acc = Ok res ->
  map a_partner_name res = map fst acc.
Proof.
  revert res. induction acc as [|[n pa] acc IH]; simpl; intros res Hname.
  - by intros [= <-].
  - destruct (round_amount (total_allocation pa) _); simpl; [|discriminate].
    destruct (map_res _ acc) as [res'|] eqn:Hr; simpl; [|discriminate].
    intros [= <-]. simpl. rewrite (Hname n pa (or_introl eq_refl)).
    f_equal. apply IH; [|done]. intros n' pa' Hin. apply (Hname n' pa'). by right.
Qed.

(** [aggregate_allocations_across_closes] returns one record per partner
    name: no name twice, and exactly the names of the input
    allocations, whatever closes they come from. *)
Theorem aggregate_allocations_names (a : FundAssumptions)
    (allocations_by_close : list (Z * list ExistingLPAllocation))
    (res : list ExistingLPAllocation) :
  aggregate_allocations_across_closes a allocations_by_close = Ok res ->
  NoDup (map a_partner_name res) /\
  (forall n, In n (map a_partner_name res) <->
     exists c als al, In (c, als) allocations_by_close /\ In al als /\
                      a_partner_name al = n).
Proof.
  unfold aggregate_allocations_across_closes.
  assert (H0 : agg_inv []) by (split; [constructor|by intros ? ? []]).
  destruct (fold_res _ [] allocations_by_close) as [pas|] eqn:Hf;
    cbn [mbind result_bind]; [|discriminate].
  destruct (aggregate_outer_inv allocations_by_close [] pas H0 Hf) as [[Hnd Hname] Hkeys].
  intros Hres. rewrite (aggregate_map_res_names _ _ _ Hname Hres).
  split; [done|]. intros n. rewrite Hkeys. simpl. split; [|by right].
  by intros [[]|?].
Qed.

Lemma aggregate_allocations_names_witness :
  exists res,
    aggregate_allocations_across_closes example_assumptions
      [(2, [mkExistingLPAllocation "A" (Decimal.of_Z 1000000) 1 (Decimal.Dec 500 (-2)) [(2, Decimal.Dec 500 (-2))];
            mkExistingLPAllocation "B" (Decimal.of_Z 2000000) 1 (Decimal.Dec 1000 (-2)) [(2, Decimal.Dec 1000 (-2))]]);
       (3, [mkExistingLPAllocation "A" (Decimal.of_Z 1000000) 1 (Decimal.Dec 250 (-2)) [(3, Decimal.Dec 250 (-2))]])]
      = Ok res /\
    NoDup (map a_partner_name res) /\
    (forall n, In n (map a_partner_name res) <->
       exists c als al,
         In (c, als)
           [(2, [mkExistingLPAllocation "A" (Decimal.of_Z 1000000) 1 (Decimal.Dec 500 (-2)) [(2, Decimal.Dec 500 (-2))];
                 mkExistingLPAllocation "B" (Decimal.of_Z 2000000) 1 (Decimal.Dec 1000 (-2)) [(2, Decimal.Dec 1000 (-2))]]);
            (3, [mkExistingLPAllocation "A" (Decimal.of_Z 1000000) 1 (Decimal.Dec 250 (-2)) [(3, Decimal.Dec 250 (-2))]])] /\
         In al als /\ a_partner_name al = n).
Proof.
  case_eq (aggregate_allocations_across_closes example_assumptions
      [(2, [mkExistingLPAllocation "A" (Decimal.of_Z 1000000) 1 (Decimal.Dec 500 (-2)) [(2, Decimal.Dec 500 (-2))];
            mkExistingLPAllocation "B" (Decimal.of_Z 2000000) 1 (Decimal.Dec 1000 (-2)) [(2, Decimal.Dec 1000 (-2))]]);
       (3, [mkExistingLPAllocation "A" (Decimal.of_Z 1000000) 1 (Decimal.Dec 250 (-2)) [(3, Decimal.Dec 250 (-2))]])]).
  - intros res H. exists res. split; [reflexivity|].
    exact (aggregate_allocations_names _ _ _ H).
  - intros e H. vm_compute in H. discriminate.
Defined.

(** ** The run: new-LP records and close summaries *)

Lemma group_by_close_filter (ps : list Partner) (k : Z) :
  default [] (assoc_get Z.eqb k (group_by_close ps)) =
  List.filter (fun p => close_number p =? k) ps.
Proof.
  unfold group_by_close.
  assert (H : forall rest processed g,
            (forall k, default [] (assoc_get Z.eqb k g) =
                       List.filter (fun p => close_number p =? k) processed) ->
            default [] (assoc_get Z.eqb k
              (foldl (fun groups p =>
                        match assoc_get Z.eqb (close_number p) groups with
                        | Some ps => assoc_set Z.eqb (close_number p) (ps ++ [p]) groups
                        | None => groups ++ [(close_number p, [p])]
                        end) g rest)) =
            List.filter (fun p => close_number p =? k) (processed ++ rest)).
  { induction rest as [|p rest IH]; intros processed g Hg; simpl.
    - by rewrite app_nil_r.
    - replace (processed ++ p :: rest) with ((processed ++ [p]) ++ rest)
        by by rewrite <- app_assoc.
      apply IH. intros k'. rewrite List.filter_app. simpl.
      specialize (Hg k').
      destruct (assoc_get Z.eqb (close_number p) g) as [qs|] eqn:Hget.
      + rewrite assoc_get_set.
        destruct (Z.eqb_spec (close_number p) k') as [<-|Hne]; simpl.
        * rewrite Hget in Hg. simpl in Hg. by rewrite <- Hg.
        * by rewrite app_nil_r.
      + rewrite assoc_get_app.
        destruct (assoc_get Z.eqb k' g) as [x|] eqn:Hk'; simpl in Hg |- *.
        * destruct (Z.eqb_spec (close_number p) k') as [<-|Hne].
          -- by rewrite Hget in Hk'.
          -- by rewrite app_nil_r.
        * rewrite <- Hg. by destruct (close_number p =? k'). }
  apply (H ps [] []). intros k'. reflexivity.
Qed.

Lemma partner_name_calc (dpow : dec -> dec -> result dec) lc p calls c :
  calculate_late_interest_for_new_lp dpow lc p calls = Ok c ->
  partner_name c = name p.
Proof.
  unfold calculate_late_interest_for_new_lp.
  destruct (fold_res _ _ _) as [[[b tc] tl]|e]; simpl; [|discriminate].
  destruct (round_amount tc _); simpl; [|discriminate].
  destruct (round_amount tl _); simpl; [|discriminate].
  intros H. by injection H as <-.
Qed.

Lemma new_lps_fold_names (dpow : dec -> dec -> result dec) eng calls c0 t0 lps cs t :
  fold_res (new_lps_step dpow eng calls) (c0, t0) lps = Ok (cs, t) ->
  map partner_name cs = map partner_name c0 ++ map name lps.
Proof.
  revert c0 t0. induction lps as [|p lps IH]; intros c0 t0; simpl.
  - intros [= <- _]. by rewrite app_nil_r.
  - destruct (calculate_late_interest_for_new_lp dpow (late_calc eng) p calls)
      as [c|] eqn:Hc; simpl; [|discriminate].
    destruct (t0 +d total_late_interest_due c) as [t1|]; simpl; [|discriminate].
    intros H. rewrite (IH _ _ H), map_app. simpl.
    rewrite (partner_name_calc _ _ _ _ _ Hc). by rewrite <- app_assoc.
Qed.

Lemma process_close_facts (dpow : dec -> dec -> result dec) eng ci partners groups
    calls acc k acc' :
  process_close dpow eng ci partners groups calls acc k = Ok acc' ->
  map partner_name (acc_new_lp_results acc') =
    map partner_name (acc_new_lp_results acc) ++
    map name (default [] (assoc_get Z.eqb k groups)) /\
  exists sm, acc_summaries acc' = acc_summaries acc ++ [sm] /\
    s_close_number sm = k /\
    new_lps_count sm = Z.of_nat (length (default [] (assoc_get Z.eqb k groups))) /\
    existing_lps_count sm = Z.of_nat (length (existing_partners partners k)) /\
    Decimal.sub (s_total_collected sm) (s_total_allocated sm) = Ok (difference sm) /\
    acc_collected acc +d s_total_collected sm = Ok (acc_collected acc').
Proof.
  unfold process_close.
  destruct (fold_res _ _ _) as [[calcs t]|e] eqn:Hf; simpl; [|discriminate].
  destruct (acc_collected acc +d t) as [col|e] eqn:Hcol; simpl; [|discriminate].
  intros H.
  match type of H with
  | ?m ≫= _ = Ok _ =>
      destruct m as [[[bc al] ta]|e]; simpl in H; [|discriminate]
  end.
  destruct (Decimal.sub t ta) as [df|e] eqn:Hdf; simpl in H; [|discriminate].
  injection H as <-. simpl. split.
  - rewrite map_app. f_equal. exact (new_lps_fold_names _ _ _ _ _ _ _ _ Hf).
  - eexists. split; [reflexivity|]. simpl. done.
Qed.

Lemma close_loop_facts (dpow : dec -> dec -> result dec) eng ci partners groups
    calls acc0 ks acc :
  fold_res (process_close dpow eng ci partners groups calls) acc0 ks = Ok acc ->
  map partner_name (acc_new_lp_results acc) =
    map partner_name (acc_new_lp_results acc0) ++
    concat (map (fun k => map name (default [] (assoc_get Z.eqb k groups))) ks) /\
  exists sms, acc_summaries acc = acc_summaries acc0 ++ sms /\
    map s_close_number sms = ks /\
    Forall (fun sm =>
      new_lps_count sm =
        Z.of_nat (length (default [] (assoc_get Z.eqb (s_close_number sm) groups))) /\
      existing_lps_count sm =
        Z.of_nat (length (existing_partners partners (s_close_number sm))) /\
      Decimal.sub (s_total_collected sm) (s_total_allocated sm) = Ok (difference sm)) sms /\
    fold_res Decimal.add (acc_collected acc0) (map s_total_collected sms)
      = Ok (acc_collected acc).
Proof.
  revert acc0. induction ks as [|k ks IH]; intros acc0; simpl.
  - intros [= <-]. split; [by rewrite app_nil_r|].
    exists []. split; [by rewrite app_nil_r|]. done.
  - destruct (process_close dpow eng ci partners groups calls acc0 k) as [acc1|] eqn:Hp;
      simpl; [|discriminate].
    intros H. destruct (process_close_facts _ _ _ _ _ _ _ _ _ Hp)
      as [Hn1 (sm & Hs1 & Hk & Hc1 & He1 & Hd1 & Hcol1)].
    destruct (IH _ H) as [Hn2 (sms & Hs2 & Hks & Hall & Hcol2)].
    split.
    + rewrite Hn2, Hn1. by rewrite <- app_assoc.
    + exists (sm :: sms). split; [by rewrite Hs2, Hs1, <- app_assoc|].
      split; [simpl; by rewrite Hk, Hks|].
      split; [constructor; [rewrite Hk; done|done]|].
      cbn [map fold_res]. rewrite Hcol1. exact Hcol2.
Qed.

Lemma length_filter_perm {A} (f : A -> bool) (l l' : list A) :
  l ≡ₚ l' -> length (List.filter f l) = length (List.filter f l').
Proof.
  induction 1 as [|x l l' _ IH|x y l|l l' l'' _ IH1 _ IH2]; simpl.
  - done.
  - destruct (f x); simpl; lia.
  - destruct (f x), (f y); simpl; lia.
  - lia.
Qed.

(** Each close summary of a run reports its close number, the closes
    being the processed ones in ascending order; its [new_lps_count] is
    the number of partners at that close, its [existing_lps_count] the
    number of partners at a lower close, and its [difference] is
    collected minus allocated.  The run's total collected is the sum of
    the per-close collected totals, in close order. *)
Theorem run_close_summaries (dpow : dec -> dec -> result dec)
    (eng : LateInterestEngine) (commitment_increases : option (gmap string dec))
    (today : date) (s : Store) (o : EngineOutput) :
  fst (run_complete_calculation dpow eng commitment_increases today s) = Ok o ->
  map s_close_number (summary_by_close o) =
    closes_to_process (group_by_close (sort_by_key close_number (st_partners s))) /\
  Forall (fun sm =>
    new_lps_count sm =
      Z.of_nat (length (List.filter (fun p => close_number p =? s_close_number sm)
                          (st_partners s))) /\
    existing_lps_count sm =
      Z.of_nat (length (List.filter (fun p => close_number p <? s_close_number sm)
                          (st_partners s))) /\
    Decimal.sub (s_total_collected sm) (s_total_allocated sm) = Ok (difference sm))
    (summary_by_close o) /\
  Decimal.sum (map s_total_collected (summary_by_close o)) = Ok (total_late_interest_collected o).
Proof.
  unfold run_complete_calculation. cbn zeta. simpl fst.
  destruct (fold_res _ _ _) as [acc|e] eqn:Hf; simpl; [|discriminate].
  intros H.
  match type of H with
  | ?m ≫= _ = Ok _ => destruct m as [aggregated|e]; simpl in H; [|discriminate]
  end.
  injection H as <-. simpl.
  destruct (close_loop_facts _ _ _ _ _ _ _ _ _ Hf) as [_ (sms & Hs & Hks & Hall & Hcol)].
  simpl in Hs, Hcol. rewrite Hs. split; [done|]. split; [|exact Hcol].
  eapply List.Forall_impl; [|exact Hall]. intros sm (Hn & He & Hd).
  split; [|split; [|done]].
  - rewrite Hn, group_by_close_filter. f_equal.
    apply length_filter_perm, sort_by_key_perm.
  - rewrite He. unfold existing_partners. f_equal.
    apply length_filter_perm, sort_by_key_perm.
Qed.

Lemma run_close_summaries_witness :
  exists o,
    fst (run_complete_calculation pow_unused
           (mkLateInterestEngine example_assumptions example_calculator) None (ymd 2024 1 1)
           (mkStore example_partners example_calls)) = Ok o /\
    map s_close_number (summary_by_close o) =
      closes_to_process (group_by_close (sort_by_key close_number example_partners)) /\
    Forall (fun sm =>
      new_lps_count sm =
        Z.of_nat (length (List.filter (fun p => close_number p =? s_close_number sm)
                            example_partners)) /\
      existing_lps_count sm =
        Z.of_nat (length (List.filter (fun p => close_number p <? s_close_number sm)
                            example_partners)) /\
      Decimal.sub (s_total_collected sm) (s_total_allocated sm) = Ok (difference sm))
      (summary_by_close o) /\
    Decimal.sum (map s_total_collected (summary_by_close o)) = Ok (total_late_interest_collected o).
Proof.
  case_eq (fst (run_complete_calculation pow_unused
           (mkLateInterestEngine example_assumptions example_calculator) None (ymd 2024 1 1)
           (mkStore example_partners example_calls))).
  - intros o H. exists o. split; [reflexivity|].
    exact (run_close_summaries _ _ _ _ (mkStore example_partners example_calls) _ H).
  - intros e H. vm_compute in H. discriminate.
Defined.

Lemma filter_or_sorted {A} (key : A -> Z) (f g : A -> bool) (l : list A) :
  StronglySorted (fun x y => key x <= key y) l ->
  (forall x y, f x = true -> g y = true -> key x < key y) ->
  List.filter (fun x => f x || g x) l = List.filter f l ++ List.filter g l.
Proof.
  induction 1 as [|x l Hs IH Hall]; intros Hfg; simpl; [done|].
  rewrite List.Forall_forall in Hall.
  destruct (f x) eqn:Hfx; simpl.
  - destruct (g x) eqn:Hgx; [specialize (Hfg x x Hfx Hgx); lia|].
    by rewrite IH.
  - destruct (g x) eqn:Hgx; simpl.
    + rewrite IH by done.
      rewrite (filter_all_false f l); [done|].
      intros y Hy. destruct (f y) eqn:Hfy; [|done].
      specialize (Hfg y x Hfy Hgx). specialize (Hall y Hy). lia.
    + by apply IH.
Qed.

Lemma concat_filter_sorted {A} (key : A -> Z) (l : list A) (ks : list Z) :
  StronglySorted (fun x y => key x <= key y) l ->
  StronglySorted Z.lt ks ->
  concat (map (fun k => List.filter (fun p => key p =? k) l) ks) =
  List.filter (fun p => existsb (Z.eqb (key p)) ks) l.
Proof.
  intros Hl. induction 1 as [|k ks Hks IH Hall]; simpl.
  - symmetry. by apply filter_all_false.
  - rewrite IH. symmetry. apply (filter_or_sorted key); [done|].
    intros x y Hx Hy. apply Z.eqb_eq in Hx. apply existsb_exists in Hy as (k' & Hk' & Hy).
    apply Z.eqb_eq in Hy. rewrite List.Forall_forall in Hall.
    specialize (Hall k' Hk'). lia.
Qed.

(** The new-LP records of a run are, in order, one per partner that has
    some partner at a strictly lower close: the partners taken in
    ascending close order (input order within a close). *)
Theorem run_new_lp_records (dpow : dec -> dec -> result dec)
    (eng : LateInterestEngine) (commitment_increases : option (gmap string dec))
    (today : date) (s : Store) (o : EngineOutput) :
  fst (run_complete_calculation dpow eng commitment_increases today s) = Ok o ->
  map partner_name (new_lps o) =
    map name (List.filter
                (fun p => existsb (fun q => close_number q <? close_number p) (st_partners s))
                (sort_by_key close_number (st_partners s))).
Proof.
  unfold run_complete_calculation. cbn zeta. simpl fst.
  destruct (fold_res _ _ _) as [acc|e] eqn:Hf; simpl; [|discriminate].
  intros H.
  match type of H with
  | ?m ≫= _ = Ok _ => destruct m as [aggregated|e]; simpl in H; [|discriminate]
  end.
  injection H as <-. simpl.
  destruct (close_loop_facts _ _ _ _ _ _ _ _ _ Hf) as [Hn _]. simpl in Hn. rewrite Hn.
  set (ps := sort_by_key close_number (st_partners s)).
  simpl.
  rewrite (map_ext (fun k => map name (default [] (assoc_get Z.eqb k (group_by_close ps))))
             (fun k => map name (List.filter (fun p => close_number p =? k) ps)))
    by (intros k; by rewrite group_by_close_filter).
  rewrite <- (map_map (fun k => List.filter (fun p => close_number p =? k) ps) (map name)).
  rewrite <- concat_map. f_equal.
  rewrite concat_filter_sorted.
  2: apply sort_by_key_strongly_sorted.
  2: { destruct (all_closes_facts ps) as [Hs _]. unfold closes_to_process.
       destruct (all_closes (group_by_close ps)); simpl; [constructor|].
       by inversion Hs. }
  apply filter_ext_in. intros p Hp.
  apply eq_bool_prop_intro. rewrite !Is_true_true, existsb_exists, existsb_exists.
  split.
  - intros (k & Hk & Hpk). apply Z.eqb_eq in Hpk. subst k.
    apply closes_to_process_iff in Hk as [_ (q & Hq & Hlt)].
    exists q. split; [exact (proj1 (in_sort_by_key close_number _ _) Hq)|].
    by apply Z.ltb_lt.
  - intros (q & Hq & Hlt). exists (close_number p). split; [|apply Z.eqb_refl].
    apply closes_to_process_iff. split; [by exists p|].
    exists q. split; [exact (proj2 (in_sort_by_key close_number _ _) Hq)|].
    by apply Z.ltb_lt.
Qed.

Lemma run_new_lp_records_witness :
  exists o,
    fst (run_complete_calculation pow_unused
           (mkLateInterestEngine example_assumptions example_calculator) None (ymd 2024 1 1)
           (mkStore example_partners example_calls)) = Ok o /\
    map partner_name (new_lps o) =
      map name (List.filter
                  (fun p => existsb (fun q => close_number q <? close_number p) example_partners)
                  (sort_by_key close_number example_partners)).
Proof.
  case_eq (fst (run_complete_calculation pow_unused
           (mkLateInterestEngine example_assumptions example_calculator) None (ymd 2024 1 1)
           (mkStore example_partners example_calls))).
  - intros o H. exists o. split; [reflexivity|].
    exact (run_new_lp_records _ _ _ _ (mkStore example_partners example_calls) _ H).
  - intros e H. vm_compute in H. discriminate.
Defined.

(** ** The run in [DUE_DATE] mode *)

Lemma coef_add_zero (x y z : dec) :
  Decimal.coef x = 0 -> Decimal.coef y = 0 -> x +d y = Ok z -> Decimal.coef z = 0.
Proof.
  destruct x as [cx ex], y as [cy ey]. simpl. intros -> ->.
  unfold Decimal.add, Decimal.align. simpl. rewrite !Z.mul_0_l.
  unfold Decimal.fix_. simpl. by intros [= <-].
Qed.

Lemma ltb_zero_coef (t : dec) : Decimal.coef t = 0 -> Decimal.ltb zero t = false.
Proof.
  destruct t as [c e]. simpl. intros ->.
  unfold Decimal.ltb, Decimal.align. simpl. by rewrite !Z.mul_0_l.
Qed.

Lemma due_date_total_coef dpow lc new_lp calls calc :
  end_date_calculation (li_assumptions lc) = DUE_DATE ->
  calculate_late_interest_for_new_lp dpow lc new_lp calls = Ok calc ->
  Decimal.coef (total_late_interest_due calc) = 0.
Proof.
  intros Hm. unfold calculate_late_interest_for_new_lp.
  destruct (fold_res _ _ _) as [[[b tc] tl]|] eqn:Hf; simpl; [|discriminate].
  destruct (round_amount tc _); simpl; [|discriminate].
  destruct (round_amount tl _) as [tl'|] eqn:Htl; simpl; [|discriminate].
  intros [= <-]. simpl.
  rewrite (new_lp_fold_due_date _ _ _ _ _ _ _ _ _ Hm Hf) in Htl.
  by rewrite (round_amount_zero (Decimal.of_Z 0) _ _ eq_refl Htl).
Qed.

Lemma new_lps_fold_due_date dpow eng calls c0 t0 lps cs t :
  end_date_calculation (li_assumptions (late_calc eng)) = DUE_DATE ->
  Decimal.coef t0 = 0 ->
  fold_res (new_lps_step dpow eng calls) (c0, t0) lps = Ok (cs, t) ->
  Decimal.coef t = 0.
Proof.
  intros Hm. revert c0 t0. induction lps as [|p lps IH]; intros c0 t0 Ht0; simpl.
  - by intros [= _ <-].
  - destruct (calculate_late_interest_for_new_lp dpow (late_calc eng) p calls)
      as [c|] eqn:Hc; simpl; [|discriminate].
    destruct (t0 +d total_late_interest_due c) as [t1|] eqn:Ht1; simpl; [|discriminate].
    apply IH. exact (coef_add_zero _ _ _ Ht0 (due_date_total_coef _ _ _ _ _ Hm Hc) Ht1).
Qed.

Lemma process_close_due_date dpow eng ci partners groups calls acc k acc' :
  end_date_calculation (li_assumptions (late_calc eng)) = DUE_DATE ->
  process_close dpow eng ci partners groups calls acc k = Ok acc' ->
  acc_allocations_by_close acc' = acc_allocations_by_close acc /\
  acc_allocated acc' = acc_allocated acc /\
  (Decimal.coef (acc_collected acc) = 0 -> Decimal.coef (acc_collected acc') = 0) /\
  exists sm, acc_summaries acc' = acc_summaries acc ++ [sm] /\
    s_total_allocated sm = zero /\ Decimal.coef (s_total_collected sm) = 0.
Proof.
  intros Hm. unfold process_close.
  destruct (fold_res _ _ _) as [[calcs t]|e] eqn:Hf; simpl; [|discriminate].
  assert (Ht : Decimal.coef t = 0)
    by exact (new_lps_fold_due_date _ _ _ _ zero _ _ _ Hm eq_refl Hf).
  destruct (acc_collected acc +d t) as [col|] eqn:Hcol; simpl; [|discriminate].
  rewrite (ltb_zero_coef t Ht), andb_false_r. simpl.
  destruct (Decimal.sub t zero) as [df|]; simpl; [|discriminate].
  intros [= <-]. simpl.
  split; [done|]. split; [done|]. split.
  - intros H0. exact (coef_add_zero _ _ _ H0 Ht Hcol).
  - eexists. split; [reflexivity|]. done.
Qed.

Lemma close_loop_due_date dpow eng ci partners groups calls acc0 ks acc :
  end_date_calculation (li_assumptions (late_calc eng)) = DUE_DATE ->
  fold_res (process_close dpow eng ci partners groups calls) acc0 ks = Ok acc ->
  acc_allocations_by_close acc = acc_allocations_by_close acc0 /\
  acc_allocated acc = acc_allocated acc0 /\
  (Decimal.coef (acc_collected acc0) = 0 -> Decimal.coef (acc_collected acc) = 0) /\
  exists sms, acc_summaries acc = acc_summaries acc0 ++ sms /\
    Forall (fun sm => s_total_allocated sm = zero /\
                      Decimal.coef (s_total_collected sm) = 0) sms.
Proof.
  intros Hm. revert acc0. induction ks as [|k ks IH]; intros acc0; simpl.
  - intros [= <-]. split; [done|]. split; [done|]. split; [done|].
    exists []. by rewrite app_nil_r.
  - destruct (process_close dpow eng ci partners groups calls acc0 k) as [acc1|] eqn:Hp;
      simpl; [|discriminate].
    intros H. destruct (process_close_due_date _ _ _ _ _ _ _ _ _ Hm Hp)
      as (Hb1 & Ha1 & Hc1 & sm & Hs1 & Hsa & Hsc).
    destruct (IH _ H) as (Hb2 & Ha2 & Hc2 & sms & Hs2 & Hall).
    split; [by rewrite Hb2, Hb1|]. split; [by rewrite Ha2, Ha1|].
    split; [auto|].
    exists (sm :: sms). split; [by rewrite Hs2, Hs1, <- app_assoc|].
    by constructor.
Qed.

(** When the engine's late-interest calculator works in [DUE_DATE] mode,
    a run allocates nothing: no existing-LP allocation record, a zero
    total allocated, and every close summary with nothing allocated and
    a zero amount collected (as is the run's total collected). *)
Theorem run_due_date_no_allocation (dpow : dec -> dec -> result dec)
    (eng : LateInterestEngine) (commitment_increases : option (gmap string dec))
    (today : date) (s : Store) (o : EngineOutput) :
  end_date_calculation (li_assumptions (late_calc eng)) = DUE_DATE ->
  fst (run_complete_calculation dpow eng commitment_increases today s) = Ok o ->
  existing_lps o = [] /\ total_late_interest_allocated o = zero /\
  Decimal.coef (total_late_interest_collected o) = 0 /\
  Forall (fun sm => s_total_allocated sm = zero /\
                    Decimal.coef (s_total_collected sm) = 0) (summary_by_close o).
Proof.
  intros Hm. unfold run_complete_calculation. cbn zeta. simpl fst.
  destruct (fold_res _ _ _) as [acc|e] eqn:Hf; simpl; [|discriminate].
  destruct (close_loop_due_date _ _ _ _ _ _ _ _ _ Hm Hf)
    as (Hb & Ha & Hc & sms & Hs & Hall).
  simpl in Hb, Ha, Hc, Hs. rewrite Hb. simpl.
  intros [= <-]. simpl. rewrite Hs. auto.
Qed.

(** The example engine switched to [DUE_DATE] mode. *)
Lemma run_due_date_no_allocation_witness :
  exists o,
    fst (run_complete_calculation pow_unused
           (mkLateInterestEngine due_date_assumptions due_date_calculator) None (ymd 2024 1 1)
           (mkStore example_partners example_calls)) = Ok o /\
    existing_lps o = [] /\ total_late_interest_allocated o = zero /\
    Decimal.coef (total_late_interest_collected o) = 0 /\
    Forall (fun sm => s_total_allocated sm = zero /\
                      Decimal.coef (s_total_collected sm) = 0) (summary_by_close o).
Proof.
  assert (Hm : end_date_calculation (li_assumptions due_date_calculator) = DUE_DATE)
    by reflexivity.
  case_eq (fst (run_complete_calculation pow_unused
           (mkLateInterestEngine due_date_assumptions due_date_calculator) None (ymd 2024 1 1)
           (mkStore example_partners example_calls))).
  - intros o H. exists o. split; [reflexivity|].
    exact (run_due_date_no_allocation _ (mkLateInterestEngine due_date_assumptions
             due_date_calculator) _ _ (mkStore example_partners example_calls) _ Hm H).
  - intros e H. vm_compute in H. discriminate.
Defined.

(** ** Compound accrual on a zero principal *)

Lemma mul_coef_zero_l (x y : dec) :
  Decimal.coef x = 0 -> exists z, x *d y = Ok z /\ Decimal.coef z = 0.
Proof.
  destruct x as [cx ex]. simpl. intros ->.
  unfold Decimal.mul, Decimal.fix_. simpl. by eexists.
Qed.

Lemma compound_growth_zero (dpow : dec -> dec -> result dec) balance r days :
  (forall x y, exists z, dpow x y = Ok z) ->
  Decimal.coef balance = 0 ->
  compound_growth dpow balance r (Decimal.of_Z 365) days = Err Overflow \/
  exists b, compound_growth dpow balance r (Decimal.of_Z 365) days = Ok b /\
            Decimal.coef b = 0.
Proof.
  intros Hpow Hb. unfold compound_growth.
  destruct (Decimal.div r (Decimal.of_Z 100)) as [x|e] eqn:H1; cbn [mbind result_bind];
    [|left; apply div_err in H1; [by subst|discriminate]].
  destruct (Decimal.div (Decimal.of_Z days) (Decimal.of_Z 365)) as [t|e] eqn:H2;
    cbn [mbind result_bind];
    [|left; apply div_err in H2; [by subst|discriminate]].
  destruct (Decimal.div x (Decimal.of_Z 365)) as [rn|e] eqn:H3; cbn [mbind result_bind];
    [|left; apply div_err in H3; [by subst|discriminate]].
  destruct (Decimal.of_Z 1 +d rn) as [base|e] eqn:H4; cbn [mbind result_bind];
    [|left; by rewrite (add_err _ _ _ H4)].
  destruct (Decimal.of_Z 365 *d t) as [nt|e] eqn:H5; cbn [mbind result_bind];
    [|left; by rewrite (mul_err _ _ _ H5)].
  destruct (Hpow base nt) as [g ->]. cbn [mbind result_bind].
  right. exact (mul_coef_zero_l balance g Hb).
Qed.

Lemma compound_step_zero (dpow : dec -> dec -> result dec) c h t spread b0 d0 rc :
  (forall x y, exists z, dpow x y = Ok z) ->
  mode c = VariableMode (h :: t) spread ->
  Decimal.coef b0 = 0 ->
  compound_segment_step dpow c (Decimal.of_Z 365) (b0, d0) rc = Err Overflow \/
  exists b d, compound_segment_step dpow c (Decimal.of_Z 365) (b0, d0) rc = Ok (b, d) /\
              Decimal.coef b = 0.
Proof.
  intros Hpow Hm Hb0. unfold compound_segment_step.
  destruct (0 <? effective_date rc - d0); cbn [mbind result_bind]; [|right; eauto].
  destruct (get_rate_at_date c d0) as [r|e] eqn:Hr; cbn [mbind result_bind];
    [|left; by rewrite (get_rate_nonempty_err _ _ _ _ _ _ Hm Hr)].
  destruct (compound_growth_zero dpow b0 r (effective_date rc - d0) Hpow Hb0)
    as [He|(b1 & Hb1 & Hz)]; rewrite ?He, ?Hb1; cbn [mbind result_bind];
    [by left|right; eauto].
Qed.

Lemma compound_fold_zero (dpow : dec -> dec -> result dec) c h t spread b0 d0 rcs :
  (forall x y, exists z, dpow x y = Ok z) ->
  mode c = VariableMode (h :: t) spread ->
  Decimal.coef b0 = 0 ->
  fold_res (compound_segment_step dpow c (Decimal.of_Z 365)) (b0, d0) rcs = Err Overflow \/
  exists b d, fold_res (compound_segment_step dpow c (Decimal.of_Z 365)) (b0, d0) rcs
                = Ok (b, d) /\ Decimal.coef b = 0.
Proof.
  intros Hpow Hm. revert b0 d0.
  induction rcs as [|rc rcs IH]; intros b0 d0 Hb0; cbn [fold_res]; [right; eauto|].
  destruct (compound_step_zero dpow c h t spread b0 d0 rc Hpow Hm Hb0)
    as [He|(b1 & d1 & Hs & Hz)]; rewrite ?He, ?Hs; cbn [mbind result_bind];
    [by left|by apply IH].
Qed.

(** A variable-rate compound accrual over a non-empty rate history
    never succeeds when the principal is zero: the balance stays zero,
    and the effective-rate computation divides the zero final balance by
    the zero principal, which raises [InvalidOperation].  The only
    exception that can come first is an [Overflow] of an earlier
    Decimal operation, such as the rate lookup's [rate + spread] for
    rates near the exponent limit.  This holds whatever the power
    function returns, as long as it returns. *)
Theorem compound_zero_principal_fails (dpow : dec -> dec -> result dec)
    (c : InterestRateCalculator) (hist : list PrimeRateChange) (spread principal : dec)
    (start_date end_date : date) :
  (forall x y, exists z, dpow x y = Ok z) ->
  compounding c = COMPOUND ->
  mode c = VariableMode hist spread -> hist <> [] ->
  start_date <= end_date ->
  Decimal.coef principal = 0 ->
  calculate_interest dpow c principal start_date end_date = Err InvalidOperation \/
  calculate_interest dpow c principal start_date end_date = Err Overflow.
Proof.
  intros Hpow Hc Hm Hne Hle Hp.
  destruct hist as [|h tl]; [done|].
  unfold calculate_interest, date_lt.
  rewrite (proj2 (Z.ltb_ge end_date start_date) Hle), Hc.
  unfold calculate_compound_interest.
  rewrite (proj2 (Z.leb_gt (end_date - start_date + 1) 0)) by lia. rewrite Hm.
  destruct (compound_fold_zero dpow c h tl spread principal start_date
              (rate_changes_in_period (h :: tl) start_date end_date) Hpow Hm Hp)
    as [Hf|(b & d & Hf & Hb)]; rewrite Hf; cbn [mbind result_bind]; [by right|].
  assert (Hfin : (if 0 <? end_date - d + 1 then
                    r ← get_rate_at_date c d;
                    compound_growth dpow b r (Decimal.of_Z 365) (end_date - d + 1)
                  else Ok b) = Err Overflow \/
                 exists b', (if 0 <? end_date - d + 1 then
                               r ← get_rate_at_date c d;
                               compound_growth dpow b r (Decimal.of_Z 365) (end_date - d + 1)
                             else Ok b) = Ok b' /\ Decimal.coef b' = 0).
  { destruct (0 <? end_date - d + 1); [|right; eauto].
    destruct (get_rate_at_date c d) as [r|e] eqn:Hr; cbn [mbind result_bind];
      [|left; by rewrite (get_rate_nonempty_err _ _ _ _ _ _ Hm Hr)].
    by apply compound_growth_zero. }
  destruct Hfin as [Hfin|(b' & Hfin & Hb')]; rewrite Hfin; cbn [mbind result_bind];
    [by right|].
  destruct (Decimal.sub b' principal) as [interest|e] eqn:Hi; cbn [mbind result_bind];
    [|right; by rewrite (sub_err _ _ _ Hi)].
  destruct (Decimal.div (Decimal.of_Z (end_date - start_date + 1)) (Decimal.of_Z 365))
    as [tt|e] eqn:Ht; cbn [mbind result_bind];
    [|right; apply div_err in Ht; [by subst|discriminate]].
  assert (Hdiv : Decimal.div b' principal = Err InvalidOperation)
    by (unfold Decimal.div; by rewrite Hp, Hb').
  left. by rewrite Hdiv.
Qed.

Lemma compound_zero_principal_fails_witness :
  calculate_interest (fun x _ => Ok x)
    (mkInterestRateCalculator COMPOUND
       (VariableMode (sort_by_key_desc effective_date example_history) (Decimal.of_Z 2)))
    (Decimal.of_Z 0) (ymd 2022 1 1) (ymd 2022 12 31) = Err InvalidOperation \/
  calculate_interest (fun x _ => Ok x)
    (mkInterestRateCalculator COMPOUND
       (VariableMode (sort_by_key_desc effective_date example_history) (Decimal.of_Z 2)))
    (Decimal.of_Z 0) (ymd 2022 1 1) (ymd 2022 12 31) = Err Overflow.
Proof.
  assert (Hpow : forall x y : dec, exists z, (fun x _ => Ok x : result dec) x y = Ok z)
    by (intros x y; by exists x).
  assert (Hne : sort_by_key_desc effective_date example_history <> []) by (vm_compute; discriminate).
  assert (Hle : ymd 2022 1 1 <= ymd 2022 12 31) by (apply Z.leb_le; reflexivity).
  exact (compound_zero_principal_fails (fun x _ => Ok x)
           (mkInterestRateCalculator COMPOUND
              (VariableMode (sort_by_key_desc effective_date example_history) (Decimal.of_Z 2)))
           _ _ (Decimal.of_Z 0) _ _ Hpow eq_refl eq_refl Hne Hle eq_refl).
Defined.

